(** * EV charging: the central coordination service and the charging-point peer

    A shallow embedding of [central/ev_central.py] (class [EVCentral]), of the
    credential check of [registry/ev_registry.py] that the central calls, and
    of the message handlers and the status loop of
    [charging_point/ev_cp_engine.py].

    Conventions of the embedding.
    - Python [float] is IEEE binary64, here Rocq's primitive [float].
    - A message is the list of its string fields, as [Protocol.parse_message]
      returns it; an outgoing message is the type tag and the arguments given
      to [Protocol.build_message].
    - The dictionaries of the central are finite maps. Every charging-point
      dictionary is created with all nine keys, so it is a record.
    - A handler is a function from the state of the central to a [result]:
      the new state, the effects it performed in order (socket sends, audit
      and storage calls) and how it ended.  A send is recorded as an effect;
      socket failures are not part of the model.
    - [time.time()] is an integer clock reading taken from the environment.
    - A handler is given for a turn that finds [self.lock] free.  A thread
      that acquires the lock while holding it ends [Blocked]; the state of
      the lock is carried from turn to turn by [Guarded]. *)

From Stdlib Require Import ZArith Floats Bool List Ascii Lia.
From stdpp Require Import gmap strings.

#[local] Set Warnings "-inexact-float".

Local Open Scope string_scope.
Local Open Scope list_scope.

(** ** Python values and builtins *)

(** Truth value of a string: only the empty string is falsy. *)
Definition truthy (s : string) : bool := negb (String.eqb s "").

(** Truth value of [x] for [x : Optional[str]]. *)
Definition truthy_opt (o : option string) : bool :=
  match o with
  | Some s => truthy s
  | None => false
  end.

(** [float(x or 0.0)] for a float [x]: a zero of either sign is falsy and is
    replaced by [0.0]; a NaN is truthy and is kept. *)
Definition or_zero (x : float) : float :=
  if PrimFloat.eqb x 0%float then 0%float else x.

(** [a >= b] and [a > b] on floats. *)
Definition fge (a b : float) : bool := PrimFloat.leb b a.
Definition fgt (a b : float) : bool := PrimFloat.ltb b a.

(** [fields[i]]: [None] stands for [IndexError]. *)
Definition field (fields : list string) (i : nat) : option string :=
  nth_error fields i.

(** [l[-n:]] for a positive [n]. *)
Definition last_n {A} (n : nat) (l : list A) : list A :=
  skipn (length l - n) l.

(** A decimal reader used to instantiate [float(...)] on concrete inputs:
    an optional minus sign followed by digits.  It is not the whole grammar of
    Python's [float]; the handlers below are parametric in the reader. *)
Definition digit_of (c : Ascii.ascii) : option Z :=
  let n := Z.of_nat (Ascii.nat_of_ascii c) in
  if (48 <=? n)%Z && (n <=? 57)%Z then Some (n - 48)%Z else None.

Fixpoint read_digits (s : string) (acc : Z) : option Z :=
  match s with
  | EmptyString => Some acc
  | String c rest =>
      match digit_of c with
      | Some d => read_digits rest (10 * acc + d)%Z
      | None => None
      end
  end.

Definition read_int (s : string) : option Z :=
  match s with
  | EmptyString => None
  | String "-"%char (String c rest) => Z.opp <$> read_digits (String c rest) 0
  | String "-"%char EmptyString => None
  | _ => read_digits s 0
  end.

Definition float_of_Z (z : Z) : float :=
  SF2Prim (binary_normalize prec emax z 0 false).

Definition float_of_int_string (s : string) : option float :=
  float_of_Z <$> read_int s.

(** A stand-in for [round(x, ndigits)] on concrete inputs whose result is the
    input itself (values with at most [ndigits] decimals). *)
Definition round_exact (x : float) (ndigits : Z) : float := x.

(** A stand-in for [hashlib.sha256(...).hexdigest()] on concrete inputs. *)
Definition hash_tag (password : string) : string := "sha256:" +:+ password.

(** ** Messages and effects *)

Definition socket := nat.

(** Arguments of [Protocol.build_message]; they are stringified by it. *)
Inductive scalar :=
| SStr (s : string)
| SNum (x : float).

(** Modelled from the spec: [shared.encryption] is not under src/.  The key
    derived from a secret is deterministic in the secret, so it is represented
    by the secret. *)
Inductive key := generate_key (password : string).

(** A piece of an f-string: literal text or the [repr] of a field list. *)
Inductive fragment :=
| Lit (s : string)
| Repr (fields : list string).

Inductive pyval :=
| VStr (s : string)
| VNum (x : float)
| VJsonState (state : string)
| VRows (rows : list (list scalar))
| VKey (k : key)
| VText (parts : list fragment).

Record message := build_message { msg_type : string; msg_args : list pyval }.

Inductive event :=
| Send (to : socket) (m : message)
| SendEncrypted (to : socket) (k : key) (m : message)
| Audit_log_charge (client cp driver action : string) (kwh amount : option float)
| Audit_log_fault (client cp : string)
| Audit_log_auth (client entity : string)
| Storage_save_charging_session (cp driver : string) (kwh amount : float) (duration : Z)
| Storage_update_driver_stats (driver : string) (amount : float)
| Storage_save_driver (driver status : string)
| Storage_save_cp (cp : string) (lat lon price : float) (state : string)
| Close (sock : socket)
| Http_reply (code : Z) (status : string).

(** How a handler ends.  [Blocked]: the thread waits for ever on a lock it
    already holds ([threading.Lock] is not reentrant). *)
Inductive outcome :=
| Returned
| Raised (exn : string)
| Blocked.

(** Modelled from the spec: [config.CP_STATES] is not under src/.  The four
    lifecycle states of the spec; the dashboard and the monitor compare the
    state with these literals. *)
Module CP_STATES.
Definition ACTIVATED : string := "ACTIVATED".
Definition SUPPLYING : string := "SUPPLYING".
Definition OUT_OF_ORDER : string := "OUT_OF_ORDER".
Definition DISCONNECTED : string := "DISCONNECTED".
End CP_STATES.

(** Modelled from the spec: [shared.protocol.MessageTypes] is not under src/.
    The type tags are the names the spec lists. *)
Module MessageTypes.
Definition REGISTER : string := "REGISTER".
Definition HEARTBEAT : string := "HEARTBEAT".
Definition REQUEST_CHARGE : string := "REQUEST_CHARGE".
Definition QUERY_AVAILABLE_CPS : string := "QUERY_AVAILABLE_CPS".
Definition AVAILABLE_CPS : string := "AVAILABLE_CPS".
Definition SUPPLY_UPDATE : string := "SUPPLY_UPDATE".
Definition SUPPLY_END : string := "SUPPLY_END".
Definition END_CHARGE : string := "END_CHARGE".
Definition END_SUPPLY : string := "END_SUPPLY".
Definition FAULT : string := "FAULT".
Definition RECOVERY : string := "RECOVERY".
Definition AUTHORIZE : string := "AUTHORIZE".
Definition DENY : string := "DENY".
Definition ACKNOWLEDGE : string := "ACKNOWLEDGE".
Definition TICKET : string := "TICKET".
End MessageTypes.

(** ** The credential check of the registry ([ev_registry.py], [/verify]) *)

Module Registry.

Record entry := { username : option string; password_hash : option string }.

Section Verify.
Context (hash_password : string → string).

(** The HTTP status of [verify_cp] on the JSON body
    [{"cp_id": cp_id, "username": username, "password": password}]. *)
Definition verify_cp (registry : gmap string entry)
    (cp_id : string) (user password : option string) : Z :=
  match user, password with
  | Some u, Some p =>
      if negb (truthy cp_id && truthy u && truthy p) then 400
      else
        match registry !! cp_id with
        | None => 404
        | Some cp =>
            if negb (bool_decide (username cp = Some u)) then 401
            else if negb (bool_decide (password_hash cp = Some (hash_password p)))
            then 401
            else 200
        end
  | _, _ => 400
  end%Z.
End Verify.

End Registry.

(** ** The central *)

Module EVCentral.

Import CP_STATES.

(** A charging-point dictionary of [self.charging_points]. *)
Record CP := {
  state : string;
  location : float * float;
  price_per_kwh : float;
  current_driver : option string;
  kwh_delivered : float;
  amount_euro : float;
  session_start : option Z;
  charging_complete : bool;
  kwh_needed : float;
}.

(** A driver dictionary of [self.drivers]. *)
Record Driver := { status : string; current_cp : option string }.

Record log_entry := { ts : Z; source : string; text : list fragment }.

Record Central := {
  charging_points : gmap string CP;
  drivers : gmap string Driver;
  logs : list log_entry;
  active_connections : gmap string socket;
  entity_to_socket : gmap string socket;
  socket_to_entity : gmap socket string;
  socket_to_type : gmap socket string;
  monitors : gmap string socket;
  cp_encryption_keys : gmap string key;
  cp_credentials : gmap string (option string * option string);
}.

(** What a message handler reads from outside the process. *)
Record stored_cp := { latitude : float; longitude : float; stored_price : float }.

Record Env := {
  now : Z;
  registry : option (gmap string Registry.entry);
  storage_get_cp : string → option stored_cp;
  storage_get_recent_history : list (list scalar);
}.

Record result := { st : Central; effects : list event; how : outcome }.

(** *** Field updates *)

Definition set_state (s : string) (cp : CP) : CP :=
  {| state := s; location := location cp; price_per_kwh := price_per_kwh cp;
     current_driver := current_driver cp; kwh_delivered := kwh_delivered cp;
     amount_euro := amount_euro cp; session_start := session_start cp;
     charging_complete := charging_complete cp; kwh_needed := kwh_needed cp |}.

Definition set_charging_points (m : gmap string CP) (c : Central) : Central :=
  {| charging_points := m; drivers := drivers c; logs := logs c;
     active_connections := active_connections c;
     entity_to_socket := entity_to_socket c;
     socket_to_entity := socket_to_entity c;
     socket_to_type := socket_to_type c; monitors := monitors c;
     cp_encryption_keys := cp_encryption_keys c;
     cp_credentials := cp_credentials c |}.

Definition set_drivers (m : gmap string Driver) (c : Central) : Central :=
  {| charging_points := charging_points c; drivers := m; logs := logs c;
     active_connections := active_connections c;
     entity_to_socket := entity_to_socket c;
     socket_to_entity := socket_to_entity c;
     socket_to_type := socket_to_type c; monitors := monitors c;
     cp_encryption_keys := cp_encryption_keys c;
     cp_credentials := cp_credentials c |}.

Definition set_logs (l : list log_entry) (c : Central) : Central :=
  {| charging_points := charging_points c; drivers := drivers c; logs := l;
     active_connections := active_connections c;
     entity_to_socket := entity_to_socket c;
     socket_to_entity := socket_to_entity c;
     socket_to_type := socket_to_type c; monitors := monitors c;
     cp_encryption_keys := cp_encryption_keys c;
     cp_credentials := cp_credentials c |}.

Definition set_active_connections (m : gmap string socket) (c : Central) : Central :=
  {| charging_points := charging_points c; drivers := drivers c; logs := logs c;
     active_connections := m;
     entity_to_socket := entity_to_socket c;
     socket_to_entity := socket_to_entity c;
     socket_to_type := socket_to_type c; monitors := monitors c;
     cp_encryption_keys := cp_encryption_keys c;
     cp_credentials := cp_credentials c |}.

Definition set_entity_to_socket (m : gmap string socket) (c : Central) : Central :=
  {| charging_points := charging_points c; drivers := drivers c; logs := logs c;
     active_connections := active_connections c;
     entity_to_socket := m;
     socket_to_entity := socket_to_entity c;
     socket_to_type := socket_to_type c; monitors := monitors c;
     cp_encryption_keys := cp_encryption_keys c;
     cp_credentials := cp_credentials c |}.

Definition set_socket_to_entity (m : gmap socket string) (c : Central) : Central :=
  {| charging_points := charging_points c; drivers := drivers c; logs := logs c;
     active_connections := active_connections c;
     entity_to_socket := entity_to_socket c;
     socket_to_entity := m;
     socket_to_type := socket_to_type c; monitors := monitors c;
     cp_encryption_keys := cp_encryption_keys c;
     cp_credentials := cp_credentials c |}.

Definition set_socket_to_type (m : gmap socket string) (c : Central) : Central :=
  {| charging_points := charging_points c; drivers := drivers c; logs := logs c;
     active_connections := active_connections c;
     entity_to_socket := entity_to_socket c;
     socket_to_entity := socket_to_entity c;
     socket_to_type := m; monitors := monitors c;
     cp_encryption_keys := cp_encryption_keys c;
     cp_credentials := cp_credentials c |}.

Definition set_monitors (m : gmap string socket) (c : Central) : Central :=
  {| charging_points := charging_points c; drivers := drivers c; logs := logs c;
     active_connections := active_connections c;
     entity_to_socket := entity_to_socket c;
     socket_to_entity := socket_to_entity c;
     socket_to_type := socket_to_type c; monitors := m;
     cp_encryption_keys := cp_encryption_keys c;
     cp_credentials := cp_credentials c |}.

Definition set_cp_encryption_keys (m : gmap string key) (c : Central) : Central :=
  {| charging_points := charging_points c; drivers := drivers c; logs := logs c;
     active_connections := active_connections c;
     entity_to_socket := entity_to_socket c;
     socket_to_entity := socket_to_entity c;
     socket_to_type := socket_to_type c; monitors := monitors c;
     cp_encryption_keys := m;
     cp_credentials := cp_credentials c |}.

Definition set_cp_credentials (m : gmap string (option string * option string))
    (c : Central) : Central :=
  {| charging_points := charging_points c; drivers := drivers c; logs := logs c;
     active_connections := active_connections c;
     entity_to_socket := entity_to_socket c;
     socket_to_entity := socket_to_entity c;
     socket_to_type := socket_to_type c; monitors := monitors c;
     cp_encryption_keys := cp_encryption_keys c;
     cp_credentials := m |}.

(** [cp = self.charging_points.get(cp_id)] followed by assignments to the
    keys of [cp]: the dictionary is shared, so the map changes at [cp_id]. *)
Definition update_cp (cp_id : string) (cp : CP) (c : Central) : Central :=
  set_charging_points (<[cp_id := cp]> (charging_points c)) c.

Definition returned (c : Central) (evs : list event) : result :=
  {| st := c; effects := evs; how := Returned |}.

Definition raised (exn : string) (c : Central) (evs : list event) : result :=
  {| st := c; effects := evs; how := Raised exn |}.

Definition blocked (c : Central) (evs : list event) : result :=
  {| st := c; effects := evs; how := Blocked |}.

(** [self.drivers[driver_id]["status"] = s; self.drivers[driver_id]["current_cp"] = cp]
    under [if driver_id in self.drivers]. *)
Definition update_driver (driver_id : string) (d : Driver) (c : Central) : Central :=
  match drivers c !! driver_id with
  | Some _ => set_drivers (<[driver_id := d]> (drivers c)) c
  | None => c
  end.

(** *** Handlers *)

Section Handlers.

(** [float(s)] ([None]: ValueError), [round(x, ndigits)] and the SHA-256 hex
    digest: builtins, of which the handlers make no assumption. *)
Context (py_float : string → option float)
        (py_round : float → Z → float)
        (hash_password : string → string).

Definition _broadcast_to_ui_protocol (c : Central) (m : message) : list event :=
  match monitors c !! "WEB_UI" with
  | Some ui_sock => [Send ui_sock m]
  | None => []
  end.

Definition _broadcast_to_ui (c : Central) (event_name cp_id payload_state : string)
    : list event :=
  match monitors c !! "WEB_UI" with
  | Some ui_sock =>
      [Send ui_sock (build_message event_name [VStr cp_id; VJsonState payload_state])]
  | None => []
  end.

(** [add_log] called by a thread that does not hold [self.lock]. *)
Definition add_log (e : Env) (src : string) (txt : list fragment) (c : Central)
    : Central * list event :=
  let logs1 := logs c ++ [{| ts := now e; source := src; text := txt |}] in
  let logs2 := if (200 <? length logs1)%nat then last_n 200 logs1 else logs1 in
  let c' := set_logs logs2 c in
  (c', _broadcast_to_ui_protocol c' (build_message "LOG" [VStr src; VText txt])).

Definition _handle_heartbeat (fields : list string) (c : Central) : result :=
  match fields with
  | _ :: cp_id :: state' :: _ =>
      match charging_points c !! cp_id with
      | None => returned c []
      | Some cp =>
          if bool_decide (state cp ≠ SUPPLYING)
          then returned (update_cp cp_id (set_state state' cp) c) []
          else returned c []
      end
  | _ => returned c []
  end.

Definition _send_to_cp (c : Central) (cp_id : string) (m : message) : list event :=
  match entity_to_socket c !! cp_id with
  | None => []
  | Some sock =>
      match cp_encryption_keys c !! cp_id with
      | Some k => [SendEncrypted sock k m]
      | None => [Send sock m]
      end
  end.

Definition deny (driver_id cp_id reason : string) : message :=
  build_message MessageTypes.DENY [VStr driver_id; VStr cp_id; VStr reason].

(** The record written when a charge request is accepted. *)
Definition open_session (e : Env) (driver_id : string) (kwh : float) (cp : CP) : CP :=
  {| state := SUPPLYING; location := location cp;
     price_per_kwh := price_per_kwh cp;
     current_driver := Some driver_id; kwh_delivered := 0%float;
     amount_euro := 0%float; session_start := Some (now e);
     charging_complete := false; kwh_needed := kwh |}.

Definition _handle_charge_request (e : Env) (fields : list string)
    (client_socket : socket) (client_id : string) (c : Central) : result :=
  match fields with
  | _ :: driver_id :: cp_id :: kwh_str :: _ =>
      match py_float kwh_str with
      | None => raised "ValueError" c []
      | Some kwh_needed' =>
          match charging_points c !! cp_id with
          | None =>
              returned c [Send client_socket (deny driver_id cp_id "CP_NOT_FOUND")]
          | Some cp =>
              if bool_decide (state cp ≠ ACTIVATED)
                 || bool_decide (current_driver cp ≠ None)
              then
                let reason :=
                  if bool_decide (state cp ≠ ACTIVATED)
                  then "CP_STATE_" +:+ state cp
                  else "CP_ALREADY_IN_USE" in
                returned c [Send client_socket (deny driver_id cp_id reason)]
              else
                let c1 := update_cp cp_id (open_session e driver_id kwh_needed' cp) c in
                let c2 := update_driver driver_id
                            {| status := "CHARGING"; current_cp := Some cp_id |} c1 in
                let price := price_per_kwh cp in
                let '(c3, log_evs) :=
                  add_log e "EV_Central"
                    [Lit "Charge authorized Driver "; Lit driver_id; Lit " -> "; Lit cp_id]
                    c2 in
                returned c3
                  ([Audit_log_charge client_id cp_id driver_id "CHARGE_START" None None]
                   ++ log_evs
                   ++ [Send client_socket
                         (build_message MessageTypes.AUTHORIZE
                            [VStr driver_id; VStr cp_id; VNum kwh_needed'; VNum price])]
                   ++ _send_to_cp c3 cp_id
                        (build_message MessageTypes.AUTHORIZE
                           [VStr driver_id; VStr cp_id; VNum kwh_needed'])
                   ++ _broadcast_to_ui_protocol c3
                        (build_message "DRIVER_START" [VStr cp_id; VStr driver_id]))
          end
      end
  | _ =>
      let '(c', evs) :=
        add_log e "EV_Central"
          [Lit "Invalid REQUEST_CHARGE from "; Lit client_id; Lit ": "; Repr fields] c in
      returned c' evs
  end.

(** The new values of [kwh_delivered] and [amount_euro] computed by
    [_handle_supply_update] (the lines from "Always accumulate kWh" to the
    rounding). *)
Definition metered_kwh (cp : CP) (kwh_inc : float) : float :=
  PrimFloat.add (or_zero (kwh_delivered cp)) kwh_inc.

Definition metered_amount (cp : CP) (kwh_inc amount_field : float) : float :=
  let computed_total := PrimFloat.mul (metered_kwh cp kwh_inc) (price_per_kwh cp) in
  let prev_amt := or_zero (amount_euro cp) in
  let amount :=
    if fge amount_field prev_amt
       && fge amount_field (PrimFloat.mul computed_total 0.7%float)
    then amount_field
    else PrimFloat.add prev_amt (PrimFloat.mul kwh_inc (price_per_kwh cp)) in
  py_round amount 2.

(** Whether the completion notification fires. *)
Definition completion_fires (cp : CP) (kwh_inc : float) : bool :=
  let needed := or_zero (kwh_needed cp) in
  fgt needed 0%float && fge (metered_kwh cp kwh_inc) needed
  && negb (charging_complete cp).

Definition apply_supply_update (cp : CP) (kwh_inc amount_field : float) : CP :=
  {| state := state cp; location := location cp;
     price_per_kwh := price_per_kwh cp;
     current_driver := current_driver cp;
     kwh_delivered := metered_kwh cp kwh_inc;
     amount_euro := metered_amount cp kwh_inc amount_field;
     session_start := session_start cp;
     charging_complete :=
       if completion_fires cp kwh_inc then true else charging_complete cp;
     kwh_needed := kwh_needed cp |}.

Definition _handle_supply_update (e : Env) (fields : list string) (c : Central)
    : result :=
  match fields with
  | _ :: cp_id :: inc_str :: amount_str :: _ =>
      match py_float inc_str with
      | None => raised "ValueError" c []
      | Some kwh_inc =>
          match py_float amount_str with
          | None => raised "ValueError" c []
          | Some amount_field =>
              match charging_points c !! cp_id with
              | None => returned c []
              | Some cp =>
                  let cp' := apply_supply_update cp kwh_inc amount_field in
                  let c' := update_cp cp_id cp' c in
                  let driver_id := current_driver cp' in
                  let kwh_total := py_round (kwh_delivered cp') 6 in
                  let eur_total := amount_euro cp' in
                  let update_msg :=
                    build_message MessageTypes.SUPPLY_UPDATE
                      [VStr cp_id; VNum kwh_total; VNum eur_total] in
                  returned c'
                    ((if completion_fires cp kwh_inc
                      then _broadcast_to_ui_protocol c'
                             (build_message "CHARGING_COMPLETE"
                                [VStr cp_id; VStr (default "" driver_id)])
                      else [])
                     ++ (if truthy_opt driver_id
                         then match entity_to_socket c' !! default "" driver_id with
                              | Some dsock => [Send dsock update_msg]
                              | None => []
                              end
                         else [])
                     ++ _broadcast_to_ui_protocol c' update_msg)
              end
          end
      end
  | _ =>
      let '(c', evs) :=
        add_log e "EV_Central" [Lit "Invalid SUPPLY_UPDATE: "; Repr fields] c in
      returned c' evs
  end.

(** The record left by [_finalize_charge]. *)
Definition reset_cp (cp : CP) : CP :=
  {| state := ACTIVATED; location := location cp;
     price_per_kwh := price_per_kwh cp;
     current_driver := None; kwh_delivered := 0%float;
     amount_euro := 0%float; session_start := None;
     charging_complete := true; kwh_needed := 0%float |}.

Definition idle_driver : Driver := {| status := "IDLE"; current_cp := None |}.

(** [int(time.time() - cp["session_start"])] when the record exists and its
    start time is truthy, else [0]. *)
Definition session_duration (e : Env) (cp : option CP) : Z :=
  match cp with
  | Some cp' =>
      match session_start cp' with
      | Some t => if bool_decide (t ≠ 0%Z) then (now e - t)%Z else 0%Z
      | None => 0%Z
      end
  | None => 0%Z
  end.

Definition _finalize_charge (e : Env) (cp_id driver_id : string)
    (total_kwh total_amount : float) (client_id_for_log : string) (c : Central)
    : result :=
  let cp := charging_points c !! cp_id in
  let duration := session_duration e cp in
  let c1 := match cp with
            | Some cp' => update_cp cp_id (reset_cp cp') c
            | None => c
            end in
  let c2 := update_driver driver_id idle_driver c1 in
  returned c2
    ([Audit_log_charge client_id_for_log cp_id driver_id "CHARGE_END"
        (Some total_kwh) (Some total_amount);
      Storage_save_charging_session cp_id driver_id total_kwh total_amount duration;
      Storage_update_driver_stats driver_id total_amount]
     ++ match entity_to_socket c2 !! driver_id with
        | Some dsock =>
            [Send dsock (build_message MessageTypes.TICKET
                           [VStr cp_id; VNum total_kwh; VNum total_amount])]
        | None => []
        end
     ++ _broadcast_to_ui_protocol c2
          (build_message "DRIVER_STOP" [VStr cp_id; VStr driver_id])
     ++ _broadcast_to_ui_protocol c2
          (build_message MessageTypes.SUPPLY_END
             [VStr cp_id; VStr driver_id; VNum total_kwh; VNum total_amount])).

Definition _handle_supply_end (e : Env) (fields : list string)
    (client_socket : socket) (client_id : string) (c : Central) : result :=
  match fields with
  | _ :: cp_id :: driver_id :: kwh_str :: amount_str :: _ =>
      match py_float kwh_str with
      | None => raised "ValueError" c []
      | Some total_kwh =>
          match py_float amount_str with
          | None => raised "ValueError" c []
          | Some total_amount =>
              _finalize_charge e cp_id driver_id total_kwh total_amount client_id c
          end
      end
  | _ => returned c []
  end.

(** Sequencing of two steps of one handler. *)
Definition and_then (r : result) (k : Central → result) : result :=
  match how r with
  | Returned =>
      let r' := k (st r) in
      {| st := st r'; effects := effects r ++ effects r'; how := how r' |}
  | _ => r
  end.

Definition _handle_end_charge (e : Env) (fields : list string)
    (client_socket : socket) (client_id : string) (c : Central) : result :=
  match fields with
  | _ :: driver_id :: cp_id :: _ =>
      match charging_points c !! cp_id with
      | None => returned c []
      | Some cp =>
          if bool_decide (current_driver cp ≠ Some driver_id) then returned c []
          else
            let total_kwh := or_zero (kwh_delivered cp) in
            let total_amount := or_zero (amount_euro cp) in
            and_then
              (returned c
                 (_send_to_cp c cp_id
                    (build_message MessageTypes.END_SUPPLY [VStr cp_id])))
              (_finalize_charge e cp_id driver_id total_kwh total_amount client_id)
      end
  | _ => returned c []
  end.

Definition _handle_fault (e : Env) (fields : list string) (client_id : string)
    (c : Central) : result :=
  match fields with
  | _ :: cp_id :: _ =>
      let c1 := match charging_points c !! cp_id with
                | Some cp => update_cp cp_id (set_state OUT_OF_ORDER cp) c
                | None => c
                end in
      let '(c2, log_evs) := add_log e "EV_Central" [Lit "FAULT "; Lit cp_id] c1 in
      returned c2
        ([Audit_log_fault client_id cp_id] ++ log_evs
         ++ _broadcast_to_ui_protocol c2
              (build_message MessageTypes.FAULT [VStr cp_id; VJsonState OUT_OF_ORDER]))
  | _ => returned c []
  end.

Definition _handle_recovery (e : Env) (fields : list string) (c : Central)
    : result :=
  match fields with
  | _ :: cp_id :: _ =>
      let c1 := match charging_points c !! cp_id with
                | Some cp =>
                    if bool_decide (state cp ≠ SUPPLYING)
                    then update_cp cp_id (set_state ACTIVATED cp) c
                    else c
                | None => c
                end in
      let '(c2, log_evs) := add_log e "EV_Central" [Lit "RECOVERY "; Lit cp_id] c1 in
      returned c2
        (log_evs
         ++ _broadcast_to_ui_protocol c2
              (build_message MessageTypes.RECOVERY [VStr cp_id; VJsonState ACTIVATED]))
  | _ => returned c []
  end.

Definition _handle_query_available_cps (fields : list string)
    (client_socket : socket) (c : Central) : result :=
  match fields with
  | _ :: driver_id :: _ =>
      let available :=
        filter (λ kv, bool_decide (state kv.2 = ACTIVATED)
                      && bool_decide (current_driver kv.2 = None))
               (map_to_list (charging_points c)) in
      let row (kv : string * CP) :=
        [SStr kv.1; SNum (location kv.2).1; SNum (location kv.2).2;
         SNum (price_per_kwh kv.2)] in
      returned c
        [Send client_socket
           (build_message MessageTypes.AVAILABLE_CPS [VRows (map row available)])]
  | _ => returned c []
  end.

(** The FULL_STATE message of [_send_full_state_to_ui]. *)
Definition full_state (e : Env) (c : Central) : message :=
  let cp_row (kv : string * CP) :=
    [SStr kv.1; SStr (state kv.2); SNum (location kv.2).1; SNum (location kv.2).2;
     SNum (price_per_kwh kv.2); SStr (default "" (current_driver kv.2));
     SNum (kwh_delivered kv.2); SNum (amount_euro kv.2); SNum (kwh_needed kv.2)] in
  let driver_row (kv : string * Driver) :=
    [SStr kv.1; SStr (status kv.2); SStr (default "" (current_cp kv.2))] in
  build_message "FULL_STATE"
    [VRows (map cp_row (map_to_list (charging_points c)));
     VRows (map driver_row (map_to_list (drivers c)));
     VRows (storage_get_recent_history e)].

(** [_verify_cp_credentials]: the registry is asked; any answer but 200, or
    no answer, is a refusal. *)
Definition _verify_cp_credentials (e : Env) (cp_id : string)
    (user password : option string) (c : Central) : bool * Central :=
  match registry e with
  | None => (false, c)
  | Some reg =>
      if bool_decide (Registry.verify_cp hash_password reg cp_id user password ≠ 200%Z)
      then (false, c)
      else (true, set_cp_credentials (<[cp_id := (user, password)]> (cp_credentials c)) c)
  end.

(** [float(fields[i]) if len(fields) > i else d]; [None]: ValueError. *)
Definition float_field_or (fields : list string) (i : nat) (d : float) : option float :=
  match field fields i with
  | Some s => py_float s
  | None => Some d
  end.

(** The record written by the registration of a charging point: session
    fields are kept from the previous record when there is one. *)
Definition registered_cp (old : option CP) (lat lon price : float) : CP :=
  let driver := old ≫= current_driver in
  {| state := if truthy_opt driver then SUPPLYING else ACTIVATED;
     location := (lat, lon);
     price_per_kwh := price;
     current_driver := driver;
     kwh_delivered := or_zero (from_option kwh_delivered 0%float old);
     amount_euro := or_zero (from_option amount_euro 0%float old);
     session_start := old ≫= session_start;
     charging_complete := from_option charging_complete false old;
     kwh_needed := or_zero (from_option kwh_needed 0%float old) |}.

Definition bind_socket (entity_id kind : string) (sock : socket) (c : Central)
    : Central :=
  set_socket_to_type (<[sock := kind]> (socket_to_type c))
    (set_socket_to_entity (<[sock := entity_id]> (socket_to_entity c))
       (set_entity_to_socket (<[entity_id := sock]> (entity_to_socket c)) c)).

Definition register_cp (e : Env) (fields : list string) (entity_id : string)
    (client_socket : socket) (client_id : string) (c : Central) : result :=
  let user := field fields 6 in
  let password := field fields 7 in
  let '(ok, c0) := _verify_cp_credentials e entity_id user password c in
  if negb ok then
    returned c0
      [Send client_socket
         (build_message MessageTypes.DENY [VStr entity_id; VStr "AUTH_FAILED"])]
  else
    match password with
    | None => raised "AttributeError" c0 [Audit_log_auth client_id entity_id]
    | Some secret =>
        let symmetric_key := generate_key secret in
        let c1 := bind_socket entity_id "CP" client_socket
                    (set_cp_encryption_keys
                       (<[entity_id := symmetric_key]> (cp_encryption_keys c0)) c0) in
        let '(lat, lon, price) :=
          match storage_get_cp e entity_id with
          | Some stored => (latitude stored, longitude stored, stored_price stored)
          | None =>
              let '(lat, lon) :=
                match float_field_or fields 3 40.5%float,
                      float_field_or fields 4 (-3.1)%float with
                | Some lat, Some lon => (lat, lon)
                | _, _ => (40.5%float, (-3.1)%float)
                end in
              (lat, lon, default 0.30%float (float_field_or fields 5 0.30%float))
          end in
        let cp := registered_cp (charging_points c1 !! entity_id) lat lon price in
        let c2 := update_cp entity_id cp c1 in
        let '(c3, log_evs) :=
          add_log e "EV_Central" [Lit "CP "; Lit entity_id; Lit " connected"] c2 in
        returned c3
          ([Audit_log_auth client_id entity_id;
            Storage_save_cp entity_id lat lon price (state cp);
            Send client_socket
              (build_message MessageTypes.ACKNOWLEDGE
                 [VStr entity_id; VStr "OK"; VKey symmetric_key; VNum lat; VNum lon])]
           ++ log_evs
           ++ _broadcast_to_ui_protocol c3 (full_state e c3))
    end.

Definition _handle_register (e : Env) (fields : list string)
    (client_socket : socket) (client_id : string) (c : Central) : result :=
  match fields with
  | _ :: entity_type :: entity_id :: _ =>
      if bool_decide (entity_type = "MONITOR") && bool_decide (entity_id = "WEB_UI")
      then
        let c1 := set_socket_to_type (<[client_socket := "MONITOR"]> (socket_to_type c))
                    (set_socket_to_entity
                       (<[client_socket := "WEB_UI"]> (socket_to_entity c))
                       (set_monitors (<["WEB_UI" := client_socket]> (monitors c)) c)) in
        returned c1
          [Send client_socket
             (build_message MessageTypes.ACKNOWLEDGE [VStr "WEB_UI"; VStr "OK"]);
           Send client_socket (full_state e c1)]
      else if bool_decide (entity_type = "DRIVER") then
        let c1 := bind_socket entity_id "DRIVER" client_socket
                    (set_drivers (<[entity_id := idle_driver]> (drivers c)) c) in
        let '(c2, log_evs) :=
          add_log e "EV_Central" [Lit "Driver "; Lit entity_id; Lit " registered"] c1 in
        returned c2
          ([Storage_save_driver entity_id "IDLE"] ++ log_evs
           ++ [Send client_socket
                 (build_message MessageTypes.ACKNOWLEDGE [VStr entity_id; VStr "OK"])])
      else if bool_decide (entity_type = "CP") then
        register_cp e fields entity_id client_socket client_id c
      else returned c []
  | _ => returned c []
  end.

(** The record left by [_cleanup_socket] when no session is running. *)
Definition disconnected_cp (cp : CP) : CP :=
  {| state := DISCONNECTED; location := location cp;
     price_per_kwh := price_per_kwh cp;
     current_driver := None; kwh_delivered := kwh_delivered cp;
     amount_euro := amount_euro cp; session_start := session_start cp;
     charging_complete := false; kwh_needed := kwh_needed cp |}.

(** The two [pop]s and the two [del]s at the head of [_cleanup_socket]. *)
Definition unbind_socket (client_socket : socket) (c : Central) : Central :=
  let ent := socket_to_entity c !! client_socket in
  let typ := socket_to_type c !! client_socket in
  let c1 := set_socket_to_type (delete client_socket (socket_to_type c))
              (set_socket_to_entity (delete client_socket (socket_to_entity c)) c) in
  let c2 := match ent with
            | Some en =>
                if truthy en
                   && bool_decide (entity_to_socket c1 !! en = Some client_socket)
                then set_entity_to_socket (delete en (entity_to_socket c1)) c1
                else c1
            | None => c1
            end in
  if bool_decide (typ = Some "MONITOR") then
    match ent with
    | Some en =>
        if bool_decide (monitors c2 !! en = Some client_socket)
        then set_monitors (delete en (monitors c2)) c2
        else c2
    | None => c2
    end
  else c2.

Definition _cleanup_socket (client_socket : socket) (client_id : string)
    (c : Central) : result :=
  let ent := socket_to_entity c !! client_socket in
  let typ := socket_to_type c !! client_socket in
  let c3 := unbind_socket client_socket c in
  let forget (c' : Central) :=
    set_active_connections (delete client_id (active_connections c')) c' in
  if bool_decide (typ = Some "CP") && truthy_opt ent then
    let en := default "" ent in
    match charging_points c3 !! en with
    | Some cp =>
        if bool_decide (state cp = SUPPLYING)
        then returned c3 [Close client_socket]
        else
          let c4 := update_cp en (disconnected_cp cp) c3 in
          returned (forget c4)
            (Close client_socket
             :: _broadcast_to_ui_protocol c4
                  (build_message "CP_STATE" [VStr en; VJsonState DISCONNECTED]))
    | None => returned (forget c3) [Close client_socket]
    end
  else returned (forget c3) [Close client_socket].

(** [add_log] called inside [with self.lock]: it acquires [self.lock] again,
    and the lock is a plain [threading.Lock].  The thread waits for ever and
    never leaves the [with] block, so the lock is never released: the result
    is [Blocked] on the state written so far, and [_handle_client_guarded]
    below carries the held lock into every later turn. *)
Definition add_log_holding_lock (c : Central) (evs : list event) : result :=
  blocked c evs.

Definition _handle_weather_alert (fields : list string) (c : Central) : result :=
  match fields with
  | _ :: cp_id :: alert :: _ =>
      match charging_points c !! cp_id with
      | None => returned c []
      | Some cp =>
          if bool_decide (alert = "ALERT_COLD") then
            add_log_holding_lock (update_cp cp_id (set_state OUT_OF_ORDER cp) c) []
          else if bool_decide (alert = "WEATHER_OK")
                  && bool_decide (state cp ≠ SUPPLYING) then
            add_log_holding_lock (update_cp cp_id (set_state ACTIVATED cp) c) []
          else
            returned c
              (_broadcast_to_ui_protocol c
                 (build_message "CP_STATE" [VStr cp_id; VStr (state cp)]))
      end
  | _ => returned c []
  end.

(** The REST endpoint [/api/weather_alert] on the JSON body
    [{"cp_id": cp_id, "alert": alert, "temperature": temp}]. *)
Definition api_weather_alert (e : Env) (cp_id alert temp : option string)
    (c : Central) : result :=
  if negb (truthy_opt cp_id) || negb (truthy_opt alert) then
    returned c [Http_reply 400 "cp_id and alert required"]
  else
    let cp_id := default "" cp_id in
    let alert := default "" alert in
    let '(c1, log_evs) :=
      add_log e "EV_Weather"
        [Lit cp_id; Lit ": "; Lit alert; Lit " ("; Lit (default "None" temp); Lit "C)"]
        c in
    match charging_points c1 !! cp_id with
    | None => returned c1 (log_evs ++ [Http_reply 200 "received (cp unknown)"])
    | Some cp =>
        if bool_decide (alert = "ALERT_COLD") then
          let c2 := update_cp cp_id (set_state OUT_OF_ORDER cp) c1 in
          add_log_holding_lock c2
            (log_evs ++ _broadcast_to_ui c2 "CP_STATE" cp_id OUT_OF_ORDER)
        else if bool_decide (alert = "WEATHER_OK")
                && bool_decide (state cp ≠ SUPPLYING) then
          let c2 := update_cp cp_id (set_state ACTIVATED cp) c1 in
          add_log_holding_lock c2
            (log_evs ++ _broadcast_to_ui c2 "CP_STATE" cp_id ACTIVATED)
        else returned c1 (log_evs ++ [Http_reply 200 "received"])
    end.

Definition _process_fields (e : Env) (fields : list string)
    (client_socket : socket) (client_id : string) (c : Central) : result :=
  match fields with
  | [] => raised "IndexError" c []
  | t :: _ =>
      if bool_decide (t = MessageTypes.REGISTER) then
        _handle_register e fields client_socket client_id c
      else if bool_decide (t = MessageTypes.HEARTBEAT) then
        _handle_heartbeat fields c
      else if bool_decide (t = MessageTypes.REQUEST_CHARGE) then
        _handle_charge_request e fields client_socket client_id c
      else if bool_decide (t = MessageTypes.QUERY_AVAILABLE_CPS) then
        _handle_query_available_cps fields client_socket c
      else if bool_decide (t = MessageTypes.SUPPLY_UPDATE) then
        _handle_supply_update e fields c
      else if bool_decide (t = MessageTypes.SUPPLY_END) then
        _handle_supply_end e fields client_socket client_id c
      else if bool_decide (t = MessageTypes.END_CHARGE) then
        _handle_end_charge e fields client_socket client_id c
      else if bool_decide (t = "FINISH_CHARGE") then
        match fields with
        | _ :: f1 :: f2 :: _ =>
            _handle_end_charge e ["END_CHARGE"; f1; f2] client_socket client_id c
        | _ => raised "IndexError" c []
        end
      else if bool_decide (t = MessageTypes.FAULT) then
        _handle_fault e fields client_id c
      else if bool_decide (t = MessageTypes.RECOVERY) then
        _handle_recovery e fields c
      else if bool_decide (t = "LOG") then
        let src := default "UNKNOWN" (field fields 1) in
        let txt := default "" (field fields 2) in
        let '(c', evs) := add_log e src [Lit txt] c in
        returned c' evs
      else if bool_decide (t = "WEATHER_ALERT") then
        _handle_weather_alert fields c
      else returned c []
  end.

(** One turn of the inner loop of [_handle_client] on a parsed message: an
    exception of the handler is caught and the loop goes on. *)
Definition _handle_client (e : Env) (fields : list string)
    (client_socket : socket) (client_id : string) (c : Central) : result :=
  let r := _process_fields e fields client_socket client_id c in
  match how r with
  | Raised _ => {| st := st r; effects := effects r; how := Returned |}
  | _ => r
  end.

End Handlers.

(** *** Administrative paths *)

(** [force_stop_charge]: asks the charging point to stop and finalizes with
    the totals accumulated so far. *)
Definition force_stop_charge (e : Env) (cp_id : string) (c : Central) : result :=
  match charging_points c !! cp_id with
  | None => returned c []
  | Some cp =>
      if bool_decide (state cp ≠ SUPPLYING) then returned c []
      else
        let driver_id := default "" (current_driver cp) in
        let total_kwh := or_zero (kwh_delivered cp) in
        let total_amount := or_zero (amount_euro cp) in
        let '(c1, log_evs) :=
          add_log e "EV_Central" [Lit "Force stop requested for "; Lit cp_id] c in
        and_then
          (returned c1
             (log_evs
              ++ _send_to_cp c1 cp_id
                   (build_message MessageTypes.END_SUPPLY [VStr cp_id])))
          (_finalize_charge e cp_id driver_id total_kwh total_amount "EV_Central")
  end.

(** *** The lock

    The handlers above describe a turn that finds [self.lock] free.  A thread
    that ended [Blocked] holds it for ever, and from then on every thread
    that comes to a [with self.lock] waits for ever too. *)

(** The central together with the state of [self.lock]: [lock_stuck] when a
    blocked thread holds it. *)
Record Guarded := { central : Central; lock_stuck : bool }.

Section Lock.

Context (py_float : string → option float)
        (py_round : float → Z → float)
        (hash_password : string → string).

(** Whether handling the message comes to acquire [self.lock], in a
    [with self.lock] of its handler or in [add_log], [_verify_cp_credentials]
    or [_finalize_charge]: every path does but the early returns on a short
    message or an unknown type, the exceptions raised before the lock, and
    the refusal of a charging point by the registry.  Nothing is sent or
    written on the way to the first acquisition. *)
Definition acquires_lock (e : Env) (fields : list string) (c : Central) : bool :=
  let parses (i : nat) := bool_decide (is_Some (field fields i ≫= py_float)) in
  match fields with
  | [] => false
  | t :: _ =>
      if bool_decide (t = MessageTypes.REGISTER) then
        match fields with
        | _ :: entity_type :: entity_id :: _ =>
            if bool_decide (entity_type = "MONITOR") && bool_decide (entity_id = "WEB_UI")
            then true
            else if bool_decide (entity_type = "DRIVER") then true
            else if bool_decide (entity_type = "CP") then
              (_verify_cp_credentials hash_password e entity_id
                 (field fields 6) (field fields 7) c).1
            else false
        | _ => false
        end
      else if bool_decide (t = MessageTypes.HEARTBEAT) then (3 <=? length fields)%nat
      else if bool_decide (t = MessageTypes.REQUEST_CHARGE) then
        if (length fields <? 4)%nat then true else parses 3%nat
      else if bool_decide (t = MessageTypes.QUERY_AVAILABLE_CPS) then
        (2 <=? length fields)%nat
      else if bool_decide (t = MessageTypes.SUPPLY_UPDATE) then
        if (length fields <? 4)%nat then true else parses 2%nat && parses 3%nat
      else if bool_decide (t = MessageTypes.SUPPLY_END) then
        (5 <=? length fields)%nat && parses 3%nat && parses 4%nat
      else if bool_decide (t = MessageTypes.END_CHARGE) then (3 <=? length fields)%nat
      else if bool_decide (t = "FINISH_CHARGE") then (3 <=? length fields)%nat
      else if bool_decide (t = MessageTypes.FAULT) then (2 <=? length fields)%nat
      else if bool_decide (t = MessageTypes.RECOVERY) then (2 <=? length fields)%nat
      else if bool_decide (t = "LOG") then true
      else if bool_decide (t = "WEATHER_ALERT") then (3 <=? length fields)%nat
      else false
  end.

(** One turn of the inner loop of [_handle_client] with the lock tracked:
    when the lock is stuck and the message comes to acquire it, the thread
    waits for ever before it has sent or written anything. *)
Definition _handle_client_guarded (e : Env) (fields : list string)
    (client_socket : socket) (client_id : string) (s : Guarded)
    : Guarded * result :=
  if lock_stuck s && acquires_lock e fields (central s)
  then (s, blocked (central s) [])
  else
    let r := _handle_client py_float py_round hash_password
               e fields client_socket client_id (central s) in
    ({| central := st r;
        lock_stuck :=
          lock_stuck s || match how r with Blocked => true | _ => false end |},
     r).

(** [_cleanup_socket] with the lock tracked: the socket is closed before the
    lock is asked for. *)
Definition _cleanup_socket_guarded (client_socket : socket) (client_id : string)
    (s : Guarded) : Guarded * result :=
  if lock_stuck s then (s, blocked (central s) [Close client_socket])
  else
    let r := _cleanup_socket client_socket client_id (central s) in
    ({| central := st r; lock_stuck := false |}, r).

End Lock.

(** A dictionary returned by [storage.get_all_cps()]; [None]: the key is
    missing. *)
Record stored_row := {
  row_cp_id : option string;
  row_state : option string;
  row_latitude : option float;
  row_longitude : option float;
  row_price : option float;
}.

(** [float(cp.get("price_per_kwh", 0.30) or 0.30)]. *)
Definition price_or_default (o : option float) : float :=
  match o with
  | Some x => if PrimFloat.eqb x 0%float then 0.30%float else x
  | None => 0.30%float
  end.

(** The record [_load_stored_cps] builds from a stored dictionary. *)
Definition loaded_cp (row : stored_row) : CP :=
  {| state := default DISCONNECTED (row_state row);
     location := (default 0%float (row_latitude row),
                  default 0%float (row_longitude row));
     price_per_kwh := price_or_default (row_price row);
     current_driver := None; kwh_delivered := 0%float;
     amount_euro := 0%float; session_start := None;
     charging_complete := false; kwh_needed := 0%float |}.

(** The loop of [_load_stored_cps] over the stored dictionaries. *)
Definition _load_stored_cps (stored : list stored_row) (c : Central) : Central :=
  foldl (λ c' row,
           if truthy_opt (row_cp_id row)
           then update_cp (default "" (row_cp_id row)) (loaded_cp row) c'
           else c')
        c stored.

End EVCentral.

(** ** The charging-point engine ([ev_cp_engine.py], both copies) *)

Module EVCPEngine.

Import CP_STATES.

(** The dictionary [self.current_session]. *)
Record session := { start : Z; kwh_needed : float; kwh_delivered : float }.

Record Engine := {
  cp_id : string;
  price_per_kwh : float;
  state : string;
  current_driver : option string;
  current_session : option session;
  charging_complete : bool;
  connected : bool;
}.

Record result := { st : Engine; effects : list event; how : outcome }.

Section Handlers.

Context (py_float : string → option float).

(** The engine after an accepted AUTHORIZE. *)
Definition start_supply (now : Z) (driver_id : string) (kwh : float) (g : Engine)
    : Engine :=
  {| cp_id := cp_id g; price_per_kwh := price_per_kwh g;
     state := SUPPLYING;
     current_driver := Some driver_id;
     current_session := Some {| start := now; kwh_needed := kwh; kwh_delivered := 0%float |};
     charging_complete := false;
     connected := connected g |}.

Definition _handle_authorize (now : Z) (fields : list string) (g : Engine) : result :=
  match field fields 1 with
  | None => {| st := g; effects := []; how := Raised "IndexError" |}
  | Some driver_id =>
      match field fields 3 with
      | None => {| st := g; effects := []; how := Raised "IndexError" |}
      | Some kwh_str =>
          match py_float kwh_str with
          | None => {| st := g; effects := []; how := Raised "ValueError" |}
          | Some kwh =>
              if bool_decide (state g ≠ ACTIVATED)
              then {| st := g; effects := []; how := Returned |}
              else
                {| st := start_supply now driver_id kwh g;
                   effects := [Audit_log_charge "CP" (cp_id g) driver_id "CHARGE_START"
                                 (Some kwh) None];
                   how := Returned |}
          end
      end
  end.

End Handlers.

(** *** The other handlers of the engine *)

(** The engine with its connection: the key received at registration and the
    socket, which [connect_to_central] and [_close_central_socket] set and
    clear together with [connected]. *)
Record Peer := {
  core : Engine;
  symmetric_key : option key;
  central_socket : option socket;
}.

(** Arguments of the messages the engine builds; [PFmt x n] is the f-string
    field of [x] with [n] decimals, kept as the number and the precision: the
    text that the format produces is not modelled. *)
Inductive peer_arg :=
| PStr (s : string)
| POpt (o : option string)
| PFmt (x : float) (decimals : Z).

(** [self.central_socket.send(Protocol.encode(self._encrypt(msg)))]: the
    message is encrypted when a key is on file. *)
Inductive peer_event :=
| PeerSend (to : socket) (k : option key) (tag : string) (args : list peer_arg)
| PeerClose (sock : socket)
| PeerLog (ev : event).

Record peer_result := { peer_st : Peer; peer_effects : list peer_event }.

(** [min(a, b)]. *)
Definition py_min (a b : float) : float := if PrimFloat.ltb b a then b else a.

(** The four assignments that end a session. *)
Definition end_session (g : Engine) : Engine :=
  {| cp_id := cp_id g; price_per_kwh := price_per_kwh g;
     state := ACTIVATED; current_driver := None; current_session := None;
     charging_complete := false; connected := connected g |}.

Definition set_core (g : Engine) (p : Peer) : Peer :=
  {| core := g; symmetric_key := symmetric_key p;
     central_socket := central_socket p |}.

(** A send under [if self.central_socket and self.connected]. *)
Definition send_if_connected (p : Peer) (tag : string) (args : list peer_arg)
    : list peer_event :=
  match central_socket p with
  | Some sock =>
      if connected (core p) then [PeerSend sock (symmetric_key p) tag args] else []
  | None => []
  end.

Definition _handle_stop_supply (g : Engine) : Engine :=
  if bool_decide (state g = SUPPLYING) then
    {| cp_id := cp_id g; price_per_kwh := price_per_kwh g;
       state := state g; current_driver := current_driver g;
       current_session := current_session g;
       charging_complete := true; connected := connected g |}
  else
    {| cp_id := cp_id g; price_per_kwh := price_per_kwh g;
       state := OUT_OF_ORDER; current_driver := current_driver g;
       current_session := current_session g;
       charging_complete := charging_complete g; connected := connected g |}.

Definition _handle_resume_supply (g : Engine) : Engine :=
  {| cp_id := cp_id g; price_per_kwh := price_per_kwh g;
     state := if bool_decide (state g ≠ SUPPLYING) then ACTIVATED else state g;
     current_driver := current_driver g;
     current_session := current_session g;
     charging_complete := false; connected := connected g |}.

Section Session.

(** [round(x, ndigits)] and [config.SUPPLY_UPDATE_INTERVAL], which is not
    under src/. *)
Context (py_round : float → Z → float)
        (SUPPLY_UPDATE_INTERVAL : float).

(** The energy reported by [_handle_end_supply]: the share of the energy
    needed that 14 seconds would deliver, capped by the energy needed. *)
Definition end_supply_kwh (now : Z) (s : session) : float :=
  py_min (kwh_needed s)
    (PrimFloat.mul (PrimFloat.div (float_of_Z (now - start s)) 14%float)
       (kwh_needed s)).

Definition _handle_end_supply (now : Z) (p : Peer) : peer_result :=
  let g := core p in
  match current_session g with
  | None => {| peer_st := p; peer_effects := [] |}
  | Some s =>
      let total_kwh := end_supply_kwh now s in
      let total_amount := py_round (PrimFloat.mul total_kwh (price_per_kwh g)) 2 in
      {| peer_st := set_core (end_session g) p;
         peer_effects :=
           send_if_connected p MessageTypes.SUPPLY_END
             [PStr (cp_id g); POpt (current_driver g);
              PFmt total_kwh 3; PFmt total_amount 2] |}
  end.

(** The increment of one pass of [_status_loop]. *)
Definition tick_increment (s : session) : float :=
  let needed := kwh_needed s in
  let remaining0 := PrimFloat.sub needed (kwh_delivered s) in
  let remaining := if PrimFloat.leb remaining0 0%float then 0%float else remaining0 in
  let kwh_inc :=
    PrimFloat.mul (PrimFloat.div needed 15%float) SUPPLY_UPDATE_INTERVAL in
  if PrimFloat.ltb remaining kwh_inc then remaining else kwh_inc.

(** Whether the pass ends the session:
    [s["kwh_delivered"] >= kwh_needed - 1e-9] after the increment. *)
Definition tick_finishes (s : session) : bool :=
  fge (PrimFloat.add (kwh_delivered s) (tick_increment s))
      (PrimFloat.sub (kwh_needed s) 1e-9%float).

(** One pass of [_status_loop] after the sleep ([src/charging_point]). *)
Definition _status_loop (p : Peer) : peer_result :=
  let g := core p in
  match central_socket p with
  | None => {| peer_st := p; peer_effects := [] |}
  | Some sock =>
      if negb (connected g) then {| peer_st := p; peer_effects := [] |}
      else
        let hb := PeerSend sock (symmetric_key p) "HEARTBEAT"
                    [PStr (cp_id g); PStr (state g)] in
        match current_session g with
        | Some s =>
            if bool_decide (state g = SUPPLYING) then
              let kwh_inc := tick_increment s in
              let s' := {| start := start s; kwh_needed := kwh_needed s;
                           kwh_delivered := PrimFloat.add (kwh_delivered s) kwh_inc |} in
              let amount_inc := py_round (PrimFloat.mul kwh_inc (price_per_kwh g)) 2 in
              let upd := PeerSend sock (symmetric_key p) MessageTypes.SUPPLY_UPDATE
                           [PStr (cp_id g); PFmt kwh_inc 6; PFmt amount_inc 2] in
              if tick_finishes s then
                let total_amount :=
                  py_round (PrimFloat.mul (kwh_needed s) (price_per_kwh g)) 2 in
                {| peer_st := set_core (end_session g) p;
                   peer_effects :=
                     [hb; upd;
                      PeerSend sock (symmetric_key p) MessageTypes.SUPPLY_END
                        [PStr (cp_id g); POpt (current_driver g);
                         PFmt (kwh_needed s) 3; PFmt total_amount 2]] |}
              else
                {| peer_st :=
                     set_core
                       {| cp_id := cp_id g; price_per_kwh := price_per_kwh g;
                          state := state g; current_driver := current_driver g;
                          current_session := Some s';
                          charging_complete := charging_complete g;
                          connected := connected g |} p;
                   peer_effects := [hb; upd] |}
            else {| peer_st := p; peer_effects := [hb] |}
        | None => {| peer_st := p; peer_effects := [hb] |}
        end
  end.

End Session.

(** *** Messages from the central *)

(** [_close_central_socket]: the socket is closed and forgotten. *)
Definition _close_central_socket (p : Peer) : peer_result :=
  let g := core p in
  {| peer_st :=
       {| core := {| cp_id := cp_id g; price_per_kwh := price_per_kwh g;
                     state := state g; current_driver := current_driver g;
                     current_session := current_session g;
                     charging_complete := charging_complete g;
                     connected := false |};
          symmetric_key := symmetric_key p;
          central_socket := None |};
     peer_effects := from_option (λ sock, [PeerClose sock]) [] (central_socket p) |}.

Section Listen.

Context (py_float : string → option float)
        (py_round : float → Z → float).

(** The body of the inner loop of [_listen_central_loop] for one message,
    from the fields that [_decrypt_if_needed] returned to the end of the
    dispatch; an exception of a handler is caught by the loop, which closes
    the socket. *)
Definition _listen_central_loop (now : Z) (fields : list string) (p : Peer)
    : peer_result :=
  match fields with
  | [] => {| peer_st := p; peer_effects := [] |}
  | tag :: _ =>
      if bool_decide (tag = MessageTypes.AUTHORIZE) then
        let r := _handle_authorize py_float now fields (core p) in
        match how r with
        | Returned =>
            {| peer_st := set_core (st r) p; peer_effects := PeerLog <$> effects r |}
        | _ =>
            let closed := _close_central_socket (set_core (st r) p) in
            {| peer_st := peer_st closed;
               peer_effects := (PeerLog <$> effects r) ++ peer_effects closed |}
        end
      else if bool_decide (tag = MessageTypes.END_SUPPLY) then
        _handle_end_supply py_round now p
      else if bool_decide (tag = "STOP_SUPPLY") then
        {| peer_st := set_core (_handle_stop_supply (core p)) p; peer_effects := [] |}
      else if bool_decide (tag = "RESUME_SUPPLY") then
        {| peer_st := set_core (_handle_resume_supply (core p)) p; peer_effects := [] |}
      else {| peer_st := p; peer_effects := [] |}
  end.

End Listen.

End EVCPEngine.

(** ** What the properties observe *)

Section Observations.

Import CP_STATES EVCentral.

Context (py_float : string → option float)
        (py_round : float → Z → float).

(** The amounts passed to [storage.update_driver_stats], in order. *)
Definition billed (evs : list event) : list (string * float) :=
  omap (λ ev, match ev with
              | Storage_update_driver_stats d a => Some (d, a)
              | _ => None
              end) evs.

(** The TICKET messages sent: the socket and the arguments. *)
Definition tickets (evs : list event) : list (socket * list pyval) :=
  omap (λ ev, match ev with
              | Send to m =>
                  if bool_decide (msg_type m = MessageTypes.TICKET)
                  then Some (to, msg_args m) else None
              | _ => None
              end) evs.

(** The type tags of the messages sent, in order. *)
Definition sent_types (evs : list event) : list string :=
  omap (λ ev, match ev with
              | Send _ m | SendEncrypted _ _ m => Some (msg_type m)
              | _ => None
              end) evs.

(** The session fields of a record are empty. *)
Definition session_cleared (cp : CP) : Prop :=
  state cp = ACTIVATED ∧ current_driver cp = None ∧ session_start cp = None
  ∧ kwh_needed cp = 0%float ∧ kwh_delivered cp = 0%float
  ∧ amount_euro cp = 0%float.

(** Every field but the lifecycle state agrees. *)
Definition same_but_state (cp cp' : CP) : Prop :=
  cp' = set_state (state cp') cp.

(** The number of fields the handler of a message reads: one more than the
    largest field index it accesses (for the REGISTER of a charging point the
    credentials are fields 6 and 7). *)
Definition fields_read (fields : list string) : nat :=
  match fields with
  | [] => 1
  | t :: _ =>
      if bool_decide (t = MessageTypes.REGISTER) then
        if bool_decide (field fields 1 = Some "CP") then 8 else 3
      else if bool_decide (t = MessageTypes.HEARTBEAT) then 3
      else if bool_decide (t = MessageTypes.REQUEST_CHARGE) then 4
      else if bool_decide (t = MessageTypes.QUERY_AVAILABLE_CPS) then 2
      else if bool_decide (t = MessageTypes.SUPPLY_UPDATE) then 4
      else if bool_decide (t = MessageTypes.SUPPLY_END) then 5
      else if bool_decide (t = MessageTypes.END_CHARGE) then 3
      else if bool_decide (t = "FINISH_CHARGE") then 3
      else if bool_decide (t = MessageTypes.FAULT) then 2
      else if bool_decide (t = MessageTypes.RECOVERY) then 2
      else if bool_decide (t = "LOG") then 3
      else if bool_decide (t = "WEATHER_ALERT") then 3
      else 1
  end.

(** The parts of the central that a rejected message must leave alone:
    charging-point records, driver records and connection bindings. *)
Definition same_records_and_bindings (c c' : Central) : Prop :=
  charging_points c' = charging_points c
  ∧ drivers c' = drivers c
  ∧ active_connections c' = active_connections c
  ∧ entity_to_socket c' = entity_to_socket c
  ∧ socket_to_entity c' = socket_to_entity c
  ∧ socket_to_type c' = socket_to_type c
  ∧ monitors c' = monitors c.

(** A SUPPLY_UPDATE for [cp_id] that passes the length check and whose two
    numbers parse; [inc] is the reported energy increment. *)
Definition accepted_update (cp_id : string) (fields : list string) (inc : float)
    : Prop :=
  ∃ tag inc_s amount_s rest amount,
    fields = tag :: cp_id :: inc_s :: amount_s :: rest
    ∧ py_float inc_s = Some inc ∧ py_float amount_s = Some amount.

(** The stored energy of [cp_id] before the first message and after each
    message of the sequence. *)
Fixpoint energy_trace (cp_id : string) (msgs : list (Env * list string))
    (c : Central) : list float :=
  from_option (λ cp, [kwh_delivered cp]) [] (charging_points c !! cp_id)
  ++ match msgs with
     | [] => []
     | (e, fields) :: rest =>
         energy_trace cp_id rest
           (st (_handle_supply_update py_float py_round e fields c))
     end.

Fixpoint non_decreasing (l : list float) : Prop :=
  match l with
  | [] => True
  | a :: t =>
      match t with
      | b :: _ => fge b a = true
      | [] => True
      end ∧ non_decreasing t
  end.

End Observations.

(** The mantissa [m] is in canonical form at the exponent [e] (binary64). *)
Definition canonical (m : positive) (e : Z) : Prop :=
  fexp prec emax (Z.pos (digits2_pos m) + e)%Z = e.

(** [x or 0.0] on the specification side of the floats. *)
Definition SF_or_zero (x : spec_float) : spec_float :=
  if SFeqb x (S754_zero false) then S754_zero false else x.

(** Concrete states for the examples. *)
Definition sample_cp (s : string) (driver : option string) (kwh amount : float)
    : EVCentral.CP :=
  {| EVCentral.state := s;
     EVCentral.location := (40.5%float, (-3.1)%float);
     EVCentral.price_per_kwh := 0.5%float;
     EVCentral.current_driver := driver;
     EVCentral.kwh_delivered := kwh;
     EVCentral.amount_euro := amount;
     EVCentral.session_start := (λ _, 1000%Z) <$> driver;
     EVCentral.charging_complete := false;
     EVCentral.kwh_needed := if driver is Some _ then 20%float else 0%float |}.

Definition sample_central (cp_id : string) (cp : EVCentral.CP) : EVCentral.Central :=
  {| EVCentral.charging_points := {[cp_id := cp]};
     EVCentral.drivers :=
       {["D-1" := {| EVCentral.status :=
                       if EVCentral.current_driver cp is Some _
                       then "CHARGING" else "IDLE";
                     EVCentral.current_cp :=
                       (λ _, cp_id) <$> EVCentral.current_driver cp |}]};
     EVCentral.logs := [];
     EVCentral.active_connections :=
       {["10.0.0.1:5001" := 1%nat; "10.0.0.2:5002" := 2%nat]};
     EVCentral.entity_to_socket := {[cp_id := 1%nat; "D-1" := 2%nat]};
     EVCentral.socket_to_entity := {[1%nat := cp_id; 2%nat := "D-1"]};
     EVCentral.socket_to_type := {[1%nat := "CP"; 2%nat := "DRIVER"]};
     EVCentral.monitors := ∅;
     EVCentral.cp_encryption_keys := {[cp_id := generate_key "secret"]};
     EVCentral.cp_credentials := {[cp_id := (Some "cp_user", Some "secret")]} |}.

Definition sample_env : EVCentral.Env :=
  {| EVCentral.now := 1060%Z; EVCentral.registry := Some ∅;
     EVCentral.storage_get_cp := λ _, None;
     EVCentral.storage_get_recent_history := [] |}.

(** Two metering updates of 5 kWh each. *)
Definition two_updates : list (EVCentral.Env * list string) :=
  [(sample_env, ["SUPPLY_UPDATE"; "CP-1"; "5"; "3"]);
   (sample_env, ["SUPPLY_UPDATE"; "CP-1"; "5"; "5"])].

Definition sample_engine (s : string) : EVCPEngine.Engine :=
  {| EVCPEngine.cp_id := "CP-1"; EVCPEngine.price_per_kwh := 0.5%float;
     EVCPEngine.state := s; EVCPEngine.current_driver := None;
     EVCPEngine.current_session := None;
     EVCPEngine.charging_complete := false; EVCPEngine.connected := true |}.

(** A registry that knows CP-1, and an environment that reaches it. *)
Definition sample_registry : gmap string Registry.entry :=
  {["CP-1" := {| Registry.username := Some "cp_user";
                 Registry.password_hash := Some (hash_tag "secret") |}]}.

Definition sample_registry_env : EVCentral.Env :=
  {| EVCentral.now := 1060%Z; EVCentral.registry := Some sample_registry;
     EVCentral.storage_get_cp := λ _, None;
     EVCentral.storage_get_recent_history := [] |}.

(** A central in which CP-1 has registered again on socket 5 while its old
    socket 1 is still open. *)
Definition sample_central_reconnected (cp : EVCentral.CP) : EVCentral.Central :=
  EVCentral.set_entity_to_socket
    (<["CP-1" := 5%nat]> (EVCentral.entity_to_socket (sample_central "CP-1" cp)))
    (sample_central "CP-1" cp).

(** An engine in the middle of a session of 20 kWh, and a connected peer. *)
Definition sample_supplying_engine : EVCPEngine.Engine :=
  EVCPEngine.start_supply 1000%Z "D-1" 20%float (sample_engine CP_STATES.ACTIVATED).

Definition sample_peer (g : EVCPEngine.Engine) : EVCPEngine.Peer :=
  {| EVCPEngine.core := g;
     EVCPEngine.symmetric_key := Some (generate_key "secret");
     EVCPEngine.central_socket := Some 7%nat |}.

(** ** What the properties of whole runs observe *)

Section Evolution.

Import CP_STATES EVCentral.

Context (py_float : string → option float)
        (py_round : float → Z → float).

(** What one step of the central may do to its records: a charging-point
    record changes only at an id in [named], no record disappears, and, when
    [reg] is false, prices and locations stay and no driver record appears. *)
Record evolves (named : list string) (reg : bool) (c c' : Central) : Prop := {
  ev_frame : ∀ id, id ∉ named → charging_points c' !! id = charging_points c !! id;
  ev_keep : ∀ id cp, charging_points c !! id = Some cp →
            ∃ cp', charging_points c' !! id = Some cp'
                   ∧ (reg = false → price_per_kwh cp' = price_per_kwh cp
                                     ∧ location cp' = location cp);
  ev_drivers_keep : ∀ d, is_Some (drivers c !! d) → is_Some (drivers c' !! d);
  ev_drivers_new : reg = false → ∀ d, is_Some (drivers c' !! d) → is_Some (drivers c !! d);
  ev_logs : (length (logs c) ≤ 200)%nat → (length (logs c') ≤ 200)%nat;
}.

(** Whether the message is a REGISTER. *)
Definition is_register (fields : list string) : bool :=
  bool_decide (head fields = Some MessageTypes.REGISTER).

(** The condition under which [_handle_weather_alert] writes a state. *)
Definition weather_alert_takes_effect (fields : list string) (c : Central) : Prop :=
  ∃ tag cp_id alert rest cp,
    fields = tag :: cp_id :: alert :: rest
    ∧ charging_points c !! cp_id = Some cp
    ∧ (alert = "ALERT_COLD" ∨ (alert = "WEATHER_OK" ∧ state cp ≠ SUPPLYING)).

(** A sequence of SUPPLY_UPDATE messages handled in order: the final state
    and everything sent on the way. *)
Fixpoint supply_updates (msgs : list (Env * list string)) (c : Central)
    : Central * list event :=
  match msgs with
  | [] => (c, [])
  | (e, fields) :: rest =>
      let r := _handle_supply_update py_float py_round e fields c in
      let '(c', evs) := supply_updates rest (st r) in
      (c', effects r ++ evs)
  end.

(** The sockets to which a CHARGING_COMPLETE notice for [cp_id] was sent. *)
Definition completion_notices (cp_id : string) (evs : list event) : list socket :=
  omap (λ ev, match ev with
              | Send to m =>
                  match msg_args m with
                  | VStr id :: _ =>
                      if bool_decide (msg_type m = "CHARGING_COMPLETE")
                         && bool_decide (id = cp_id)
                      then Some to else None
                  | _ => None
                  end
              | _ => None
              end) evs.

(** The handler changed nothing and did not block. *)
Definition quiet (c : Central) (r : result) : Prop := st r = c ∧ how r ≠ Blocked.

(** The completion notice of the open session of [cp_id] has been sent. *)
Definition completion_recorded (cp_id : string) (c : Central) : Prop :=
  ∃ cp, charging_points c !! cp_id = Some cp ∧ charging_complete cp = true.

End Evolution.

(** The engine holds a session, and a driver, exactly while it is
    SUPPLYING. *)
Definition session_coherent (g : EVCPEngine.Engine) : Prop :=
  (EVCPEngine.state g = CP_STATES.SUPPLYING ↔ EVCPEngine.current_session g ≠ None)
  ∧ (EVCPEngine.current_driver g = None ↔ EVCPEngine.current_session g = None).

(** * Properties *)

(** ** Addition on binary64 *)

Section Binary64.
Local Open Scope Z_scope.

Lemma digits2_pos_bounds (m : positive) :
  2 ^ (Z.pos (digits2_pos m) - 1) ≤ Z.pos m < 2 ^ Z.pos (digits2_pos m).
Proof.
  induction m as [m IH|m IH|]; cbn [digits2_pos].
  - rewrite Pos2Z.inj_succ.
    replace (Z.succ (Z.pos (digits2_pos m)) - 1) with (Z.succ (Z.pos (digits2_pos m) - 1)) by lia.
    rewrite !Z.pow_succ_r by lia. lia.
  - rewrite Pos2Z.inj_succ.
    replace (Z.succ (Z.pos (digits2_pos m)) - 1) with (Z.succ (Z.pos (digits2_pos m) - 1)) by lia.
    rewrite !Z.pow_succ_r by lia. lia.
  - simpl. lia.
Qed.

(** A mantissa that is at least [b * 2^k] has at least [k] more digits. *)
Lemma digits2_pos_shift (a b : positive) (k : Z) :
  0 ≤ k → Z.pos b * 2 ^ k ≤ Z.pos a →
  Z.pos (digits2_pos b) + k ≤ Z.pos (digits2_pos a).
Proof.
  intros Hk Hle.
  destruct (digits2_pos_bounds a) as [_ Ha].
  destruct (digits2_pos_bounds b) as [Hb _].
  assert (H : 2 ^ (Z.pos (digits2_pos b) - 1 + k) < 2 ^ Z.pos (digits2_pos a)).
  { rewrite Z.pow_add_r by lia.
    eapply Z.le_lt_trans; [|exact Ha].
    etrans; [|exact Hle]. apply Z.mul_le_mono_nonneg_r; [apply Z.pow_nonneg; lia|done]. }
  apply Z.pow_lt_mono_r_iff in H; lia.
Qed.

Lemma shr_1_m (mrs : shr_record) :
  0 ≤ shr_m mrs → shr_m (shr_1 mrs) = shr_m mrs / 2.
Proof.
  destruct mrs as [m r s]. cbn [shr_m]. intros Hm.
  destruct m as [|[p|p|]|p]; cbn [shr_1 shr_m]; try lia.
  - done.
  - apply (Z.div_unique _ _ _ 1); lia.
  - apply (Z.div_unique _ _ _ 0); lia.
  - done.
Qed.

Lemma shr_iter_m (p : positive) (mrs : shr_record) :
  0 ≤ shr_m mrs →
  shr_m (SpecFloat.iter_pos shr_1 p mrs) = shr_m mrs / 2 ^ Z.pos p.
Proof.
  revert mrs. induction p as [p IH|p IH|]; intros mrs Hm; cbn [SpecFloat.iter_pos].
  - assert (H1 : 0 ≤ shr_m (shr_1 mrs)).
    { rewrite shr_1_m by done. apply Z.div_pos; lia. }
    assert (H2 : 0 ≤ shr_m (SpecFloat.iter_pos shr_1 p (shr_1 mrs))).
    { rewrite IH by done. apply Z.div_pos; [done|]. apply Z.pow_pos_nonneg; lia. }
    rewrite IH, IH, shr_1_m by done.
    rewrite !Z.div_div by (try apply Z.pow_pos_nonneg; lia).
    f_equal. rewrite (Pos2Z.inj_xI p).
    replace (2 * Z.pos p + 1) with (1 + Z.pos p + Z.pos p) by lia.
    rewrite !Z.pow_add_r by lia. lia.
  - assert (H2 : 0 ≤ shr_m (SpecFloat.iter_pos shr_1 p mrs)).
    { rewrite IH by done. apply Z.div_pos; [done|]. apply Z.pow_pos_nonneg; lia. }
    rewrite IH, IH by done.
    rewrite !Z.div_div by (try apply Z.pow_pos_nonneg; lia).
    f_equal. rewrite (Pos2Z.inj_xO p).
    replace (2 * Z.pos p) with (Z.pos p + Z.pos p) by lia.
    rewrite !Z.pow_add_r by lia. lia.
  - by apply shr_1_m.
Qed.

(** The mantissa and the exponent after [shr_fexp] on an exact positive
    mantissa. *)
Lemma shr_fexp_exact (m : positive) (e : Z) :
  let n := Z.max 0 (fexp prec emax (Z.pos (digits2_pos m) + e) - e) in
  shr_m (shr_fexp prec emax (Z.pos m) e loc_Exact).1 = Z.pos m / 2 ^ n
  ∧ (shr_fexp prec emax (Z.pos m) e loc_Exact).2 = e + n.
Proof.
  intros n. subst n. unfold shr_fexp, shr. cbn [Zdigits2 shr_record_of_loc].
  destruct (fexp prec emax (Z.pos (digits2_pos m) + e) - e) as [|p|p] eqn:Hn;
    cbn [fst snd].
  - cbn [shr_m]. rewrite Z.max_l by lia. rewrite Z.pow_0_r, Z.div_1_r. lia.
  - rewrite Z.max_r by lia. split; [|done]. by rewrite shr_iter_m.
  - cbn [shr_m]. rewrite Z.max_l by lia. rewrite Z.pow_0_r, Z.div_1_r. lia.
Qed.

Lemma round_nearest_even_ge (f : Z) (l : location) : f ≤ round_nearest_even f l.
Proof. destruct l as [|[]]; simpl; try lia. destruct (Z.even f); lia. Qed.

(** Rounding a positive value that is at least the float [(mx, ex)] gives a
    float that is at least [(mx, ex)]. *)
Lemma binary_round_aux_ge (mx : positive) (ex : Z) (M : positive) (E : Z) :
  canonical mx ex → -1074 ≤ E ≤ ex → Z.pos mx * 2 ^ (ex - E) ≤ Z.pos M →
  SFleb (S754_finite false mx ex)
        (binary_round_aux prec emax false (Z.pos M) E loc_Exact) = true.
Proof.
  intros Hcan HE Hle. unfold binary_round_aux.
  pose proof (shr_fexp_exact M E) as [Hm1 He1].
  destruct (shr_fexp prec emax (Z.pos M) E loc_Exact) as [mrs1 e1].
  cbn [fst snd] in Hm1, He1.
  pose proof (digits2_pos_shift M mx (ex - E) ltac:(lia) Hle) as Hd.
  pose proof (digits2_pos_bounds M) as [HM _].
  pose proof (round_nearest_even_ge (shr_m mrs1) (loc_of_shr_record mrs1)) as Hr.
  set (n1 := Z.max 0 (fexp prec emax (Z.pos (digits2_pos M) + E) - E)) in *.
  assert (Hn1 : ex - E ≤ n1 ≤ Z.pos (digits2_pos M) - 1).
  { unfold canonical in Hcan. subst n1. revert Hcan.
    unfold fexp, emin, prec, emax. lia. }
  assert (Hf1 : 1 ≤ shr_m mrs1).
  { rewrite Hm1. apply Z.div_le_lower_bound; [apply Z.pow_pos_nonneg; lia|].
    rewrite Z.mul_1_r. etrans; [|exact HM]. apply Z.pow_le_mono_r; lia. }
  destruct (round_nearest_even (shr_m mrs1) (loc_of_shr_record mrs1))
    as [|p1|p1] eqn:Hm; try lia.
  pose proof (shr_fexp_exact p1 e1) as [Hm2 He2].
  destruct (shr_fexp prec emax (Z.pos p1) e1 loc_Exact) as [mrs2 e2].
  cbn [fst snd] in Hm2, He2.
  pose proof (digits2_pos_bounds p1) as [Hp1 _].
  set (n2 := Z.max 0 (fexp prec emax (Z.pos (digits2_pos p1) + e1) - e1)) in *.
  assert (Hn2 : 0 ≤ n2 ≤ Z.pos (digits2_pos p1) - 1).
  { subst n2. revert He1. subst n1. unfold fexp, emin, prec, emax. lia. }
  assert (Hf2 : 1 ≤ shr_m mrs2).
  { rewrite Hm2. apply Z.div_le_lower_bound; [apply Z.pow_pos_nonneg; lia|].
    rewrite Z.mul_1_r. etrans; [|exact Hp1]. apply Z.pow_le_mono_r; lia. }
  destruct (shr_m mrs2) as [|p2|p2] eqn:Hm'; try lia.
  destruct (e2 <=? emax - prec); [|done].
  unfold SFleb, SFcompare.
  destruct (Z.compare_spec ex e2) as [Heq|Hlt|Hgt]; [|done|lia].
  assert (n2 = 0 ∧ n1 = ex - E) as [Hn20 Hn1e] by lia.
  rewrite Hn20, Z.pow_0_r, Z.div_1_r in Hm2.
  assert (Hmx : Z.pos mx ≤ shr_m mrs1).
  { rewrite Hm1, Hn1e. apply Z.div_le_lower_bound; [apply Z.pow_pos_nonneg; lia|lia]. }
  change (Pos.compare_cont Eq mx p2) with (mx ?= p2)%positive.
  destruct (Pos.compare_spec mx p2); [done|done|lia].
Qed.

Lemma shl_align_value (m : positive) (e e' : Z) :
  e' ≤ e → Z.pos (shl_align m e e').1 = Z.pos m * 2 ^ (e - e').
Proof.
  intros Hle. unfold shl_align.
  destruct (e' - e) as [|d|d] eqn:Hd; cbn [fst]; try lia.
  - replace (e - e') with 0 by lia. lia.
  - replace (e - e') with (Z.pos d) by lia.
    change (Pos.iter xO m d) with (shift_pos d m).
    rewrite shift_pos_correct. change (Z.pow_pos 2 d) with (2 ^ Z.pos d). lia.
Qed.

Lemma canonical_ge_emin (m : positive) (e : Z) : canonical m e → -1074 ≤ e.
Proof. unfold canonical, fexp, emin, prec, emax. lia. Qed.

Lemma SFleb_refl_finite (m : positive) (e : Z) :
  SFleb (S754_finite false m e) (S754_finite false m e) = true.
Proof.
  unfold SFleb, SFcompare. rewrite Z.compare_refl.
  change (Pos.compare_cont Eq m m) with (m ?= m)%positive.
  by rewrite Pos.compare_refl.
Qed.

(** The sum of two positive floats is at least the first. *)
Lemma SFadd_pos_ge (mx my : positive) (ex ey : Z) :
  canonical mx ex → canonical my ey →
  SFleb (S754_finite false mx ex)
        (SFadd prec emax (S754_finite false mx ex) (S754_finite false my ey)) = true.
Proof.
  intros Hx Hy. unfold SFadd. cbn [cond_Zopp].
  pose proof (canonical_ge_emin _ _ Hx). pose proof (canonical_ge_emin _ _ Hy).
  set (ez := Z.min ex ey).
  pose proof (shl_align_value mx ex ez ltac:(lia)) as Hmx.
  pose proof (shl_align_value my ey ez ltac:(lia)) as Hmy.
  set (mx' := (shl_align mx ex ez).1) in *.
  set (my' := (shl_align my ey ez).1) in *.
  change (Z.pos mx' + Z.pos my') with (Z.pos (mx' + my')).
  cbn [binary_normalize]. unfold binary_round.
  assert (Hle : Z.pos mx * 2 ^ (ex - ez) ≤ Z.pos (mx' + my')) by lia.
  pose proof (digits2_pos_shift (mx' + my') mx (ex - ez) ltac:(lia) Hle) as Hd.
  assert (Hno : shl_align (mx' + my') ez
                  (fexp prec emax (Z.pos (digits2_pos (mx' + my')) + ez))
                = ((mx' + my')%positive, ez)).
  { unfold shl_align.
    destruct (fexp prec emax (Z.pos (digits2_pos (mx' + my')) + ez) - ez) eqn:Hn;
      try done.
    exfalso. revert Hn. unfold canonical in Hx. revert Hx.
    unfold fexp, emin, prec, emax. lia. }
  rewrite Hno. apply binary_round_aux_ge; [done|lia|done].
Qed.

Lemma SFadd_nonneg_ge (x y : spec_float) :
  valid_binary x = true → valid_binary y = true →
  SFleb (S754_zero false) x = true → SFleb (S754_zero false) y = true →
  SFleb x (SFadd prec emax (SF_or_zero x) y) = true
  ∧ SFleb (S754_zero false) (SFadd prec emax (SF_or_zero x) y) = true.
Proof.
  intros Vx Vy Hx Hy.
  destruct x as [sx|[]| |[] mx ex]; try discriminate Hx;
  destruct y as [sy|[]| |[] my ey]; try discriminate Hy;
    try (destruct sx); try (destruct sy); try (split; reflexivity);
    try (split; [apply SFleb_refl_finite|reflexivity]).
  cbn [valid_binary] in Vx, Vy. unfold bounded, canonical_mantissa in Vx, Vy.
  apply andb_prop in Vx as [Vx%Z.eqb_eq _]. apply andb_prop in Vy as [Vy%Z.eqb_eq _].
  pose proof (SFadd_pos_ge mx my ex ey Vx Vy) as H.
  change (SF_or_zero (S754_finite false mx ex)) with (S754_finite false mx ex).
  split; [done|].
  destruct (SFadd prec emax (S754_finite false mx ex) (S754_finite false my ey))
    as [s|[]| |[] m e]; try done.
Qed.

(** On binary64 floats: adding a non-negative increment to a non-negative
    total (read through [or 0.0]) does not decrease it, and the new total is
    non-negative. *)
Lemma float_add_nonneg_ge (x y : float) :
  fge x 0%float = true → fge y 0%float = true →
  fge (PrimFloat.add (or_zero x) y) x = true
  ∧ fge (PrimFloat.add (or_zero x) y) 0%float = true.
Proof.
  unfold fge. rewrite !leb_spec, add_spec.
  change (Prim2SF 0) with (S754_zero false).
  intros Hx Hy.
  assert (Hor : Prim2SF (or_zero x) = SF_or_zero (Prim2SF x)).
  { unfold or_zero, SF_or_zero. rewrite FloatAxioms.eqb_spec.
    change (Prim2SF 0) with (S754_zero false).
    by destruct (SFeqb (Prim2SF x) (S754_zero false)). }
  rewrite Hor.
  apply SFadd_nonneg_ge; auto using Prim2SF_valid.
Qed.

End Binary64.


(** ** The central *)

(** Closes [s ≠ t] for two distinct closed strings. *)
Ltac string_neq :=
  let H := fresh in intros H; vm_compute in H; discriminate H.

Section CentralProperties.

Import CP_STATES EVCentral.

Context (py_float : string → option float)
        (py_round : float → Z → float)
        (hash_password : string → string).

(** *** Frame lemmas *)

Lemma billed_app evs1 evs2 : billed (evs1 ++ evs2) = billed evs1 ++ billed evs2.
Proof. apply omap_app. Qed.

Lemma billed_broadcast c m : billed (_broadcast_to_ui_protocol c m) = [].
Proof. unfold _broadcast_to_ui_protocol. by destruct (monitors c !! "WEB_UI"). Qed.

Lemma tickets_app evs1 evs2 : tickets (evs1 ++ evs2) = tickets evs1 ++ tickets evs2.
Proof. apply omap_app. Qed.

Lemma tickets_broadcast c t args :
  t ≠ MessageTypes.TICKET →
  tickets (_broadcast_to_ui_protocol c (build_message t args)) = [].
Proof.
  intros Ht. unfold _broadcast_to_ui_protocol.
  destruct (monitors c !! "WEB_UI"); [|done]. simpl.
  by rewrite bool_decide_eq_false_2.
Qed.

Lemma update_driver_cps d dr c :
  charging_points (update_driver d dr c) = charging_points c.
Proof. unfold update_driver. by destruct (drivers c !! d). Qed.

Lemma update_driver_lookup d dr c :
  drivers (update_driver d dr c) !! d = (λ _, dr) <$> drivers c !! d.
Proof.
  unfold update_driver. destruct (drivers c !! d) eqn:H; simpl.
  - by rewrite lookup_insert_eq.
  - by rewrite H.
Qed.

Lemma update_driver_sockets d dr c :
  entity_to_socket (update_driver d dr c) = entity_to_socket c.
Proof. unfold update_driver. by destruct (drivers c !! d). Qed.

Lemma finalize_cps e cp_id d k a who c :
  charging_points (st (_finalize_charge e cp_id d k a who c))
  = match charging_points c !! cp_id with
    | Some cp => <[cp_id := reset_cp cp]> (charging_points c)
    | None => charging_points c
    end.
Proof.
  unfold _finalize_charge. simpl. rewrite update_driver_cps.
  by destruct (charging_points c !! cp_id).
Qed.

Lemma finalize_driver e cp_id d k a who c :
  drivers (st (_finalize_charge e cp_id d k a who c)) !! d
  = (λ _, idle_driver) <$> drivers c !! d.
Proof.
  unfold _finalize_charge. simpl. rewrite update_driver_lookup.
  by destruct (charging_points c !! cp_id).
Qed.

Lemma finalize_billed e cp_id d k a who c :
  billed (effects (_finalize_charge e cp_id d k a who c)) = [(d, a)].
Proof.
  unfold _finalize_charge. cbn [effects returned].
  rewrite !billed_app, !billed_broadcast. simpl.
  by destruct (entity_to_socket _ !! d).
Qed.

Lemma finalize_tickets e cp_id d k a who c :
  tickets (effects (_finalize_charge e cp_id d k a who c))
  = match entity_to_socket c !! d with
    | Some dsock => [(dsock, [VStr cp_id; VNum k; VNum a])]
    | None => []
    end.
Proof.
  unfold _finalize_charge. cbn [effects returned].
  rewrite !tickets_app, !tickets_broadcast by done.
  rewrite update_driver_sockets.
  destruct (charging_points c !! cp_id); simpl;
    by destruct (entity_to_socket c !! d).
Qed.


Lemma sent_types_app evs1 evs2 :
  sent_types (evs1 ++ evs2) = sent_types evs1 ++ sent_types evs2.
Proof. apply omap_app. Qed.

Lemma sent_types_broadcast c t args :
  sent_types (_broadcast_to_ui_protocol c (build_message t args)) = [] ∨
  sent_types (_broadcast_to_ui_protocol c (build_message t args)) = [t].
Proof.
  unfold _broadcast_to_ui_protocol. destruct (monitors c !! "WEB_UI"); auto.
Qed.

Lemma sent_types_send_to_cp c cp_id t args :
  sent_types (_send_to_cp c cp_id (build_message t args)) = [] ∨
  sent_types (_send_to_cp c cp_id (build_message t args)) = [t].
Proof.
  unfold _send_to_cp. destruct (entity_to_socket c !! cp_id); auto.
  destruct (cp_encryption_keys c !! cp_id); auto.
Qed.

(** What an accepted charge request leaves and sends. *)
Lemma charge_request_accepted e tag d cp_id ks rest k sock cid c cp :
  py_float ks = Some k →
  charging_points c !! cp_id = Some cp →
  state cp = ACTIVATED → current_driver cp = None →
  let r := _handle_charge_request py_float e (tag :: d :: cp_id :: ks :: rest) sock cid c in
  charging_points (st r) = <[cp_id := open_session e d k cp]> (charging_points c)
  ∧ drivers (st r) !! d
    = ((λ _, {| status := "CHARGING"; current_cp := Some cp_id |}) <$> (drivers c !! d))
  ∧ (Send sock (build_message MessageTypes.AUTHORIZE
                  [VStr d; VStr cp_id; VNum k; VNum (price_per_kwh cp)]) ∈ effects r)
  ∧ (MessageTypes.DENY ∉ sent_types (effects r))
  ∧ how r = Returned.
Proof.
  intros Hk Hcp Hs Hd r. subst r. unfold _handle_charge_request.
  rewrite Hk, Hcp.
  rewrite (bool_decide_eq_false_2 (state cp ≠ ACTIVATED)) by (by intros []).
  rewrite (bool_decide_eq_false_2 (current_driver cp ≠ None)) by (by intros []).
  cbn [orb add_log st effects how returned fst snd].
  repeat split.
  - cbn. by rewrite update_driver_cps.
  - cbn. by rewrite update_driver_lookup.
  - rewrite !elem_of_app. right. right. left. by apply list_elem_of_singleton.
  - rewrite !sent_types_app.
    match goal with |- context [_broadcast_to_ui_protocol ?c1 (build_message "LOG" ?a)] =>
      destruct (sent_types_broadcast c1 "LOG" a) as [->| ->] end;
    match goal with |- context [_send_to_cp ?c1 ?i (build_message ?t ?a)] =>
      destruct (sent_types_send_to_cp c1 i t a) as [->| ->] end;
    match goal with |- context [_broadcast_to_ui_protocol ?c1 (build_message "DRIVER_START" ?a)] =>
      destruct (sent_types_broadcast c1 "DRIVER_START" a) as [->| ->] end;
    cbn; intros H; repeat (apply elem_of_cons in H as [H|H]; [discriminate|]);
    by apply elem_of_nil in H.
Qed.


Lemma supply_update_accepted e tag cp_id inc_s amount_s rest inc amount c cp :
  py_float inc_s = Some inc → py_float amount_s = Some amount →
  charging_points c !! cp_id = Some cp →
  let r := _handle_supply_update py_float py_round e
             (tag :: cp_id :: inc_s :: amount_s :: rest) c in
  charging_points (st r)
  = <[cp_id := apply_supply_update py_round cp inc amount]> (charging_points c)
  ∧ drivers (st r) = drivers c
  ∧ how r = Returned.
Proof.
  intros Hi Ha Hcp r. subst r. unfold _handle_supply_update.
  by rewrite Hi, Ha, Hcp.
Qed.


(** The state left by the head of [_cleanup_socket]: records untouched. *)
Lemma unbind_socket_frame sock c :
  let c' := unbind_socket sock c in
  charging_points c' = charging_points c ∧ drivers c' = drivers c
  ∧ logs c' = logs c ∧ active_connections c' = active_connections c
  ∧ cp_encryption_keys c' = cp_encryption_keys c
  ∧ cp_credentials c' = cp_credentials c
  ∧ socket_to_entity c' = delete sock (socket_to_entity c)
  ∧ socket_to_type c' = delete sock (socket_to_type c).
Proof.
  unfold unbind_socket.
  destruct (socket_to_entity c !! sock) as [en|];
    repeat case_bool_decide; repeat case_match; simpl; repeat split.
Qed.

Lemma unbind_socket_cp sock c ent :
  socket_to_entity c !! sock = Some ent → truthy ent = true →
  socket_to_type c !! sock = Some "CP" →
  let c' := unbind_socket sock c in
  monitors c' = monitors c
  ∧ entity_to_socket c'
    = if bool_decide (entity_to_socket c !! ent = Some sock)
      then delete ent (entity_to_socket c) else entity_to_socket c.
Proof.
  intros He Ht Hty. unfold unbind_socket. rewrite He, Hty, Ht. simpl.
  by case_bool_decide.
Qed.


Lemma same_records_and_bindings_refl c : same_records_and_bindings c c.
Proof. repeat split. Qed.

Lemma same_records_and_bindings_log e src txt c :
  same_records_and_bindings c (add_log e src txt c).1.
Proof. repeat split. Qed.

(** Without a password the registry answers 400. *)
Lemma verify_without_password e cp_id user c :
  _verify_cp_credentials hash_password e cp_id user None c = (false, c).
Proof.
  unfold _verify_cp_credentials. destruct (registry e); [|done].
  unfold Registry.verify_cp. by destruct user.
Qed.

Lemma register_cp_without_password e fields entity_id sock cid c :
  field fields 7 = None →
  let r := register_cp py_float hash_password e fields entity_id sock cid c in
  st r = c ∧ how r = Returned.
Proof.
  intros H7 r. subst r. unfold register_cp.
  by rewrite H7, verify_without_password.
Qed.


Lemma energy_trace_head cp_id msgs c cp :
  charging_points c !! cp_id = Some cp →
  ∃ t, energy_trace py_float py_round cp_id msgs c = kwh_delivered cp :: t.
Proof. intros H. destruct msgs as [|[e f] rest]; simpl; rewrite H; eauto. Qed.

Lemma energy_trace_non_decreasing cp_id msgs :
  ∀ c cp,
  charging_points c !! cp_id = Some cp →
  fge (kwh_delivered cp) 0%float = true →
  Forall (λ m, ∃ inc, accepted_update py_float cp_id m.2 inc
                      ∧ fge inc 0%float = true) msgs →
  non_decreasing (energy_trace py_float py_round cp_id msgs c).
Proof.
  induction msgs as [|[e fields] rest IH]; intros c cp Hcp Hk Hall.
  - simpl. by rewrite Hcp.
  - apply Forall_cons in Hall as [(inc & Hacc & Hinc) Hrest].
    destruct Hacc as (tag & inc_s & amount_s & tl & amount & Hf & Hi & Ha).
    simpl in Hf. subst fields.
    destruct (supply_update_accepted e tag cp_id inc_s amount_s
                tl inc amount c cp Hi Ha Hcp) as (Hcps & _ & _).
    set (c' := st (_handle_supply_update py_float py_round e
                     (tag :: cp_id :: inc_s :: amount_s :: tl) c)) in *.
    set (cp' := apply_supply_update py_round cp inc amount) in *.
    assert (Hcp' : charging_points c' !! cp_id = Some cp').
    { by rewrite Hcps, lookup_insert_eq. }
    destruct (float_add_nonneg_ge (kwh_delivered cp) inc Hk Hinc) as [Hge Hpos].
    specialize (IH c' cp' Hcp' Hpos Hrest).
    destruct (energy_trace_head cp_id rest c' cp' Hcp') as [t Ht].
    cbn [energy_trace]. fold c'. rewrite Hcp. cbn [from_option app].
    rewrite Ht in IH |- *. cbn [non_decreasing]. split; [exact Hge|exact IH].
Qed.

Lemma same_but_state_refl cp : same_but_state cp cp.
Proof. by destruct cp. Qed.

(** *** The claims *)


(** C1: [_finalize_charge] leaves a known charging-point record ACTIVATED
    with no driver, no start time and zero energy needed, energy delivered and
    amount, and a registered driver IDLE at no charging point.  A second call
    for the same charging point, whatever its driver and totals, leaves the
    same record, never SUPPLYING; each call passes to the driver's statistics
    and puts on the ticket exactly the totals it was given. *)
Theorem finalize_twice_resets_and_bills_what_was_passed
    (e1 e2 : Env) (cp_id d1 d2 who1 who2 : string)
    (k1 a1 k2 a2 : float) (c : Central) :
  let r1 := _finalize_charge e1 cp_id d1 k1 a1 who1 c in
  let r2 := _finalize_charge e2 cp_id d2 k2 a2 who2 (st r1) in
  (∀ cp, charging_points c !! cp_id = Some cp →
     ∃ cp', charging_points (st r1) !! cp_id = Some cp'
          ∧ charging_points (st r2) !! cp_id = Some cp'
          ∧ session_cleared cp')
  ∧ (∀ cp, charging_points (st r2) !! cp_id = Some cp → state cp ≠ SUPPLYING)
  ∧ (is_Some (drivers c !! d1) →
       ∃ dr, drivers (st r1) !! d1 = Some dr
             ∧ status dr = "IDLE" ∧ current_cp dr = None)
  ∧ (is_Some (drivers (st r1) !! d2) →
       ∃ dr, drivers (st r2) !! d2 = Some dr
             ∧ status dr = "IDLE" ∧ current_cp dr = None)
  ∧ billed (effects r1) = [(d1, a1)]
  ∧ billed (effects r2) = [(d2, a2)]
  ∧ (∀ ticket, ticket ∈ tickets (effects r1) → ticket.2 = [VStr cp_id; VNum k1; VNum a1])
  ∧ (∀ ticket, ticket ∈ tickets (effects r2) → ticket.2 = [VStr cp_id; VNum k2; VNum a2])
  ∧ how r1 = Returned ∧ how r2 = Returned.
Proof.
  intros r1 r2. subst r1 r2.
  repeat split; try apply finalize_billed.
  - intros cp Hcp. exists (reset_cp cp).
    rewrite !finalize_cps, Hcp, lookup_insert_eq, lookup_insert_eq.
    repeat split.
  - intros cp. rewrite !finalize_cps.
    destruct (charging_points c !! cp_id) as [cp0|] eqn:Hcp.
    + rewrite lookup_insert_eq. rewrite lookup_insert_eq. by intros [= <-].
    + rewrite Hcp. congruence.
  - intros [dr Hd]. rewrite finalize_driver, Hd. by eexists.
  - intros [dr Hd]. rewrite finalize_driver, Hd. by eexists.
  - intros t. rewrite finalize_tickets.
    destruct (entity_to_socket c !! d1); [|by intros ?%elem_of_nil].
    by intros ->%list_elem_of_singleton.
  - intros t. rewrite finalize_tickets.
    destruct (entity_to_socket _ !! d2); [|by intros ?%elem_of_nil].
    by intros ->%list_elem_of_singleton.
Qed.

(** C2: an accepted SUPPLY_UPDATE for a known charging point with increment
    [inc] and amount [amount] stores [round(amount, 2)] when [amount] is at
    least the previous amount and at least 0.7 times (new energy times price),
    and [round(previous + inc * price, 2)] otherwise.  The previous amount
    and the stored energy are the stored values, read through [or 0.0]: a
    zero of either sign is read as [0.0], any other value as it is. *)
Theorem supply_update_reconciles_amount
    (e : Env) (tag cp_id inc_s amount_s : string) (rest : list string)
    (inc amount : float) (c : Central) (cp : CP) :
  py_float inc_s = Some inc → py_float amount_s = Some amount →
  charging_points c !! cp_id = Some cp →
  let r := _handle_supply_update py_float py_round e
             (tag :: cp_id :: inc_s :: amount_s :: rest) c in
  let previous :=
    if PrimFloat.eqb (amount_euro cp) 0%float then 0%float else amount_euro cp in
  let energy :=
    PrimFloat.add
      (if PrimFloat.eqb (kwh_delivered cp) 0%float then 0%float else kwh_delivered cp)
      inc in
  let computed := PrimFloat.mul energy (price_per_kwh cp) in
  ∃ cp', charging_points (st r) !! cp_id = Some cp'
    ∧ kwh_delivered cp' = energy
    ∧ (fge amount previous = true
       → fge amount (PrimFloat.mul computed 0.7%float) = true
       → amount_euro cp' = py_round amount 2)
    ∧ (fge amount previous = false
       ∨ fge amount (PrimFloat.mul computed 0.7%float) = false
       → amount_euro cp'
         = py_round (PrimFloat.add previous (PrimFloat.mul inc (price_per_kwh cp))) 2).
Proof.
  intros Hi Ha Hcp r previous energy computed.
  destruct (supply_update_accepted e tag cp_id inc_s amount_s rest inc amount c cp
              Hi Ha Hcp) as (Hcps & _ & _).
  fold r in Hcps. exists (apply_supply_update py_round cp inc amount).
  rewrite Hcps, lookup_insert_eq. split; [done|]. split; [done|].
  cbn [amount_euro apply_supply_update]. unfold metered_amount, metered_kwh, or_zero.
  fold previous energy computed. split.
  - by intros -> ->.
  - intros [-> | ->]; [done|]. by rewrite andb_false_r.
Qed.

(** C3: a REQUEST_CHARGE (driver, charging point, numeric energy) is answered
    by DENY exactly when the charging point is unknown, or not ACTIVATED, or
    has a driver.  The DENY carries the driver, the charging point and a
    reason: CP_NOT_FOUND for an unknown charging point, CP_STATE_ followed by
    the state for one that is not ACTIVATED, CP_ALREADY_IN_USE for one that
    is ACTIVATED with a driver.  A denial is the only effect and leaves the
    whole state of the central, charging-point and driver records included,
    as it was. *)
Theorem charge_request_denied_exactly_when
    (e : Env) (tag d cp_id ks : string) (rest : list string) (k : float)
    (sock : socket) (cid : string) (c : Central) :
  py_float ks = Some k →
  let r := _handle_charge_request py_float e (tag :: d :: cp_id :: ks :: rest) sock cid c in
  let refused :=
    charging_points c !! cp_id = None
    ∨ ∃ cp, charging_points c !! cp_id = Some cp
            ∧ (state cp ≠ ACTIVATED ∨ current_driver cp ≠ None) in
  let denied_with (reason : string) :=
    effects r = [Send sock (build_message MessageTypes.DENY
                              [VStr d; VStr cp_id; VStr reason])] in
  (MessageTypes.DENY ∈ sent_types (effects r) ↔ refused)
  ∧ (charging_points c !! cp_id = None → denied_with "CP_NOT_FOUND")
  ∧ (∀ cp, charging_points c !! cp_id = Some cp → state cp ≠ ACTIVATED →
       denied_with ("CP_STATE_" +:+ state cp))
  ∧ (∀ cp, charging_points c !! cp_id = Some cp → state cp = ACTIVATED →
       current_driver cp ≠ None → denied_with "CP_ALREADY_IN_USE")
  ∧ (refused → st r = c)
  ∧ how r = Returned.
Proof.
  intros Hk r refused denied_with. subst denied_with.
  destruct (charging_points c !! cp_id) as [cp|] eqn:Hcp.
  - destruct (decide (state cp = ACTIVATED)) as [Hs|Hs];
    [destruct (decide (current_driver cp = None)) as [Hd|Hd]|].
    + (* accepted *)
      destruct (charge_request_accepted e tag d cp_id ks rest k sock cid c cp
                  Hk Hcp Hs Hd) as (_ & _ & _ & Hno & Hret).
      assert (Hnot : ¬ refused).
      { intros [?|(cp' & ? & [?|?])]; simplify_eq. }
      fold r in Hno, Hret.
      split; [split; [by intros ?%Hno|by intros ?%Hnot]|].
      split; [done|]. split; [by intros ? [= <-] ?|].
      split; [by intros ? [= <-] ? ?|]. split; [by intros ?%Hnot|done].
    + assert (Href : refused) by (right; eauto).
      subst r. unfold _handle_charge_request. rewrite Hk, Hcp.
      rewrite (bool_decide_eq_false_2 (state cp ≠ ACTIVATED)) by (by intros []).
      rewrite (bool_decide_eq_true_2 (current_driver cp ≠ None)) by done.
      cbn [effects st how returned sent_types omap msg_type deny].
      split; [split; [done|intros _; by apply list_elem_of_singleton]|].
      split; [done|]. split; [by intros ? [= <-] ?|].
      split; [by intros ? [= <-] ? ?|]. by split.
    + assert (Href : refused) by (right; eauto).
      subst r. unfold _handle_charge_request. rewrite Hk, Hcp.
      rewrite (bool_decide_eq_true_2 (state cp ≠ ACTIVATED)) by done.
      cbn [effects st how returned sent_types omap msg_type deny].
      split; [split; [done|intros _; by apply list_elem_of_singleton]|].
      split; [done|]. split; [by intros ? [= <-] ?|].
      split; [by intros ? [= <-] ? ?|]. by split.
  - assert (Href : refused) by (by left).
    subst r. unfold _handle_charge_request. rewrite Hk, Hcp.
    cbn [effects st how returned sent_types omap msg_type deny].
    split; [split; [done|intros _; by apply list_elem_of_singleton]|].
    split; [done|]. split; [done|]. split; [done|]. by split.
Qed.


(** C4: of two REQUEST_CHARGE messages for one charging point that is
    ACTIVATED with no driver, handled one after the other, the first is
    authorized and opens the session for its driver, and the second is denied
    with the reason CP_STATE_SUPPLYING and changes nothing: the record stays
    SUPPLYING for the first driver. *)
Theorem two_requests_one_session
    (e1 e2 : Env) (tag1 tag2 d1 d2 cp_id ks1 ks2 : string)
    (rest1 rest2 : list string) (k1 k2 : float)
    (sock1 sock2 : socket) (cid1 cid2 : string) (c : Central) (cp : CP) :
  py_float ks1 = Some k1 → py_float ks2 = Some k2 →
  charging_points c !! cp_id = Some cp →
  state cp = ACTIVATED → current_driver cp = None →
  let r1 := _handle_charge_request py_float e1
              (tag1 :: d1 :: cp_id :: ks1 :: rest1) sock1 cid1 c in
  let r2 := _handle_charge_request py_float e2
              (tag2 :: d2 :: cp_id :: ks2 :: rest2) sock2 cid2 (st r1) in
  ((Send sock1 (build_message MessageTypes.AUTHORIZE
                  [VStr d1; VStr cp_id; VNum k1; VNum (price_per_kwh cp)]) ∈ effects r1)
   ∧ (MessageTypes.DENY ∉ sent_types (effects r1))
   ∧ charging_points (st r1) !! cp_id = Some (open_session e1 d1 k1 cp))
  ∧ (effects r2 = [Send sock2 (build_message MessageTypes.DENY
                                 [VStr d2; VStr cp_id; VStr "CP_STATE_SUPPLYING"])]
     ∧ (MessageTypes.AUTHORIZE ∉ sent_types (effects r2))
     ∧ st r2 = st r1)
  ∧ (∃ cp', charging_points (st r2) !! cp_id = Some cp'
            ∧ state cp' = SUPPLYING ∧ current_driver cp' = Some d1).
Proof.
  intros Hk1 Hk2 Hcp Hs Hd r1 r2.
  destruct (charge_request_accepted e1 tag1 d1 cp_id ks1 rest1 k1 sock1 cid1 c cp
              Hk1 Hcp Hs Hd) as (Hcps & _ & Hauth & Hno & _).
  fold r1 in Hcps, Hauth, Hno.
  assert (Hcp1 : charging_points (st r1) !! cp_id = Some (open_session e1 d1 k1 cp)).
  { by rewrite Hcps, lookup_insert_eq. }
  assert (Hr2 : r2 = returned (st r1)
                       [Send sock2 (build_message MessageTypes.DENY
                          [VStr d2; VStr cp_id; VStr "CP_STATE_SUPPLYING"])]).
  { subst r2. unfold _handle_charge_request at 1. rewrite Hk2, Hcp1.
    by rewrite (bool_decide_eq_true_2 (state _ ≠ ACTIVATED)) by string_neq. }
  assert (He2 : effects r2 = [Send sock2 (build_message MessageTypes.DENY
                          [VStr d2; VStr cp_id; VStr "CP_STATE_SUPPLYING"])])
    by (by rewrite Hr2).
  assert (Hst2 : st r2 = st r1) by (by rewrite Hr2).
  repeat split; try done.
  - rewrite He2. cbn. intros H.
    repeat (apply elem_of_cons in H as [H|H]; [discriminate|]).
    by apply elem_of_nil in H.
  - exists (open_session e1 d1 k1 cp). by rewrite Hst2.
Qed.


(** C5: when the socket of a charging point closes while the record is
    SUPPLYING, [_cleanup_socket] leaves every charging-point and driver record
    as it was and removes only the bindings of the socket; otherwise the
    record becomes DISCONNECTED with no driver and the completion flag
    cleared. *)
Theorem cleanup_keeps_supplying_session
    (sock : socket) (client_id : string) (c : Central) (ent : string) (cp : CP) :
  socket_to_entity c !! sock = Some ent → ent ≠ "" →
  socket_to_type c !! sock = Some "CP" →
  charging_points c !! ent = Some cp →
  let r := _cleanup_socket sock client_id c in
  (state cp = SUPPLYING →
     charging_points (st r) = charging_points c
     ∧ drivers (st r) = drivers c
     ∧ socket_to_entity (st r) = delete sock (socket_to_entity c)
     ∧ socket_to_type (st r) = delete sock (socket_to_type c)
     ∧ entity_to_socket (st r)
       = (if bool_decide (entity_to_socket c !! ent = Some sock)
          then delete ent (entity_to_socket c) else entity_to_socket c)
     ∧ monitors (st r) = monitors c
     ∧ active_connections (st r) = active_connections c
     ∧ cp_encryption_keys (st r) = cp_encryption_keys c
     ∧ logs (st r) = logs c
     ∧ effects r = [Close sock])
  ∧ (state cp ≠ SUPPLYING →
     charging_points (st r) = <[ent := disconnected_cp cp]> (charging_points c)
     ∧ state (disconnected_cp cp) = DISCONNECTED
     ∧ current_driver (disconnected_cp cp) = None
     ∧ charging_complete (disconnected_cp cp) = false
     ∧ drivers (st r) = drivers c
     ∧ socket_to_entity (st r) = delete sock (socket_to_entity c)
     ∧ socket_to_type (st r) = delete sock (socket_to_type c))
  ∧ how r = Returned.
Proof.
  intros He Hne Hty Hcp r.
  assert (Ht : truthy ent = true).
  { unfold truthy. apply negb_true_iff, String.eqb_neq. done. }
  destruct (unbind_socket_frame sock c) as (Fcp & Fd & Fl & Fa & Fk & Fc & Fse & Fst).
  destruct (unbind_socket_cp sock c ent He Ht Hty) as (Fm & Fes).
  subst r. unfold _cleanup_socket. rewrite He, Hty. simpl. rewrite Ht. simpl.
  rewrite Fcp, Hcp.
  destruct (decide (state cp = SUPPLYING)) as [Hs|Hs].
  - rewrite (bool_decide_eq_true_2 _ Hs). simpl. repeat split; done.
  - rewrite (bool_decide_eq_false_2 _ Hs). simpl. repeat split; try done.
    by rewrite Fcp.
Qed.

(** C6 (amended): for a known charging point an ALERT_COLD alert, over TCP
    or over the REST endpoint, sets the state to OUT_OF_ORDER whatever the
    current state, SUPPLYING included; a WEATHER_OK alert sets the state to
    ACTIVATED only if the charging point is not SUPPLYING and leaves the
    record alone otherwise. *)
Theorem cold_alert_is_unconditional
    (e : Env) (tag cp_id alert : string) (rest : list string)
    (temp : option string) (c : Central) (cp : CP) :
  charging_points c !! cp_id = Some cp →
  let tcp := _handle_weather_alert (tag :: cp_id :: alert :: rest) c in
  let rest_api := api_weather_alert e (Some cp_id) (Some alert) temp c in
  (alert = "ALERT_COLD" →
     charging_points (st tcp) = <[cp_id := set_state OUT_OF_ORDER cp]> (charging_points c)
     ∧ (cp_id ≠ "" → charging_points (st rest_api)
                     = <[cp_id := set_state OUT_OF_ORDER cp]> (charging_points c)))
  ∧ (alert = "WEATHER_OK" → state cp ≠ SUPPLYING →
     charging_points (st tcp) = <[cp_id := set_state ACTIVATED cp]> (charging_points c)
     ∧ (cp_id ≠ "" → charging_points (st rest_api)
                     = <[cp_id := set_state ACTIVATED cp]> (charging_points c)))
  ∧ (alert = "WEATHER_OK" → state cp = SUPPLYING →
     charging_points (st tcp) = charging_points c
     ∧ charging_points (st rest_api) = charging_points c).
Proof.
  intros Hcp tcp rest_api. subst tcp rest_api.
  unfold _handle_weather_alert, api_weather_alert.
  rewrite Hcp.
  assert (Htr : cp_id ≠ "" → truthy cp_id = true).
  { intros H. unfold truthy. by apply negb_true_iff, String.eqb_neq. }
  repeat split.
  - subst alert. done.
  - intros Hne. subst alert. simpl. rewrite (Htr Hne). simpl.
    by rewrite Hcp.
  - subst alert. simpl. by rewrite bool_decide_eq_true_2.
  - intros Hne. subst alert. simpl. rewrite (Htr Hne). simpl.
    rewrite Hcp. simpl. by rewrite bool_decide_eq_true_2.
  - subst alert. simpl. rewrite bool_decide_eq_false_2; [done|]. by intros ?.
  - subst alert. simpl. destruct (truthy cp_id); simpl; [|done].
    rewrite Hcp. simpl. rewrite bool_decide_eq_false_2; [done|]. by intros ?.
Qed.


(** C7: a message with fewer fields than its handler reads is dropped: no
    charging-point record, driver record, connection binding or key changes,
    and the read loop of the connection goes on. *)
Theorem short_message_is_rejected
    (e : Env) (fields : list string) (sock : socket) (cid : string) (c : Central) :
  length fields < fields_read fields →
  let r := _handle_client py_float py_round hash_password e fields sock cid c in
  same_records_and_bindings c (st r)
  ∧ cp_encryption_keys (st r) = cp_encryption_keys c
  ∧ how r = Returned.
Proof.
  intros Hlen r. subst r. unfold _handle_client, _process_fields.
  destruct fields as [|t rest]; [by repeat split|].
  unfold fields_read in Hlen.
  repeat case_bool_decide; simpl in Hlen;
    try (destruct rest as [|f1 [|f2 [|f3 [|f4 rest]]]]; simpl in Hlen; try lia;
         by repeat split).
  - (* REGISTER of a charging point *)
    destruct rest as [|f1 [|f2 rest]]; [by repeat split..|].
    unfold _handle_register.
    match goal with H : field _ 1 = Some _ |- _ => simpl in H; injection H as -> end.
    simpl.
    destruct (register_cp_without_password e ("REGISTER" :: "CP" :: f2 :: rest) f2 sock cid c)
      as [Hst Hhow].
    { unfold field. apply nth_error_None. simpl in *. lia. }
    subst t. 
    match goal with |- context [register_cp ?a ?b ?c ?d ?e ?f ?g ?h] =>
      change d with ("REGISTER" :: "CP" :: f2 :: rest) end.
    rewrite Hhow, Hst. by repeat split.
Qed.

(** C8 (amended): every accepted SUPPLY_UPDATE for a known charging point
    sets the stored energy to the previous energy plus the reported increment,
    whatever the sign of the increment; so, from a non-negative stored energy
    (a session starts at 0.0), the stored energy is non-decreasing along any
    sequence of accepted updates whose increments are all non-negative. *)
Theorem supply_updates_accumulate_energy (cp_id : string) :
  (∀ e fields inc c cp,
     accepted_update py_float cp_id fields inc →
     charging_points c !! cp_id = Some cp →
     kwh_delivered
       <$> (charging_points (st (_handle_supply_update py_float py_round e fields c))
              !! cp_id)
     = Some (PrimFloat.add (or_zero (kwh_delivered cp)) inc))
  ∧ (∀ msgs c cp,
       charging_points c !! cp_id = Some cp →
       fge (kwh_delivered cp) 0%float = true →
       Forall (λ m, ∃ inc, accepted_update py_float cp_id m.2 inc
                           ∧ fge inc 0%float = true) msgs →
       non_decreasing (energy_trace py_float py_round cp_id msgs c)).
Proof.
  split.
  - intros e fields inc c cp (tag & inc_s & amount_s & tl & amount & -> & Hi & Ha) Hcp.
    destruct (supply_update_accepted e tag cp_id inc_s amount_s
                tl inc amount c cp Hi Ha Hcp) as (Hcps & _ & _).
    by rewrite Hcps, lookup_insert_eq.
  - intros msgs c cp. by apply energy_trace_non_decreasing.
Qed.
(** C10: a heartbeat writes the reported state into a known record only when
    the stored state is not SUPPLYING; SUPPLYING is never overridden; every
    other field of the record, and every driver record, is unchanged. *)
Theorem heartbeat_never_overrides_supplying
    (fields : list string) (c : Central) (cp_id : string) (cp : CP) :
  charging_points c !! cp_id = Some cp →
  let r := _handle_heartbeat fields c in
  ∃ cp', charging_points (st r) !! cp_id = Some cp'
    ∧ same_but_state cp cp'
    ∧ (state cp = SUPPLYING → state cp' = SUPPLYING)
    ∧ (state cp' ≠ state cp →
         state cp ≠ SUPPLYING ∧ field fields 1 = Some cp_id
         ∧ field fields 2 = Some (state cp'))
    ∧ (state cp ≠ SUPPLYING → field fields 1 = Some cp_id →
         ∀ s, field fields 2 = Some s → state cp' = s)
    ∧ drivers (st r) = drivers c
    ∧ how r = Returned.
Proof.
  intros Hcp r. subst r. unfold _handle_heartbeat.
  destruct fields as [|tag [|id [|s rest]]];
    try (exists cp; simpl; repeat split;
         auto using same_but_state_refl; congruence).
  destruct (charging_points c !! id) as [cp0|] eqn:Hid;
    [|exists cp; simpl; repeat split;
      auto using same_but_state_refl; congruence].
  case_bool_decide as Hs; simpl.
  - destruct (decide (id = cp_id)) as [->|Hne].
    + rewrite lookup_insert_eq. simplify_eq. exists (set_state s cp).
      repeat split; simpl; auto; congruence.
    + rewrite lookup_insert_ne by done. exists cp.
      repeat split; auto using same_but_state_refl; congruence.
  - exists cp.
    repeat split; auto using same_but_state_refl; try congruence.
Qed.

End CentralProperties.

(** ** The charging-point engine *)

Section PeerProperties.
Import CP_STATES EVCPEngine.
Context (py_float : string → option float).

(** C9: on an AUTHORIZE message (driver in field 1, numeric energy in field 3)
    an ACTIVATED engine becomes SUPPLYING for that driver with a fresh session:
    start time stamped, nothing delivered, energy needed from the message; an
    engine in any other state ignores the message: state, driver and session
    are unchanged and nothing is sent or logged. *)
Theorem authorize_only_when_activated
    (now : Z) (fields : list string) (driver_id kwh_s : string) (kwh : float)
    (g : Engine) :
  field fields 1 = Some driver_id → field fields 3 = Some kwh_s →
  py_float kwh_s = Some kwh →
  let r := _handle_authorize py_float now fields g in
  (state g = ACTIVATED →
     state (st r) = SUPPLYING
     ∧ current_driver (st r) = Some driver_id
     ∧ current_session (st r)
       = Some {| start := now; kwh_needed := kwh; kwh_delivered := 0%float |})
  ∧ (state g ≠ ACTIVATED → st r = g ∧ effects r = [])
  ∧ how r = Returned.
Proof.
  intros H1 H3 Hk r. subst r. unfold _handle_authorize.
  rewrite H1, H3, Hk. case_bool_decide; simpl; repeat split; done.
Qed.
End PeerProperties.

(** ** The claims on concrete inputs *)

Section Examples.

Import CP_STATES EVCentral.

Lemma finalize_twice_witness :
  let c := sample_central "CP-1" (sample_cp SUPPLYING (Some "D-1") 10 5) in
  let r1 := _finalize_charge sample_env "CP-1" "D-1" 10 5 "10.0.0.2:5002" c in
  let r2 := _finalize_charge sample_env "CP-1" "D-1" 10 5 "10.0.0.1:5001" (st r1) in
  (∃ cp', charging_points (st r1) !! "CP-1" = Some cp'
          ∧ charging_points (st r2) !! "CP-1" = Some cp' ∧ session_cleared cp')
  ∧ drivers c !! "D-1" = Some {| status := "CHARGING"; current_cp := Some "CP-1" |}
  ∧ (∃ dr, drivers (st r1) !! "D-1" = Some dr
           ∧ status dr = "IDLE" ∧ current_cp dr = None)
  ∧ billed (effects r1) = [("D-1", 5%float)]
  ∧ billed (effects r2) = [("D-1", 5%float)].
Proof.
  intros c r1 r2.
  assert (Hd : drivers c !! "D-1"
               = Some {| status := "CHARGING"; current_cp := Some "CP-1" |})
    by reflexivity.
  destruct (finalize_twice_resets_and_bills_what_was_passed
              sample_env sample_env "CP-1" "D-1" "D-1"
              "10.0.0.2:5002" "10.0.0.1:5001" 10 5 10 5 c)
    as (Hreset & _ & Hidle & _ & Hb1 & Hb2 & _).
  split; [|split; [exact Hd|split; [|exact (conj Hb1 Hb2)]]].
  - apply (Hreset (sample_cp SUPPLYING (Some "D-1") 10 5)). reflexivity.
  - apply Hidle. rewrite Hd. by eexists.
Defined.

Lemma supply_update_reconciles_amount_witness :
  let cp := sample_cp SUPPLYING (Some "D-1") 10 5 in
  let c := sample_central "CP-1" cp in
  let low := _handle_supply_update float_of_int_string round_exact sample_env
               ["SUPPLY_UPDATE"; "CP-1"; "5"; "3"] c in
  let high := _handle_supply_update float_of_int_string round_exact sample_env
                ["SUPPLY_UPDATE"; "CP-1"; "5"; "8"] c in
  float_of_int_string "5" = Some 5%float
  ∧ float_of_int_string "3" = Some 3%float
  ∧ float_of_int_string "8" = Some 8%float
  ∧ kwh_delivered cp = 10%float ∧ amount_euro cp = 5%float
  ∧ price_per_kwh cp = 0.5%float
  ∧ (∃ cp', charging_points (st low) !! "CP-1" = Some cp'
            ∧ kwh_delivered cp' = 15%float ∧ amount_euro cp' = 7.5%float)
  ∧ (∃ cp', charging_points (st high) !! "CP-1" = Some cp'
            ∧ kwh_delivered cp' = 15%float ∧ amount_euro cp' = 8%float).
Proof.
  intros cp c low high.
  assert (H5 : float_of_int_string "5" = Some 5%float) by reflexivity.
  assert (H3 : float_of_int_string "3" = Some 3%float) by reflexivity.
  assert (H8 : float_of_int_string "8" = Some 8%float) by reflexivity.
  split; [exact H5|]. split; [exact H3|]. split; [exact H8|].
  split; [reflexivity|]. split; [reflexivity|]. split; [reflexivity|].
  split.
  - destruct (supply_update_reconciles_amount float_of_int_string round_exact
                sample_env "SUPPLY_UPDATE" "CP-1" "5" "3" [] 5 3 c cp H5 H3 eq_refl)
      as (cp' & Hcp' & Hk & _ & Hno).
    exists cp'. split; [exact Hcp'|]. split; [exact Hk|].
    exact (eq_trans (Hno (or_introl eq_refl)) eq_refl).
  - destruct (supply_update_reconciles_amount float_of_int_string round_exact
                sample_env "SUPPLY_UPDATE" "CP-1" "5" "8" [] 5 8 c cp H5 H8 eq_refl)
      as (cp' & Hcp' & Hk & Hyes & _).
    exists cp'. split; [exact Hcp'|]. split; [exact Hk|].
    exact (eq_trans (Hyes eq_refl eq_refl) eq_refl).
Defined.

Lemma charge_request_denied_witness :
  let c := sample_central "CP-1" (sample_cp ACTIVATED None 0 0) in
  let r := _handle_charge_request float_of_int_string sample_env
             ["REQUEST_CHARGE"; "D-1"; "CP-9"; "10"] 2%nat "10.0.0.2:5002" c in
  float_of_int_string "10" = Some 10%float
  ∧ effects r = [Send 2%nat (build_message "DENY"
                               [VStr "D-1"; VStr "CP-9"; VStr "CP_NOT_FOUND"])]
  ∧ st r = c.
Proof.
  intros c r.
  assert (H10 : float_of_int_string "10" = Some 10%float) by reflexivity.
  split; [exact H10|].
  destruct (charge_request_denied_exactly_when float_of_int_string sample_env
              "REQUEST_CHARGE" "D-1" "CP-9" "10" [] 10 2%nat "10.0.0.2:5002" c H10)
    as (_ & Hunknown & _ & _ & Hsame & _).
  split; [apply Hunknown; reflexivity|apply Hsame; left; reflexivity].
Defined.

Lemma two_requests_one_session_witness :
  let cp := sample_cp ACTIVATED None 0 0 in
  let c := sample_central "CP-1" cp in
  let r1 := _handle_charge_request float_of_int_string sample_env
              ["REQUEST_CHARGE"; "D-1"; "CP-1"; "10"] 2%nat "10.0.0.2:5002" c in
  let r2 := _handle_charge_request float_of_int_string sample_env
              ["REQUEST_CHARGE"; "D-2"; "CP-1"; "20"] 3%nat "10.0.0.3:5003" (st r1) in
  float_of_int_string "10" = Some 10%float
  ∧ float_of_int_string "20" = Some 20%float
  ∧ charging_points c !! "CP-1" = Some cp
  ∧ effects r2 = [Send 3%nat (build_message "DENY"
                                [VStr "D-2"; VStr "CP-1"; VStr "CP_STATE_SUPPLYING"])]
  ∧ ∃ cp', charging_points (st r2) !! "CP-1" = Some cp'
           ∧ state cp' = SUPPLYING ∧ current_driver cp' = Some "D-1".
Proof.
  intros cp c r1 r2.
  assert (H10 : float_of_int_string "10" = Some 10%float) by reflexivity.
  assert (H20 : float_of_int_string "20" = Some 20%float) by reflexivity.
  assert (Hcp : charging_points c !! "CP-1" = Some cp) by reflexivity.
  split; [exact H10|]. split; [exact H20|]. split; [exact Hcp|].
  destruct (two_requests_one_session float_of_int_string sample_env sample_env
              "REQUEST_CHARGE" "REQUEST_CHARGE" "D-1" "D-2" "CP-1" "10" "20" [] []
              10 20 2%nat 3%nat "10.0.0.2:5002" "10.0.0.3:5003" c cp
              H10 H20 Hcp eq_refl eq_refl)
    as (_ & (Hdeny & _ & _) & Hone).
  exact (conj Hdeny Hone).
Defined.

Lemma cleanup_keeps_supplying_session_witness :
  let cp := sample_cp SUPPLYING (Some "D-1") 10 5 in
  let c := sample_central "CP-1" cp in
  let r := _cleanup_socket 1%nat "10.0.0.1:5001" c in
  socket_to_entity c !! 1%nat = Some "CP-1"
  ∧ socket_to_type c !! 1%nat = Some "CP"
  ∧ charging_points c !! "CP-1" = Some cp
  ∧ charging_points (st r) = charging_points c
  ∧ socket_to_entity (st r) = delete 1%nat (socket_to_entity c).
Proof.
  intros cp c r.
  assert (He : socket_to_entity c !! 1%nat = Some "CP-1") by reflexivity.
  assert (Ht : socket_to_type c !! 1%nat = Some "CP") by reflexivity.
  assert (Hcp : charging_points c !! "CP-1" = Some cp) by reflexivity.
  assert (Hne : "CP-1" ≠ "") by discriminate.
  split; [exact He|]. split; [exact Ht|]. split; [exact Hcp|].
  destruct (cleanup_keeps_supplying_session 1%nat "10.0.0.1:5001" c "CP-1" cp
              He Hne Ht Hcp) as (Hsup & _ & _).
  destruct (Hsup eq_refl) as (H1 & _ & H3 & _).
  exact (conj H1 H3).
Defined.

Lemma cold_alert_is_unconditional_witness :
  let cp := sample_cp ACTIVATED None 0 0 in
  let c := sample_central "CP-2" cp in
  let r := _handle_weather_alert ["WEATHER_ALERT"; "CP-2"; "ALERT_COLD"] c in
  charging_points c !! "CP-2" = Some cp
  ∧ charging_points (st r) = <["CP-2" := set_state OUT_OF_ORDER cp]> (charging_points c).
Proof.
  intros cp c r.
  assert (Hcp : charging_points c !! "CP-2" = Some cp) by reflexivity.
  split; [exact Hcp|].
  destruct (cold_alert_is_unconditional sample_env "WEATHER_ALERT" "CP-2" "ALERT_COLD"
              [] None c cp Hcp) as (Hcold & _ & _).
  exact (proj1 (Hcold eq_refl)).
Defined.

(** C6 as stated fails: a cold-weather alert for a charging point that is
    SUPPLYING does not leave the state unchanged, it sets OUT_OF_ORDER. *)
Lemma cold_alert_overrides_supplying :
  let c := sample_central "CP-2" (sample_cp SUPPLYING (Some "D-1") 10 5) in
  let r := _handle_weather_alert ["WEATHER_ALERT"; "CP-2"; "ALERT_COLD"] c in
  state <$> (charging_points c !! "CP-2") = Some SUPPLYING
  ∧ state <$> (charging_points (st r) !! "CP-2") = Some OUT_OF_ORDER
  ∧ OUT_OF_ORDER ≠ SUPPLYING.
Proof. vm_compute. repeat split; congruence. Qed.

Lemma short_message_is_rejected_witness :
  let c := sample_central "CP-1" (sample_cp ACTIVATED None 0 0) in
  let fields := ["REQUEST_CHARGE"; "D-1"; "CP-1"] in
  let r := _handle_client float_of_int_string round_exact hash_tag sample_env
             fields 2%nat "10.0.0.2:5002" c in
  length fields < fields_read fields
  ∧ same_records_and_bindings c (st r) ∧ how r = Returned.
Proof.
  intros c fields r.
  assert (Hlen : length fields < fields_read fields) by (vm_compute; lia).
  split; [exact Hlen|].
  destruct (short_message_is_rejected float_of_int_string round_exact hash_tag
              sample_env fields 2%nat "10.0.0.2:5002" c Hlen) as (Hsame & _ & Hhow).
  exact (conj Hsame Hhow).
Defined.

Lemma supply_updates_accumulate_energy_witness :
  let cp := sample_cp SUPPLYING (Some "D-1") 0 0 in
  let c := sample_central "CP-1" cp in
  charging_points c !! "CP-1" = Some cp
  ∧ fge (kwh_delivered cp) 0%float = true
  ∧ non_decreasing (energy_trace float_of_int_string round_exact "CP-1" two_updates c).
Proof.
  intros cp c.
  assert (Hcp : charging_points c !! "CP-1" = Some cp) by reflexivity.
  assert (Hk : fge (kwh_delivered cp) 0%float = true) by reflexivity.
  split; [exact Hcp|]. split; [exact Hk|].
  apply (proj2 (supply_updates_accumulate_energy float_of_int_string round_exact "CP-1")
           two_updates c cp Hcp Hk).
  repeat constructor; exists 5%float; (split; [|reflexivity]).
  - exists "SUPPLY_UPDATE", "5", "3", [], 3%float. repeat split; reflexivity.
  - exists "SUPPLY_UPDATE", "5", "5", [], 5%float. repeat split; reflexivity.
Defined.

(** C8 as stated fails: an accepted SUPPLY_UPDATE with the increment -5
    takes the stored energy from 10 down to 5. *)
Lemma negative_increment_decreases_energy :
  let c := sample_central "CP-1" (sample_cp SUPPLYING (Some "D-1") 10 5) in
  let msgs := [(sample_env, ["SUPPLY_UPDATE"; "CP-1"; "-5"; "0"])] in
  accepted_update float_of_int_string "CP-1" ["SUPPLY_UPDATE"; "CP-1"; "-5"; "0"] (-5)%float
  ∧ energy_trace float_of_int_string round_exact "CP-1" msgs c = [10%float; 5%float]
  ∧ ¬ non_decreasing (energy_trace float_of_int_string round_exact "CP-1" msgs c).
Proof.
  intros c msgs. split; [|split].
  - exists "SUPPLY_UPDATE", "-5", "0", [], 0%float. repeat split; reflexivity.
  - reflexivity.
  - intros [H _]. vm_compute in H. discriminate H.
Qed.

Lemma heartbeat_never_overrides_supplying_witness :
  let cp := sample_cp SUPPLYING (Some "D-1") 10 5 in
  let c := sample_central "CP-1" cp in
  let r := _handle_heartbeat ["HEARTBEAT"; "CP-1"; "ACTIVATED"] c in
  charging_points c !! "CP-1" = Some cp
  ∧ ∃ cp', charging_points (st r) !! "CP-1" = Some cp' ∧ state cp' = SUPPLYING.
Proof.
  intros cp c r.
  assert (Hcp : charging_points c !! "CP-1" = Some cp) by reflexivity.
  split; [exact Hcp|].
  destruct (heartbeat_never_overrides_supplying ["HEARTBEAT"; "CP-1"; "ACTIVATED"]
              c "CP-1" cp Hcp) as (cp' & Hcp' & _ & Hsup & _).
  exists cp'. split; [exact Hcp'|]. apply Hsup. reflexivity.
Defined.

End Examples.

Section PeerExamples.

Import CP_STATES EVCPEngine.

Lemma authorize_only_when_activated_witness :
  let g := sample_engine ACTIVATED in
  let fields := ["AUTHORIZE"; "D-1"; "CP-1"; "10"] in
  let r := _handle_authorize float_of_int_string 1060 fields g in
  field fields 1 = Some "D-1" ∧ field fields 3 = Some "10"
  ∧ float_of_int_string "10" = Some 10%float
  ∧ state (st r) = SUPPLYING ∧ current_driver (st r) = Some "D-1"
  ∧ current_session (st r)
    = Some {| start := 1060; kwh_needed := 10%float; kwh_delivered := 0%float |}.
Proof.
  intros g fields r.
  assert (H1 : field fields 1 = Some "D-1") by reflexivity.
  assert (H3 : field fields 3 = Some "10") by reflexivity.
  assert (H10 : float_of_int_string "10" = Some 10%float) by reflexivity.
  split; [exact H1|]. split; [exact H3|]. split; [exact H10|].
  destruct (authorize_only_when_activated float_of_int_string 1060 fields "D-1" "10"
              10 g H1 H3 H10) as (Hact & _ & _).
  exact (Hact eq_refl).
Defined.

End PeerExamples.

#[local] Set Warnings "-clear-no-such-hyp".

Import CP_STATES EVCentral.

(** ** What a step of the central may change *)

Section Steps.

Import CP_STATES EVCentral.

Context (py_float : string → option float)
        (py_round : float → Z → float)
        (hash_password : string → string).

Lemma evolves_refl named reg c : evolves named reg c c.
Proof. split; eauto. Qed.

Lemma evolves_trans named reg c1 c2 c3 :
  evolves named reg c1 c2 → evolves named reg c2 c3 → evolves named reg c1 c3.
Proof.
  intros [F1 K1 D1 N1 L1] [F2 K2 D2 N2 L2]. split.
  - intros id Hid. by rewrite F2, F1.
  - intros id cp Hcp. destruct (K1 id cp Hcp) as (cp1 & H1 & P1).
    destruct (K2 id cp1 H1) as (cp2 & H2 & P2). exists cp2. split; [done|].
    intros Hr. destruct (P1 Hr) as [Hp1 Hl1]. destruct (P2 Hr) as [Hp2 Hl2].
    split; congruence.
  - eauto.
  - eauto.
  - eauto.
Qed.

Lemma evolves_update_cp named reg c id cp cp' :
  id ∈ named → charging_points c !! id = Some cp →
  price_per_kwh cp' = price_per_kwh cp → location cp' = location cp →
  evolves named reg c (update_cp id cp' c).
Proof.
  intros Hin Hcp Hp Hl. split; try done; simpl.
  - intros id' Hid. apply lookup_insert_ne. by intros ->.
  - intros id' cp0 H0. destruct (decide (id = id')) as [<-|Hne].
    + rewrite lookup_insert_eq. exists cp'. split; [done|]. intros _. split; congruence.
    + rewrite lookup_insert_ne by done. eauto.
Qed.

Lemma evolves_update_driver named reg c d dr :
  evolves named reg c (update_driver d dr c).
Proof.
  unfold update_driver. destruct (drivers c !! d) as [dr0|] eqn:Hd;
    [|apply evolves_refl].
  split; try done; simpl; eauto.
  - intros d' Hd'. destruct (decide (d = d')) as [<-|Hne].
    + by rewrite lookup_insert_eq.
    + by rewrite lookup_insert_ne.
  - intros _ d'. destruct (decide (d = d')) as [<-|Hne].
    + by rewrite Hd.
    + by rewrite lookup_insert_ne.
Qed.

Lemma last_n_length {A} n (l : list A) : (length (last_n n l) ≤ n)%nat.
Proof. unfold last_n. rewrite length_skipn. lia. Qed.

Lemma add_log_bounded e src txt c : (length (logs (add_log e src txt c).1) ≤ 200)%nat.
Proof.
  unfold add_log. cbn [fst logs set_logs].
  destruct (200 <? length _)%nat eqn:H.
  - apply last_n_length.
  - apply Nat.ltb_ge in H. done.
Qed.

Lemma evolves_add_log named reg e src txt c :
  evolves named reg c (add_log e src txt c).1.
Proof.
  split; try done; eauto.
  intros _. apply add_log_bounded.
Qed.

Lemma evolves_weaken named c c' : evolves named false c c' → evolves named true c c'.
Proof.
  intros [F K D N L]. split; try done.
  intros id cp Hcp. destruct (K id cp Hcp) as (cp' & H & _). exists cp'. by split.
Qed.

(** A state that differs only in bindings, keys or credentials. *)
Lemma evolves_same_records named reg c c' :
  charging_points c' = charging_points c → drivers c' = drivers c →
  logs c' = logs c → evolves named reg c c'.
Proof.
  intros Hc Hd Hl. split; rewrite ?Hc, ?Hd, ?Hl; eauto.
Qed.

Lemma finalize_evolves named reg e cp_id d k a who c :
  cp_id ∈ named →
  evolves named reg c (st (_finalize_charge e cp_id d k a who c)).
Proof.
  intros Hin. unfold _finalize_charge. cbn [st returned].
  eapply evolves_trans; [|apply evolves_update_driver].
  destruct (charging_points c !! cp_id) as [cp|] eqn:Hcp; [|apply evolves_refl].
  by eapply evolves_update_cp.
Qed.

Lemma and_then_st r k : how r = Returned → st (and_then r k) = st (k (st r)).
Proof. intros H. unfold and_then. by rewrite H. Qed.

Ltac named_head :=
  repeat first [apply list_elem_of_here | apply list_elem_of_further].

Lemma heartbeat_evolves fields c :
  evolves fields false c (st (_handle_heartbeat fields c)).
Proof.
  unfold _handle_heartbeat.
  destruct fields as [|t [|id [|s rest]]]; try apply evolves_refl.
  destruct (charging_points c !! id) as [cp|] eqn:Hcp; [|apply evolves_refl].
  case_bool_decide; [|apply evolves_refl].
  eapply evolves_update_cp; eauto. named_head.
Qed.

Lemma charge_request_evolves e fields sock cid c :
  evolves fields false c (st (_handle_charge_request py_float e fields sock cid c)).
Proof.
  unfold _handle_charge_request.
  destruct fields as [|t [|d [|id [|ks rest]]]]; try apply evolves_add_log.
  destruct (py_float ks); [|apply evolves_refl].
  destruct (charging_points c !! id) as [cp|] eqn:Hcp; [|apply evolves_refl].
  destruct (_ || _); [apply evolves_refl|].
  cbn [st returned add_log fst].
  eapply evolves_trans; [|apply (evolves_add_log _ _ e)].
  eapply evolves_trans; [|apply evolves_update_driver].
  eapply evolves_update_cp; eauto. named_head.
Qed.

Lemma supply_update_evolves e fields c :
  evolves fields false c (st (_handle_supply_update py_float py_round e fields c)).
Proof.
  unfold _handle_supply_update.
  destruct fields as [|t [|id [|si [|sa rest]]]]; try apply evolves_add_log.
  destruct (py_float si); [|apply evolves_refl].
  destruct (py_float sa); [|apply evolves_refl].
  destruct (charging_points c !! id) as [cp|] eqn:Hcp; [|apply evolves_refl].
  cbn [st returned]. eapply evolves_update_cp; eauto. named_head.
Qed.

Lemma supply_end_evolves e fields sock cid c :
  evolves fields false c (st (_handle_supply_end py_float e fields sock cid c)).
Proof.
  unfold _handle_supply_end.
  destruct fields as [|t [|id [|d [|ks [|sa rest]]]]]; try apply evolves_refl.
  destruct (py_float ks); [|apply evolves_refl].
  destruct (py_float sa); [|apply evolves_refl].
  apply finalize_evolves. named_head.
Qed.

Lemma end_charge_evolves named e fields sock cid c :
  (∀ id, field fields 2 = Some id → id ∈ named) →
  evolves named false c (st (_handle_end_charge e fields sock cid c)).
Proof.
  intros Hin. unfold _handle_end_charge.
  destruct fields as [|t [|d [|id rest]]]; try apply evolves_refl.
  destruct (charging_points c !! id) as [cp|] eqn:Hcp; [|apply evolves_refl].
  case_bool_decide; [apply evolves_refl|].
  rewrite and_then_st by done. apply finalize_evolves. by apply Hin.
Qed.

Lemma fault_evolves e fields cid c :
  evolves fields false c (st (_handle_fault e fields cid c)).
Proof.
  unfold _handle_fault.
  destruct fields as [|t [|id rest]]; try apply evolves_refl.
  cbn [st returned add_log fst].
  eapply evolves_trans; [|apply (evolves_add_log _ _ e)].
  destruct (charging_points c !! id) as [cp|] eqn:Hcp; [|apply evolves_refl].
  eapply evolves_update_cp; eauto. named_head.
Qed.

Lemma recovery_evolves e fields c :
  evolves fields false c (st (_handle_recovery e fields c)).
Proof.
  unfold _handle_recovery.
  destruct fields as [|t [|id rest]]; try apply evolves_refl.
  cbn [st returned add_log fst].
  eapply evolves_trans; [|apply (evolves_add_log _ _ e)].
  destruct (charging_points c !! id) as [cp|] eqn:Hcp; [|apply evolves_refl].
  case_bool_decide; [|apply evolves_refl].
  eapply evolves_update_cp; eauto. named_head.
Qed.

Lemma weather_alert_evolves fields c :
  evolves fields false c (st (_handle_weather_alert fields c)).
Proof.
  unfold _handle_weather_alert.
  destruct fields as [|t [|id [|al rest]]]; try apply evolves_refl.
  destruct (charging_points c !! id) as [cp|] eqn:Hcp; [|apply evolves_refl].
  repeat case_bool_decide; cbn [andb]; try apply evolves_refl;
    (eapply evolves_update_cp; eauto; named_head).
Qed.

Lemma query_evolves fields sock c :
  evolves fields false c (st (_handle_query_available_cps fields sock c)).
Proof.
  unfold _handle_query_available_cps.
  destruct fields as [|t [|d rest]]; apply evolves_refl.
Qed.

Lemma register_evolves e fields sock cid c :
  evolves fields true c (st (_handle_register py_float hash_password e fields sock cid c)).
Proof.
  unfold _handle_register.
  destruct fields as [|t [|ty [|id rest]]]; try apply evolves_refl.
  destruct (_ && _); [by apply evolves_same_records|].
  case_bool_decide.
  { cbn [st returned add_log fst].
    eapply evolves_trans; [|apply (evolves_add_log _ _ e)].
    split; try done; simpl.
    - eauto.
    - intros d Hd. destruct (decide (id = d)) as [<-|Hne].
      + by rewrite lookup_insert_eq.
      + by rewrite lookup_insert_ne. }
  case_bool_decide; [|apply evolves_refl].
  unfold register_cp.
  destruct (_verify_cp_credentials _ _ _ _ _ _) as [ok c0] eqn:Hv.
  assert (Hc0 : evolves (t :: ty :: id :: rest) true c c0).
  { unfold _verify_cp_credentials in Hv. destruct (registry e); [|by simplify_eq; apply evolves_refl].
    case_bool_decide; simplify_eq; [apply evolves_refl|by apply evolves_same_records]. }
  destruct ok; cbn [negb]; [|done].
  destruct (field _ 7) as [secret|]; [|done].
  destruct (storage_get_cp e id) as [stored|];
    [|destruct (float_field_or _ _ 3 _); [destruct (float_field_or _ _ 4 _)|]];
    cbn [st returned add_log fst];
    (eapply evolves_trans; [|apply (evolves_add_log _ _ e)]);
    (eapply evolves_trans; [exact Hc0|]);
    (eapply evolves_trans; [by apply evolves_same_records|]);
    (split; try done; simpl;
     [ intros id' Hid; apply lookup_insert_ne; intros ->; apply Hid; named_head
     | intros id' cp Hcp; destruct (decide (id = id')) as [<-|Hne];
       [rewrite lookup_insert_eq; eexists; split; [reflexivity|done]
       |rewrite lookup_insert_ne by done; eauto] ]).
Qed.

Lemma process_fields_evolves e fields sock cid c :
  evolves fields (is_register fields) c
    (st (_process_fields py_float py_round hash_password e fields sock cid c)).
Proof.
  unfold _process_fields, is_register.
  destruct fields as [|t rest]; [apply evolves_refl|]. cbn [head].
  case_bool_decide as Hr.
  { rewrite bool_decide_eq_true_2 by congruence. apply register_evolves. }
  rewrite bool_decide_eq_false_2 by congruence.
  repeat case_bool_decide;
    auto using heartbeat_evolves, charge_request_evolves, supply_update_evolves,
      supply_end_evolves, fault_evolves, recovery_evolves,
      weather_alert_evolves, query_evolves, evolves_refl.
  - (* END_CHARGE *)
    apply end_charge_evolves. intros id Hid. apply nth_error_In in Hid. by apply list_elem_of_In.
  - (* FINISH_CHARGE *)
    destruct rest as [|f1 [|f2 rest]]; try apply evolves_refl.
    apply end_charge_evolves. intros id [= <-]. named_head.
  - apply (evolves_add_log _ _ e).
Qed.

End Steps.

(** ** Records, drivers and the log over every message *)

Section StepProperties.
Import CP_STATES EVCentral.
Context (py_float : string → option float)
        (py_round : float → Z → float)
        (hash_password : string → string).

Lemma handle_client_st e fields sock cid c :
  st (_handle_client py_float py_round hash_password e fields sock cid c)
  = st (_process_fields py_float py_round hash_password e fields sock cid c).
Proof. unfold _handle_client. by destruct (how _). Qed.

Lemma cleanup_evolves sock cid c :
  evolves (option_list (socket_to_entity c !! sock)) false c
    (st (_cleanup_socket sock cid c)).
Proof.
  destruct (unbind_socket_frame sock c) as (Fcp & Fd & Fl & _).
  assert (H0 : ∀ named, evolves named false c (unbind_socket sock c))
    by (intros; by apply evolves_same_records).
  assert (H1 : ∀ named c', evolves named false c'
                 (set_active_connections (delete cid (active_connections c')) c'))
    by (intros; apply evolves_same_records; reflexivity).
  unfold _cleanup_socket.
  destruct (_ && _) eqn:Hc; [|eapply evolves_trans; [apply H0|apply H1]].
  destruct (socket_to_entity c !! sock) as [ent|] eqn:He; [|by rewrite andb_false_r in Hc].
  cbn [default from_option id option_list].
  destruct (charging_points (unbind_socket sock c) !! ent) as [cp|] eqn:Hcp;
    [|eapply evolves_trans; [apply H0|apply H1]].
  destruct (decide (state cp = SUPPLYING)) as [Hs|Hs];
    [rewrite (bool_decide_eq_true_2 _ Hs); apply H0
    |rewrite (bool_decide_eq_false_2 _ Hs)].
  cbn [st returned].
  eapply evolves_trans; [apply H0|].
  eapply evolves_trans; [|apply H1].
  eapply evolves_update_cp; eauto. apply list_elem_of_here.
Qed.

(** X1: a message changes no charging-point record but one whose id is among
    its fields. *)
Theorem message_changes_only_named_records
    (e : Env) (fields : list string) (sock : socket) (cid : string)
    (c : Central) (id : string) :
  id ∉ fields →
  charging_points
    (st (_handle_client py_float py_round hash_password e fields sock cid c)) !! id
  = charging_points c !! id.
Proof.
  intros Hid. rewrite handle_client_st.
  by apply (ev_frame _ _ _ _ (process_fields_evolves py_float py_round hash_password
                               e fields sock cid c)).
Qed.

(** X2: no message and no socket close deletes a charging-point record, and
    only a REGISTER changes the price or the location of one. *)
Theorem records_are_never_deleted
    (e : Env) (fields : list string) (sock : socket) (cid : string)
    (c : Central) (id : string) (cp : CP) :
  charging_points c !! id = Some cp →
  (∃ cp', charging_points
            (st (_handle_client py_float py_round hash_password e fields sock cid c))
            !! id = Some cp'
          ∧ (head fields ≠ Some MessageTypes.REGISTER →
             price_per_kwh cp' = price_per_kwh cp ∧ location cp' = location cp))
  ∧ (∃ cp', charging_points (st (_cleanup_socket sock cid c)) !! id = Some cp'
            ∧ price_per_kwh cp' = price_per_kwh cp ∧ location cp' = location cp).
Proof.
  intros Hcp. split.
  - rewrite handle_client_st.
    destruct (ev_keep _ _ _ _ (process_fields_evolves py_float py_round hash_password
                                 e fields sock cid c) id cp Hcp) as (cp' & H & P).
    exists cp'. split; [done|]. intros Hr. apply P.
    unfold is_register. by apply bool_decide_eq_false_2.
  - destruct (ev_keep _ _ _ _ (cleanup_evolves sock cid c) id cp Hcp) as (cp' & H & P).
    exists cp'. split; [done|]. by apply P.
Qed.

(** X3: a driver record is never deleted by a message and only a REGISTER
    creates one; the cleanup of a socket leaves the table of drivers exactly
    as it is. *)
Theorem driver_records_persist
    (e : Env) (fields : list string) (sock : socket) (cid : string)
    (c : Central) (d : string) :
  (is_Some (drivers c !! d) →
     is_Some (drivers (st (_handle_client py_float py_round hash_password
                             e fields sock cid c)) !! d))
  ∧ (head fields ≠ Some MessageTypes.REGISTER →
     drivers c !! d = None →
     drivers (st (_handle_client py_float py_round hash_password
                    e fields sock cid c)) !! d = None)
  ∧ drivers (st (_cleanup_socket sock cid c)) = drivers c.
Proof.
  pose proof (process_fields_evolves py_float py_round hash_password
                e fields sock cid c) as Hev.
  rewrite handle_client_st. split; [|split].
  - intros Hd. by apply (ev_drivers_keep _ _ _ _ Hev).
  - intros Hr Hnone. apply eq_None_not_Some. intros Hs.
    apply (ev_drivers_new _ _ _ _ Hev) in Hs.
    + rewrite Hnone in Hs. by destruct Hs.
    + unfold is_register. by apply bool_decide_eq_false_2.
  - destruct (unbind_socket_frame sock c) as (_ & Fd & _).
    unfold _cleanup_socket. repeat case_match; simpl; by rewrite ?Fd.
Qed.

(** X4: the log of the central never holds more than 200 entries. *)
Theorem log_is_bounded
    (e : Env) (fields : list string) (sock : socket) (cid : string) (c : Central) :
  (length (logs c) ≤ 200)%nat →
  (length (logs (st (_handle_client py_float py_round hash_password
                      e fields sock cid c))) ≤ 200)%nat
  ∧ (length (logs (st (_cleanup_socket sock cid c))) ≤ 200)%nat
  ∧ ∀ src txt, (length (logs (add_log e src txt c).1) ≤ 200)%nat
               ∧ last (logs (add_log e src txt c).1)
                 = Some {| ts := now e; source := src; text := txt |}.
Proof.
  intros Hl. split; [|split].
  - rewrite handle_client_st.
    by apply (ev_logs _ _ _ _ (process_fields_evolves py_float py_round hash_password
                                 e fields sock cid c)).
  - by apply (ev_logs _ _ _ _ (cleanup_evolves sock cid c)).
  - intros src txt. split; [apply add_log_bounded|].
    unfold add_log. cbn [fst logs set_logs].
    destruct (200 <? _)%nat eqn:H.
    + unfold last_n. rewrite length_app. cbn [length].
      replace (length (logs c) + 1 - 200)%nat with (length (logs c) - 199)%nat by lia.
      rewrite skipn_app. rewrite last_app. 
      replace (length (logs c) - 199 - length (logs c))%nat with 0%nat by lia.
      done.
    + by rewrite last_snoc.
Qed.

End StepProperties.

(** ** The read loop and the end of a charge *)

Section DispatchProperties.
Import CP_STATES EVCentral.
Context (py_float : string → option float)
        (py_round : float → Z → float)
        (hash_password : string → string).

Lemma finalize_how e cp_id d k a who c :
  how (_finalize_charge e cp_id d k a who c) = Returned.
Proof. reflexivity. Qed.

Ltac never_blocks :=
  repeat first
    [ progress cbn [how returned raised]
    | match goal with
      | |- how (match ?x with _ => _ end) ≠ Blocked => destruct x
      | |- how (if ?x then _ else _) ≠ Blocked => destruct x
      | |- how (let '(_, _) := ?x in _) ≠ Blocked => destruct x
      end ];
  try discriminate.

Lemma register_never_blocks e fields sock cid c :
  how (_handle_register py_float hash_password e fields sock cid c) ≠ Blocked.
Proof. unfold _handle_register, register_cp. never_blocks. Qed.

Lemma charge_request_never_blocks e fields sock cid c :
  how (_handle_charge_request py_float e fields sock cid c) ≠ Blocked.
Proof. unfold _handle_charge_request. never_blocks. Qed.

Lemma supply_update_never_blocks e fields c :
  how (_handle_supply_update py_float py_round e fields c) ≠ Blocked.
Proof. unfold _handle_supply_update. never_blocks. Qed.

Lemma supply_end_never_blocks e fields sock cid c :
  how (_handle_supply_end py_float e fields sock cid c) ≠ Blocked.
Proof. unfold _handle_supply_end. never_blocks. Qed.

Lemma end_charge_never_blocks e fields sock cid c :
  how (_handle_end_charge e fields sock cid c) ≠ Blocked.
Proof. unfold _handle_end_charge, and_then. never_blocks. Qed.

Lemma weather_alert_blocks fields c :
  how (_handle_weather_alert fields c) = Blocked ↔ weather_alert_takes_effect fields c.
Proof.
  unfold _handle_weather_alert, weather_alert_takes_effect. split.
  - destruct fields as [|tag [|cp_id [|alert rest]]]; try discriminate.
    destruct (charging_points c !! cp_id) as [cp|] eqn:Hcp; try discriminate.
    repeat case_bool_decide; cbn [andb]; try discriminate; intros _;
      exists tag, cp_id, alert, rest, cp; naive_solver.
  - intros (tag & cp_id & alert & rest & cp & -> & Hcp & Hal). rewrite Hcp.
    destruct Hal as [->|[-> Hs]]; [done|].
    rewrite (bool_decide_eq_false_2 ("WEATHER_OK" = "ALERT_COLD")) by discriminate.
    by rewrite (bool_decide_eq_true_2 _ Hs).
Qed.

(** With the lock free, a turn of the read loop either goes on or its thread
    waits for ever on the lock, and it does so exactly for a WEATHER_ALERT
    that writes a state. *)
Lemma handle_client_how
    (e : Env) (fields : list string) (sock : socket) (cid : string) (c : Central) :
  let r := _handle_client py_float py_round hash_password e fields sock cid c in
  (how r = Returned ∨ how r = Blocked)
  ∧ (how r = Blocked ↔
     head fields = Some "WEATHER_ALERT" ∧ weather_alert_takes_effect fields c).
Proof.
  intros r. subst r. unfold _handle_client.
  set (r := _process_fields py_float py_round hash_password e fields sock cid c).
  assert (Hb : how r = Blocked ↔
               head fields = Some "WEATHER_ALERT" ∧ weather_alert_takes_effect fields c).
  { subst r. unfold _process_fields.
    destruct fields as [|t rest]; [cbn; naive_solver|]. cbn [head].
    assert (Hno : ∀ r', how r' ≠ Blocked → t ≠ "WEATHER_ALERT" →
              how r' = Blocked ↔ Some t = Some "WEATHER_ALERT"
                                 ∧ weather_alert_takes_effect (t :: rest) c)
      by naive_solver.
    repeat case_bool_decide; subst;
      try (apply Hno; [|discriminate];
           auto using register_never_blocks, charge_request_never_blocks,
             supply_update_never_blocks, supply_end_never_blocks,
             end_charge_never_blocks; never_blocks; fail).
    - apply Hno; [|discriminate]. unfold _handle_heartbeat. never_blocks.
    - apply Hno; [|discriminate]. unfold _handle_query_available_cps. never_blocks.
    - apply Hno; [|discriminate].
      destruct rest as [|f1 [|f2 rest]]; try discriminate.
      apply end_charge_never_blocks.
    - apply Hno; [|discriminate]. unfold _handle_fault. never_blocks.
    - apply Hno; [|discriminate]. unfold _handle_recovery. never_blocks.
    - rewrite weather_alert_blocks. naive_solver.
    - apply Hno; [discriminate|done]. }
  destruct (how r) eqn:Hr; cbn [how]; rewrite ?Hr; rewrite <- Hb.
  - split; [by left|done].
  - split; [by left|]. split; discriminate.
  - split; [by right|done].
Qed.

Lemma end_charge_refused e tag d cp_id rest sock cid c :
  charging_points c !! cp_id ≫= current_driver ≠ Some d →
  _handle_end_charge e (tag :: d :: cp_id :: rest) sock cid c = returned c [].
Proof.
  intros Hd. unfold _handle_end_charge.
  destruct (charging_points c !! cp_id) as [cp|]; [|done].
  cbn in Hd. by rewrite bool_decide_eq_true_2.
Qed.

(** X6: an END_CHARGE or FINISH_CHARGE for an unknown charging point, or from
    anyone but the driver of its open session, changes nothing and sends
    nothing. *)
Theorem end_charge_only_by_current_driver
    (e : Env) (tag d cp_id : string) (rest : list string)
    (sock : socket) (cid : string) (c : Central) :
  tag = MessageTypes.END_CHARGE ∨ tag = "FINISH_CHARGE" →
  charging_points c !! cp_id ≫= current_driver ≠ Some d →
  let r := _handle_client py_float py_round hash_password e
             (tag :: d :: cp_id :: rest) sock cid c in
  st r = c ∧ effects r = [] ∧ how r = Returned.
Proof.
  intros Htag Hd r. subst r. unfold _handle_client, _process_fields.
  destruct Htag as [->| ->].
  - rewrite (bool_decide_eq_true_2 (MessageTypes.END_CHARGE = MessageTypes.END_CHARGE))
      by done.
    repeat (rewrite bool_decide_eq_false_2 by string_neq).
    by rewrite end_charge_refused.
  - rewrite (bool_decide_eq_true_2 ("FINISH_CHARGE" = "FINISH_CHARGE")) by done.
    repeat (rewrite bool_decide_eq_false_2 by string_neq).
    by rewrite end_charge_refused.
Qed.

Lemma end_charge_by_driver e tag d cp_id rest sock cid c cp :
  charging_points c !! cp_id = Some cp → current_driver cp = Some d →
  _handle_end_charge e (tag :: d :: cp_id :: rest) sock cid c
  = and_then
      (returned c (_send_to_cp c cp_id
                     (build_message MessageTypes.END_SUPPLY [VStr cp_id])))
      (_finalize_charge e cp_id d (or_zero (kwh_delivered cp))
         (or_zero (amount_euro cp)) cid).
Proof.
  intros Hcp Hd. unfold _handle_end_charge. rewrite Hcp.
  by rewrite bool_decide_eq_false_2 by (by intros []).
Qed.

Lemma billed_send_to_cp c cp_id m : billed (_send_to_cp c cp_id m) = [].
Proof.
  unfold _send_to_cp. destruct (entity_to_socket c !! cp_id); [|done].
  by destruct (cp_encryption_keys c !! cp_id).
Qed.

Lemma tickets_send_to_cp c cp_id t args :
  t ≠ MessageTypes.TICKET →
  tickets (_send_to_cp c cp_id (build_message t args)) = [].
Proof.
  intros Ht. unfold _send_to_cp. destruct (entity_to_socket c !! cp_id); [|done].
  destruct (cp_encryption_keys c !! cp_id); [done|].
  cbn. by rewrite bool_decide_eq_false_2.
Qed.

(** X7: an END_CHARGE from the driver of the open session stops the charging
    point if it is connected, closes the session and bills and tickets the
    totals accumulated in the record; a repeated END_CHARGE is then a
    no-op. *)
Theorem end_charge_bills_accumulated_totals
    (e e' : Env) (tag tag' d cp_id : string) (rest rest' : list string)
    (sock sock' : socket) (cid cid' : string) (c : Central) (cp : CP) :
  charging_points c !! cp_id = Some cp → current_driver cp = Some d →
  let r := _handle_end_charge e (tag :: d :: cp_id :: rest) sock cid c in
  let r' := _handle_end_charge e' (tag' :: d :: cp_id :: rest') sock' cid' (st r) in
  charging_points (st r) = <[cp_id := reset_cp cp]> (charging_points c)
  ∧ billed (effects r) = [(d, or_zero (amount_euro cp))]
  ∧ (∀ ticket, ticket ∈ tickets (effects r) →
       ticket.2 = [VStr cp_id; VNum (or_zero (kwh_delivered cp));
                   VNum (or_zero (amount_euro cp))])
  ∧ (is_Some (entity_to_socket c !! cp_id) →
       head (sent_types (effects r)) = Some MessageTypes.END_SUPPLY)
  ∧ st r' = st r ∧ effects r' = [].
Proof.
  intros Hcp Hd r r'.
  assert (Hr : r = and_then
      (returned c (_send_to_cp c cp_id
                     (build_message MessageTypes.END_SUPPLY [VStr cp_id])))
      (_finalize_charge e cp_id d (or_zero (kwh_delivered cp))
         (or_zero (amount_euro cp)) cid)) by (by apply end_charge_by_driver).
  assert (Hcps : charging_points (st r) = <[cp_id := reset_cp cp]> (charging_points c)).
  { rewrite Hr, and_then_st by done. cbn [st returned].
    by rewrite finalize_cps, Hcp. }
  assert (Hnop : st r' = st r ∧ effects r' = []).
  { subst r'. rewrite end_charge_refused; [done|].
    rewrite Hcps, lookup_insert_eq. by cbn. }
  split; [done|]. split; [|split; [|split]]; try done.
  - rewrite Hr. unfold and_then. cbn [how returned effects st].
    by rewrite billed_app, billed_send_to_cp, finalize_billed.
  - intros t. rewrite Hr. unfold and_then. cbn [how returned effects st].
    rewrite tickets_app, tickets_send_to_cp by done. cbn [app].
    rewrite finalize_tickets.
    destruct (entity_to_socket c !! d); [|by intros ?%elem_of_nil].
    by intros ->%list_elem_of_singleton.
  - intros [s Hs]. rewrite Hr. unfold and_then. cbn [how returned effects st].
    unfold _send_to_cp. rewrite Hs.
    by destruct (cp_encryption_keys c !! cp_id).
Qed.

End DispatchProperties.

(** ** The lock *)

Section LockProperties.
Import CP_STATES EVCentral.
Context (py_float : string → option float)
        (py_round : float → Z → float)
        (hash_password : string → string).

Lemma quiet_returned c evs : quiet c (returned c evs).
Proof. by split. Qed.

Lemma quiet_raised c x evs : quiet c (raised x c evs).
Proof. by split. Qed.

Lemma parses_false {A} (o : option A) : bool_decide (is_Some o) = false → o = None.
Proof.
  intros H. apply bool_decide_eq_false_1 in H.
  destruct o; [|done]. by destruct H.
Qed.

Ltac split_tag t X :=
  destruct (decide (t = X)) as [->|?];
  [ rewrite (bool_decide_eq_true_2 (X = X) eq_refl) in *
  | rewrite (bool_decide_eq_false_2 (t = X)) in * by done ].

Ltac short rest H :=
  destruct rest as [|? [|? [|? [|? [|? ?]]]]]; cbn in H; try discriminate H;
  try apply quiet_returned; try apply quiet_raised.

Lemma no_lock_quiet e fields sock cid c :
  acquires_lock py_float hash_password e fields c = false →
  quiet c (_process_fields py_float py_round hash_password e fields sock cid c).
Proof.
  intros Hno. unfold _process_fields. unfold acquires_lock in Hno.
  destruct fields as [|t rest]; [apply quiet_raised|].
  split_tag t MessageTypes.REGISTER.
  { unfold _handle_register.
    destruct rest as [|ty [|id rest]]; try apply quiet_returned.
    destruct (_ && _); [discriminate Hno|].
    destruct (bool_decide (ty = "DRIVER")); [discriminate Hno|].
    destruct (bool_decide (ty = "CP")); [|apply quiet_returned].
    unfold register_cp.
    destruct (_verify_cp_credentials _ _ _ _ _ _) as [ok c0] eqn:Hv.
    cbn in Hno. subst ok. cbn [negb].
    unfold _verify_cp_credentials in Hv.
    destruct (registry e); [case_bool_decide|]; simplify_eq; apply quiet_returned. }
  split_tag t MessageTypes.HEARTBEAT.
  { unfold _handle_heartbeat. short rest Hno. }
  split_tag t MessageTypes.REQUEST_CHARGE.
  { unfold _handle_charge_request. short rest Hno.
    all: apply parses_false in Hno; rewrite Hno; apply quiet_raised. }
  split_tag t MessageTypes.QUERY_AVAILABLE_CPS.
  { unfold _handle_query_available_cps. short rest Hno. }
  split_tag t MessageTypes.SUPPLY_UPDATE.
  { unfold _handle_supply_update. short rest Hno.
    all: apply andb_false_iff in Hno as [Hno|Hno]; apply parses_false in Hno;
      repeat (match goal with
              | |- context [match py_float ?x with _ => _ end] =>
                  destruct (py_float x) eqn:?
              end);
      first [congruence|apply quiet_raised]. }
  split_tag t MessageTypes.SUPPLY_END.
  { unfold _handle_supply_end. short rest Hno.
    all: apply andb_false_iff in Hno as [Hno|Hno]; apply parses_false in Hno;
      repeat (match goal with
              | |- context [match py_float ?x with _ => _ end] =>
                  destruct (py_float x) eqn:?
              end);
      first [congruence|apply quiet_raised]. }
  split_tag t MessageTypes.END_CHARGE.
  { unfold _handle_end_charge. short rest Hno. }
  split_tag t "FINISH_CHARGE".
  { short rest Hno. }
  split_tag t MessageTypes.FAULT.
  { unfold _handle_fault. short rest Hno. }
  split_tag t MessageTypes.RECOVERY.
  { unfold _handle_recovery. short rest Hno. }
  split_tag t "LOG".
  { discriminate Hno. }
  split_tag t "WEATHER_ALERT".
  { unfold _handle_weather_alert. short rest Hno. }
  apply quiet_returned.
Qed.

Lemma blocked_acquires_lock e fields sock cid c :
  how (_handle_client py_float py_round hash_password e fields sock cid c) = Blocked →
  acquires_lock py_float hash_password e fields c = true.
Proof.
  intros Hb. destruct (acquires_lock _ _ _ _ _) eqn:Ha; [done|].
  destruct (no_lock_quiet e fields sock cid c Ha) as [_ Hq].
  unfold _handle_client in Hb.
  destruct (how (_process_fields _ _ _ _ _ _ _ _)) eqn:Hp; cbn in Hb; congruence.
Qed.

(** X5: one turn of the read loop, with the lock tracked.  With the lock free
    the turn is the one of [_handle_client]: it completes (an exception of a
    handler is caught) unless the message is a WEATHER_ALERT that writes a
    state, whose thread then waits for ever holding the lock.  Once the lock
    is stuck it stays stuck and the state of the central never changes
    again: a message that comes to the lock blocks its thread before
    anything is sent, any other message completes, and the cleanup of a
    socket only closes it. *)
Theorem stuck_lock_freezes_the_central
    (e : Env) (fields : list string) (sock : socket) (cid : string) (s : Guarded) :
  let t := _handle_client_guarded py_float py_round hash_password e fields sock cid s in
  let r := t.2 in
  (how r = Returned ∨ how r = Blocked)
  ∧ (lock_stuck s = false →
       r = _handle_client py_float py_round hash_password e fields sock cid (central s)
       ∧ central t.1 = st r
       ∧ (how r = Blocked ↔
            head fields = Some "WEATHER_ALERT"
            ∧ weather_alert_takes_effect fields (central s))
       ∧ (lock_stuck t.1 = true ↔ how r = Blocked))
  ∧ (lock_stuck s = true →
       lock_stuck t.1 = true
       ∧ central t.1 = central s
       ∧ (how r = Blocked ↔
            acquires_lock py_float hash_password e fields (central s) = true)
       ∧ (how r = Blocked → effects r = [])
       ∧ _cleanup_socket_guarded sock cid s = (s, blocked (central s) [Close sock])).
Proof.
  intros t r. subst r t. unfold _handle_client_guarded, _cleanup_socket_guarded.
  destruct (handle_client_how py_float py_round hash_password e fields sock cid (central s))
    as [Hhow Hblocked].
  destruct (lock_stuck s) eqn:Hl; cbn [andb orb].
  - destruct (acquires_lock _ _ _ _ _) eqn:Ha; cbn [fst snd].
    + split; [by right|]. split; [done|]. intros _. by repeat split.
    + destruct (no_lock_quiet e fields sock cid (central s) Ha) as [Hst Hq].
      split; [done|]. split; [done|]. intros _.
      split; [done|]. split; [by rewrite handle_client_st|].
      split; [|split; [|done]].
      * split; [|done]. intros Hb. apply blocked_acquires_lock in Hb. congruence.
      * intros Hb. apply blocked_acquires_lock in Hb. congruence.
  - cbn [fst snd]. split; [done|]. split; [|done]. intros _.
    split; [done|]. split; [done|]. split; [done|].
    destruct (how _); split; done.
Qed.

End LockProperties.

(** ** Availability, faults and driver registration *)

Section HandlerProperties.
Import CP_STATES EVCentral.
Context (py_float : string → option float)
        (py_round : float → Z → float)
        (hash_password : string → string).

(** X8: the answer to QUERY_AVAILABLE_CPS lists, with location and price,
    exactly the charging points that are ACTIVATED with no driver, and changes
    nothing; a REQUEST_CHARGE for a listed charging point is authorized. *)
Theorem available_cps_are_the_free_ones
    (e : Env) (tag d : string) (rest : list string) (sock : socket) (c : Central) :
  let r := _handle_query_available_cps (tag :: d :: rest) sock c in
  ∃ rows,
    effects r = [Send sock (build_message MessageTypes.AVAILABLE_CPS [VRows rows])]
    ∧ st r = c
    ∧ (∀ cp_id lat lon price,
         [SStr cp_id; SNum lat; SNum lon; SNum price] ∈ rows ↔
         ∃ cp, charging_points c !! cp_id = Some cp
               ∧ state cp = ACTIVATED ∧ current_driver cp = None
               ∧ location cp = (lat, lon) ∧ price_per_kwh cp = price)
    ∧ (∀ cp_id lat lon price tag' d' ks rest' k sock' cid',
         [SStr cp_id; SNum lat; SNum lon; SNum price] ∈ rows →
         py_float ks = Some k →
         MessageTypes.DENY ∉
           sent_types (effects (_handle_charge_request py_float e
                                  (tag' :: d' :: cp_id :: ks :: rest') sock' cid' c))).
Proof.
  intros r. subst r. unfold _handle_query_available_cps. cbn [effects st returned].
  eexists. split; [reflexivity|]. split; [done|].
  assert (Hrows : ∀ cp_id lat lon price,
    [SStr cp_id; SNum lat; SNum lon; SNum price]
      ∈ map (λ kv : string * CP,
               [SStr kv.1; SNum (location kv.2).1; SNum (location kv.2).2;
                SNum (price_per_kwh kv.2)])
            (filter (λ kv : string * CP,
                       bool_decide (state kv.2 = ACTIVATED)
                       && bool_decide (current_driver kv.2 = None))
                    (map_to_list (charging_points c))) ↔
    ∃ cp, charging_points c !! cp_id = Some cp
          ∧ state cp = ACTIVATED ∧ current_driver cp = None
          ∧ location cp = (lat, lon) ∧ price_per_kwh cp = price).
  { intros cp_id lat lon price. rewrite list_elem_of_In, in_map_iff. split.
    - intros ([id cp] & [= -> Hlat Hlon Hp] & Hin). cbn in *.
      apply list_elem_of_In, list_elem_of_filter in Hin as [Hok Hin].
      apply elem_of_map_to_list in Hin.
      apply andb_prop_elim in Hok as [Hs%bool_decide_unpack Hd%bool_decide_unpack].
      cbn in *. exists cp. repeat split; try done.
      destruct (location cp); cbn in *; congruence.
    - intros (cp & Hcp & Hs & Hd & Hl & Hp). exists (cp_id, cp). cbn. split.
      + rewrite Hl, Hp. done.
      + apply list_elem_of_In, list_elem_of_filter. split.
        * cbn. by rewrite !bool_decide_eq_true_2.
        * by apply elem_of_map_to_list. }
  split; [exact Hrows|].
  intros cp_id lat lon price tag' d' ks rest' k sock' cid' Hin Hk.
  apply Hrows in Hin as (cp & Hcp & Hs & Hd & _).
  by destruct (charge_request_accepted py_float e tag' d' cp_id ks rest' k sock' cid' c cp
                 Hk Hcp Hs Hd) as (_ & _ & _ & Hno & _).
Qed.

Lemma fault_cps e tag cp_id rest cid c :
  charging_points (st (_handle_fault e (tag :: cp_id :: rest) cid c))
  = match charging_points c !! cp_id with
    | Some cp => <[cp_id := set_state OUT_OF_ORDER cp]> (charging_points c)
    | None => charging_points c
    end.
Proof. unfold _handle_fault. cbn. by destruct (charging_points c !! cp_id). Qed.

Lemma recovery_cps e tag cp_id rest c :
  charging_points (st (_handle_recovery e (tag :: cp_id :: rest) c))
  = match charging_points c !! cp_id with
    | Some cp => if bool_decide (state cp ≠ SUPPLYING)
                 then <[cp_id := set_state ACTIVATED cp]> (charging_points c)
                 else charging_points c
    | None => charging_points c
    end.
Proof.
  unfold _handle_recovery. cbn. destruct (charging_points c !! cp_id); [|done].
  by case_bool_decide.
Qed.

(** X9: a FAULT puts a known charging point OUT_OF_ORDER whatever its state,
    and a following RECOVERY puts it back ACTIVATED; neither touches the
    session fields, so a session that was open stays attached to a record
    that is ACTIVATED, and a new REQUEST_CHARGE is then refused with the
    reason CP_ALREADY_IN_USE. *)
Theorem fault_then_recovery_keeps_the_session
    (e1 e2 e3 : Env) (t1 t2 t3 cp_id d ks : string) (rest1 rest2 rest3 : list string)
    (k : float) (cid : string) (sock : socket) (c : Central) (cp : CP) :
  charging_points c !! cp_id = Some cp →
  py_float ks = Some k →
  let r1 := _handle_fault e1 (t1 :: cp_id :: rest1) cid c in
  let r2 := _handle_recovery e2 (t2 :: cp_id :: rest2) (st r1) in
  let r3 := _handle_charge_request py_float e3 (t3 :: d :: cp_id :: ks :: rest3)
              sock cid (st r2) in
  charging_points (st r1) !! cp_id = Some (set_state OUT_OF_ORDER cp)
  ∧ charging_points (st r2) !! cp_id = Some (set_state ACTIVATED cp)
  ∧ (current_driver cp ≠ None →
     effects r3 = [Send sock (build_message MessageTypes.DENY
                                [VStr d; VStr cp_id; VStr "CP_ALREADY_IN_USE"])]).
Proof.
  intros Hcp Hk r1 r2 r3.
  assert (H1 : charging_points (st r1) !! cp_id = Some (set_state OUT_OF_ORDER cp)).
  { subst r1. by rewrite fault_cps, Hcp, lookup_insert_eq. }
  assert (H2 : charging_points (st r2) !! cp_id = Some (set_state ACTIVATED cp)).
  { subst r2. rewrite recovery_cps, H1.
    rewrite bool_decide_eq_true_2 by string_neq.
    rewrite lookup_insert_eq. by destruct cp. }
  split; [done|]. split; [done|].
  intros Hd. subst r3. unfold _handle_charge_request. rewrite Hk, H2.
  rewrite (bool_decide_eq_false_2 (state _ ≠ ACTIVATED)) by (by intros []).
  by rewrite (bool_decide_eq_true_2 (current_driver _ ≠ None)).
Qed.

(** X10: registering a driver always leaves its record IDLE at no charging
    point and binds the socket to it, in place of any earlier socket; the
    charging-point records are untouched, also one that holds an open session
    of this driver. *)
Theorem driver_registration_resets_the_driver
    (e : Env) (tag d : string) (rest : list string) (sock : socket) (cid : string)
    (c : Central) :
  let r := _handle_register py_float hash_password e
             (tag :: "DRIVER" :: d :: rest) sock cid c in
  drivers (st r) = <[d := {| status := "IDLE"; current_cp := None |}]> (drivers c)
  ∧ entity_to_socket (st r) = <[d := sock]> (entity_to_socket c)
  ∧ socket_to_entity (st r) = <[sock := d]> (socket_to_entity c)
  ∧ socket_to_type (st r) = <[sock := "DRIVER"]> (socket_to_type c)
  ∧ charging_points (st r) = charging_points c
  ∧ last (effects r)
    = Some (Send sock (build_message MessageTypes.ACKNOWLEDGE [VStr d; VStr "OK"])).
Proof.
  intros r. subst r. unfold _handle_register.
  rewrite (bool_decide_eq_false_2 ("DRIVER" = "MONITOR")) by discriminate.
  cbn [andb]. rewrite (bool_decide_eq_true_2 ("DRIVER" = "DRIVER")) by done.
  cbn [st returned effects add_log fst snd]. repeat split.
  rewrite app_assoc. by rewrite last_snoc.
Qed.

End HandlerProperties.

(** ** Registration of a charging point *)

Section RegistrationProperties.
Import CP_STATES EVCentral.
Context (py_float : string → option float)
        (py_round : float → Z → float)
        (hash_password : string → string).

Lemma truthy_ne s : truthy s = true ↔ s ≠ "".
Proof.
  unfold truthy. rewrite negb_true_iff. apply String.eqb_neq.
Qed.

(** X11: the registry answers 200 exactly when identifier, user name and
    password are all present and non-empty, the charging point is registered,
    the user name is the registered one and the password hashes to the
    registered hash; otherwise it answers 400, 404 or 401. *)
Theorem verify_cp_accepts_exactly_the_registered_credentials
    (reg : gmap string Registry.entry) (cp_id : string) (user password : option string) :
  let code := Registry.verify_cp hash_password reg cp_id user password in
  (code = 200%Z ↔
     ∃ u p entry, user = Some u ∧ password = Some p
       ∧ cp_id ≠ "" ∧ u ≠ "" ∧ p ≠ ""
       ∧ reg !! cp_id = Some entry
       ∧ Registry.username entry = Some u
       ∧ Registry.password_hash entry = Some (hash_password p))
  ∧ (code = 200 ∨ code = 400 ∨ code = 404 ∨ code = 401)%Z.
Proof.
  intros code. subst code. unfold Registry.verify_cp.
  destruct user as [u|], password as [p|]; try (split; [split; [done|naive_solver]|auto]).
  destruct (truthy cp_id && truthy u && truthy p) eqn:Ht; cbn [negb].
  - apply andb_prop in Ht as [[H1%truthy_ne H2%truthy_ne]%andb_prop H3%truthy_ne].
    destruct (reg !! cp_id) as [entry|] eqn:He; [|split; [split; [done|naive_solver]|auto]].
    repeat case_bool_decide; cbn [negb]; (split; [split; [try done|]|auto]);
      try naive_solver.
  - split; [split; [done|]|auto].
    intros (u' & p' & entry & [= <-] & [= <-] & H1%truthy_ne & H2%truthy_ne & H3%truthy_ne & _).
    by rewrite H1, H2, H3 in Ht.
Qed.

Lemma verify_refused e cp_id user password c :
  (∀ reg, registry e = Some reg →
          Registry.verify_cp hash_password reg cp_id user password ≠ 200%Z) →
  _verify_cp_credentials hash_password e cp_id user password c = (false, c).
Proof.
  intros H. unfold _verify_cp_credentials. destruct (registry e) as [reg|]; [|done].
  by rewrite bool_decide_eq_true_2 by (by apply H).
Qed.

Lemma verify_accepted e reg cp_id user password c :
  registry e = Some reg →
  Registry.verify_cp hash_password reg cp_id user password = 200%Z →
  _verify_cp_credentials hash_password e cp_id user password c
  = (true, set_cp_credentials (<[cp_id := (user, password)]> (cp_credentials c)) c).
Proof.
  intros Hr H. unfold _verify_cp_credentials. rewrite Hr.
  by rewrite bool_decide_eq_false_2 by (by intros []).
Qed.

(** X12: when the registry is unreachable or does not answer 200, the REGISTER
    of a charging point is answered by DENY AUTH_FAILED and nothing else
    happens: no record, binding, key or credential is stored. *)
Theorem refused_registration_leaves_no_trace
    (e : Env) (tag cp_id : string) (rest : list string) (sock : socket) (cid : string)
    (c : Central) :
  let fields := tag :: "CP" :: cp_id :: rest in
  (∀ reg, registry e = Some reg →
          Registry.verify_cp hash_password reg cp_id (field fields 6) (field fields 7)
          ≠ 200%Z) →
  let r := _handle_register py_float hash_password e fields sock cid c in
  st r = c
  ∧ effects r = [Send sock (build_message MessageTypes.DENY
                              [VStr cp_id; VStr "AUTH_FAILED"])]
  ∧ how r = Returned.
Proof.
  intros fields Hv r. subst r fields. unfold _handle_register.
  rewrite (bool_decide_eq_false_2 ("CP" = "MONITOR")) by discriminate.
  cbn [andb]. rewrite (bool_decide_eq_false_2 ("CP" = "DRIVER")) by discriminate.
  rewrite (bool_decide_eq_true_2 ("CP" = "CP")) by done.
  unfold register_cp. by rewrite verify_refused.
Qed.

(** X13: a charging point that registers with the registered credentials gets
    its key stored and returned in the acknowledgement and its socket bound;
    its record keeps the driver, start time, energy and amount of a session
    that was open, and its state is SUPPLYING if it has a driver and ACTIVATED
    otherwise, whatever the state was. *)
Theorem accepted_registration_resumes_the_session
    (e : Env) (reg : gmap string Registry.entry)
    (tag cp_id lat_s lon_s price_s u p : string) (rest : list string)
    (sock : socket) (cid : string) (c : Central) :
  let fields := tag :: "CP" :: cp_id :: lat_s :: lon_s :: price_s :: u :: p :: rest in
  registry e = Some reg →
  Registry.verify_cp hash_password reg cp_id (Some u) (Some p) = 200%Z →
  let r := _handle_register py_float hash_password e fields sock cid c in
  let old := charging_points c !! cp_id in
  (∃ cp', charging_points (st r) !! cp_id = Some cp'
     ∧ current_driver cp' = old ≫= current_driver
     ∧ session_start cp' = old ≫= session_start
     ∧ kwh_delivered cp' = or_zero (from_option kwh_delivered 0%float old)
     ∧ amount_euro cp' = or_zero (from_option amount_euro 0%float old)
     ∧ state cp' = (if truthy_opt (old ≫= current_driver) then SUPPLYING else ACTIVATED))
  ∧ cp_encryption_keys (st r) !! cp_id = Some (generate_key p)
  ∧ entity_to_socket (st r) !! cp_id = Some sock
  ∧ socket_to_entity (st r) !! sock = Some cp_id
  ∧ socket_to_type (st r) !! sock = Some "CP"
  ∧ (∃ lat lon, Send sock (build_message MessageTypes.ACKNOWLEDGE
                   [VStr cp_id; VStr "OK"; VKey (generate_key p); VNum lat; VNum lon])
                ∈ effects r)
  ∧ drivers (st r) = drivers c.
Proof.
  intros fields Hreg Hv r old. subst r fields. unfold _handle_register.
  rewrite (bool_decide_eq_false_2 ("CP" = "MONITOR")) by discriminate.
  cbn [andb]. rewrite (bool_decide_eq_false_2 ("CP" = "DRIVER")) by discriminate.
  rewrite (bool_decide_eq_true_2 ("CP" = "CP")) by done.
  unfold register_cp. cbn [field nth_error].
  rewrite (verify_accepted e reg) by done. cbn [negb].
  destruct (storage_get_cp e cp_id) as [stored|];
    [|destruct (float_field_or _ _ 3 _); [destruct (float_field_or _ _ 4 _)|]];
    cbn [st returned effects add_log fst snd];
    (split; [eexists; split; [apply lookup_insert_eq|by repeat split]|]);
    (split; [apply lookup_insert_eq|]);
    (split; [apply lookup_insert_eq|]);
    (split; [apply lookup_insert_eq|]);
    (split; [apply lookup_insert_eq|]);
    (split; [|done]);
    do 2 eexists; do 2 apply list_elem_of_further; apply list_elem_of_here.
Qed.

End RegistrationProperties.

(** ** Socket cleanup, forced stop and stored records *)

Section LifecycleProperties.
Import CP_STATES EVCentral.
Context (py_float : string → option float)
        (py_round : float → Z → float)
        (hash_password : string → string).

(** X14: the cleanup of a socket that never registered only closes it and
    forgets the connection: every record and every binding stays. *)
Theorem cleanup_of_unregistered_socket
    (sock : socket) (cid : string) (c : Central) :
  socket_to_entity c !! sock = None → socket_to_type c !! sock = None →
  let r := _cleanup_socket sock cid c in
  same_records_and_bindings
    (set_active_connections (delete cid (active_connections c)) c) (st r)
  ∧ active_connections (st r) = delete cid (active_connections c)
  ∧ effects r = [Close sock] ∧ how r = Returned.
Proof.
  intros He Ht r. subst r. unfold _cleanup_socket, unbind_socket.
  rewrite He, Ht. cbn.
  rewrite (delete_id _ _ He), (delete_id _ _ Ht). by repeat split.
Qed.

(** X15: when a charging point has registered again on a new socket and the
    old socket closes, the new binding is kept, but the record, unless it is
    SUPPLYING, is marked DISCONNECTED all the same. *)
Theorem cleanup_of_superseded_socket
    (old new : socket) (cid ent : string) (c : Central) (cp : CP) :
  socket_to_entity c !! old = Some ent → ent ≠ "" →
  socket_to_type c !! old = Some "CP" →
  entity_to_socket c !! ent = Some new → new ≠ old →
  charging_points c !! ent = Some cp → state cp ≠ SUPPLYING →
  let r := _cleanup_socket old cid c in
  entity_to_socket (st r) = entity_to_socket c
  ∧ (∀ m, _send_to_cp (st r) ent m = _send_to_cp c ent m)
  ∧ charging_points (st r) !! ent = Some (disconnected_cp cp).
Proof.
  intros He Hne Ht Hn Hno Hcp Hs r.
  assert (Htr : truthy ent = true) by (by apply truthy_ne).
  destruct (unbind_socket_frame old c) as (Fcp & _ & _ & _ & Fk & _).
  destruct (unbind_socket_cp old c ent He Htr Ht) as (_ & Fes).
  rewrite bool_decide_eq_false_2 in Fes by congruence.
  subst r. unfold _cleanup_socket. rewrite He, Ht. simpl. rewrite Htr. simpl.
  rewrite Fcp, Hcp. rewrite (bool_decide_eq_false_2 _ Hs). simpl.
  split; [done|]. split; [|by rewrite Fcp, lookup_insert_eq].
  intros m. unfold _send_to_cp. simpl. by rewrite Fes, Fk.
Qed.

Lemma force_stop_supplying e cp_id c cp :
  charging_points c !! cp_id = Some cp → state cp = SUPPLYING →
  force_stop_charge e cp_id c
  = and_then
      (returned (add_log e "EV_Central" [Lit "Force stop requested for "; Lit cp_id] c).1
         ((add_log e "EV_Central" [Lit "Force stop requested for "; Lit cp_id] c).2
          ++ _send_to_cp (add_log e "EV_Central"
                            [Lit "Force stop requested for "; Lit cp_id] c).1 cp_id
               (build_message MessageTypes.END_SUPPLY [VStr cp_id])))
      (_finalize_charge e cp_id (default "" (current_driver cp))
         (or_zero (kwh_delivered cp)) (or_zero (amount_euro cp)) "EV_Central").
Proof.
  intros Hcp Hs. unfold force_stop_charge. rewrite Hcp.
  by rewrite bool_decide_eq_false_2 by (by intros []).
Qed.

(** X16: [force_stop_charge] does nothing to a charging point that is unknown
    or not SUPPLYING; for one that is SUPPLYING it closes the session and
    bills its driver exactly the amount accumulated in the record. *)
Theorem force_stop_bills_accumulated_totals (e : Env) (cp_id : string) (c : Central) :
  let r := force_stop_charge e cp_id c in
  ((∀ cp, charging_points c !! cp_id = Some cp → state cp ≠ SUPPLYING) →
     st r = c ∧ effects r = [])
  ∧ (∀ cp, charging_points c !! cp_id = Some cp → state cp = SUPPLYING →
       charging_points (st r) = <[cp_id := reset_cp cp]> (charging_points c)
       ∧ billed (effects r)
         = [(default "" (current_driver cp), or_zero (amount_euro cp))]
       ∧ how r = Returned).
Proof.
  intros r. subst r. split.
  - unfold force_stop_charge.
    destruct (charging_points c !! cp_id) as [cp|] eqn:Hcp; [|done].
    intros Hs. by rewrite bool_decide_eq_true_2 by (by apply Hs).
  - intros cp Hcp Hs. rewrite (force_stop_supplying e cp_id c cp Hcp Hs).
    unfold and_then. cbn [how returned st effects].
    rewrite finalize_cps, !billed_app, finalize_billed.
    cbn [add_log fst snd charging_points set_logs]. rewrite Hcp.
    split; [done|]. split; [|done].
    by rewrite billed_broadcast, billed_send_to_cp.
Qed.

Lemma load_stored_cps_snoc stored row c :
  _load_stored_cps (stored ++ [row]) c
  = let c' := _load_stored_cps stored c in
    if truthy_opt (row_cp_id row)
    then update_cp (default "" (row_cp_id row)) (loaded_cp row) c' else c'.
Proof. unfold _load_stored_cps. by rewrite foldl_app. Qed.

(** X17: after [_load_stored_cps] every charging point named by a stored
    dictionary has no session (no driver, no start time, zero energy and
    amount) and a price that is not zero; dictionaries without an identifier
    are skipped, and a charging point that no dictionary names is left as it
    was. *)
Theorem loaded_records_have_no_session
    (stored : list stored_row) (c : Central) (cp_id : string) :
  let c' := _load_stored_cps stored c in
  (cp_id ≠ "" → (∃ row, row ∈ stored ∧ row_cp_id row = Some cp_id) →
     ∃ cp, charging_points c' !! cp_id = Some cp
       ∧ current_driver cp = None ∧ session_start cp = None
       ∧ kwh_delivered cp = 0%float ∧ amount_euro cp = 0%float
       ∧ PrimFloat.eqb (price_per_kwh cp) 0%float = false)
  ∧ ((∀ row, row ∈ stored → row_cp_id row ≠ Some cp_id) →
     charging_points c' !! cp_id = charging_points c !! cp_id)
  ∧ drivers c' = drivers c.
Proof.
  induction stored as [|row stored IH] using rev_ind; intros c'; subst c'.
  - split; [|done]. intros _ (row & Hin & _). by apply elem_of_nil in Hin.
  - rewrite load_stored_cps_snoc. cbn zeta.
    destruct IH as (IH1 & IH2 & IH3).
    assert (Hprice : ∀ o, PrimFloat.eqb (price_or_default o) 0%float = false).
    { intros [x|]; [|done]. unfold price_or_default.
      by destruct (PrimFloat.eqb x 0) eqn:Hx. }
    destruct (row_cp_id row) as [rid|] eqn:Hid; cbn [truthy_opt default from_option id].
    2: { split; [|split; [|done]].
         - intros Hne (row' & Hin & Hr). apply IH1; [done|].
           apply elem_of_app in Hin as [Hin|Hin%list_elem_of_singleton];
             [eauto|congruence].
         - intros Hall. apply IH2. intros row' Hin. apply Hall, elem_of_app. by left. }
    destruct (truthy rid) eqn:Ht.
    + split; [|split; [|done]].
      * intros Hne (row' & Hin & Hr).
        destruct (decide (rid = cp_id)) as [->|Hdiff].
        -- exists (loaded_cp row). cbn. rewrite lookup_insert_eq.
           repeat split. apply Hprice.
        -- cbn. rewrite lookup_insert_ne by done. apply IH1; [done|].
           apply elem_of_app in Hin as [Hin|Hin%list_elem_of_singleton];
             [eauto|congruence].
      * intros Hall. cbn. rewrite lookup_insert_ne.
        -- apply IH2. intros row' Hin. apply Hall, elem_of_app. by left.
        -- intros ->. apply (Hall row); [|done].
           apply elem_of_app. right. by apply list_elem_of_singleton.
    + split; [|split; [|done]].
      * intros Hne (row' & Hin & Hr). apply IH1; [done|].
        apply elem_of_app in Hin as [Hin|Hin%list_elem_of_singleton]; [eauto|].
        subst row'. rewrite Hid in Hr. injection Hr as ->.
        apply truthy_ne in Hne. congruence.
      * intros Hall. apply IH2. intros row' Hin. apply Hall, elem_of_app. by left.
Qed.

End LifecycleProperties.

(** ** The completion notice *)

Section MeteringProperties.
Import CP_STATES EVCentral.
Context (py_float : string → option float)
        (py_round : float → Z → float).

Lemma completion_notices_app cp_id evs1 evs2 :
  completion_notices cp_id (evs1 ++ evs2)
  = completion_notices cp_id evs1 ++ completion_notices cp_id evs2.
Proof. apply omap_app. Qed.

Lemma completion_notices_broadcast cp_id c t args :
  t ≠ "CHARGING_COMPLETE" →
  completion_notices cp_id (_broadcast_to_ui_protocol c (build_message t args)) = [].
Proof.
  intros Ht. unfold _broadcast_to_ui_protocol.
  destruct (monitors c !! "WEB_UI"); [|done]. cbn.
  destruct args as [|[] ?]; try done. by rewrite bool_decide_eq_false_2.
Qed.

Lemma supply_update_completion cp_id e fields c :
  let r := _handle_supply_update py_float py_round e fields c in
  (length (completion_notices cp_id (effects r)) ≤ 1)%nat
  ∧ (completion_recorded cp_id c →
     completion_notices cp_id (effects r) = [] ∧ completion_recorded cp_id (st r))
  ∧ (completion_notices cp_id (effects r) ≠ [] → completion_recorded cp_id (st r)).
Proof.
  intros r. subst r. unfold _handle_supply_update.
  destruct fields as [|t [|id [|si [|sa rest]]]];
    try (cbn [st effects returned add_log fst snd];
         rewrite completion_notices_broadcast by discriminate;
         split; [cbn; lia|split; [done|done]]).
  destruct (py_float si) as [inc|]; [|split; [cbn; lia|split; [done|done]]].
  destruct (py_float sa) as [am|]; [|split; [cbn; lia|split; [done|done]]].
  destruct (charging_points c !! id) as [cp|] eqn:Hcp;
    [|split; [cbn; lia|split; [done|done]]].
  cbn [st effects returned].
  rewrite !completion_notices_app.
  rewrite (completion_notices_broadcast _ _ MessageTypes.SUPPLY_UPDATE) by string_neq.
  assert (Hd : ∀ o : option socket,
             completion_notices cp_id
               (if truthy_opt (current_driver (apply_supply_update py_round cp inc am))
                then match o with
                     | Some dsock =>
                         [Send dsock
                            (build_message MessageTypes.SUPPLY_UPDATE
                               [VStr id;
                                VNum (py_round (kwh_delivered
                                                  (apply_supply_update py_round cp inc am)) 6);
                                VNum (amount_euro (apply_supply_update py_round cp inc am))])]
                     | None => []
                     end
                else []) = []).
  { intros o. destruct (truthy_opt _); [|done]. destruct o; [|done]. cbn.
    by rewrite (bool_decide_eq_false_2 (MessageTypes.SUPPLY_UPDATE = "CHARGING_COMPLETE"))
      by string_neq. }
  rewrite Hd, !app_nil_r.
  destruct (decide (id = cp_id)) as [->|Hne].
  - destruct (completion_fires cp inc) eqn:Hf.
    + split; [|split].
      * unfold _broadcast_to_ui_protocol. destruct (monitors _ !! _); cbn; [|lia].
        rewrite bool_decide_eq_true_2 by done. cbn. case_bool_decide; cbn; lia.
      * intros (cp0 & H0 & Hc0). rewrite Hcp in H0. injection H0 as <-.
        unfold completion_fires in Hf. rewrite Hc0, andb_false_r in Hf. done.
      * intros _. eexists. cbn. rewrite lookup_insert_eq. split; [done|].
        cbn. by rewrite Hf.
    + split; [cbn; lia|]. split; [|done].
      intros (cp0 & H0 & Hc0). rewrite Hcp in H0. injection H0 as <-.
      split; [done|]. eexists. cbn. rewrite lookup_insert_eq. split; [done|].
      cbn. by rewrite Hf.
  - assert (Hn : completion_notices cp_id
                   (if completion_fires cp inc
                    then _broadcast_to_ui_protocol
                           (update_cp id (apply_supply_update py_round cp inc am) c)
                           (build_message "CHARGING_COMPLETE"
                              [VStr id;
                               VStr (default ""
                                       (current_driver
                                          (apply_supply_update py_round cp inc am)))])
                    else []) = []).
    { destruct (completion_fires cp inc); [|done].
      unfold _broadcast_to_ui_protocol. destruct (monitors _ !! _); [|done]. cbn.
      rewrite (bool_decide_eq_false_2 (id = cp_id)) by done. by rewrite andb_false_r. }
    rewrite Hn. split; [cbn; lia|]. split; [|done].
    intros (cp0 & H0 & Hc0). split; [done|]. exists cp0. cbn.
    by rewrite lookup_insert_ne.
Qed.

Lemma supply_updates_after_completion cp_id msgs c :
  completion_recorded cp_id c →
  completion_notices cp_id (supply_updates py_float py_round msgs c).2 = [].
Proof.
  revert c. induction msgs as [|[e fields] rest IH]; intros c Hc; [done|].
  cbn [supply_updates].
  destruct (supply_update_completion cp_id e fields c) as (_ & H2 & _).
  destruct (H2 Hc) as [Hnil Hrec]. specialize (IH _ Hrec).
  destruct (supply_updates _ _ rest _) as [c' evs]. cbn [snd] in *.
  by rewrite completion_notices_app, Hnil, IH.
Qed.

(** X18: over any sequence of SUPPLY_UPDATE messages the completion notice of
    a charging point is sent at most once, and never again once the record
    says it was sent. *)
Theorem completion_is_announced_at_most_once
    (cp_id : string) (msgs : list (Env * list string)) (c : Central) :
  (length (completion_notices cp_id (supply_updates py_float py_round msgs c).2) ≤ 1)%nat
  ∧ (completion_recorded cp_id c →
     completion_notices cp_id (supply_updates py_float py_round msgs c).2 = []).
Proof.
  split; [|apply supply_updates_after_completion].
  revert c. induction msgs as [|[e fields] rest IH]; intros c; [cbn; lia|].
  cbn [supply_updates].
  destruct (supply_update_completion cp_id e fields c) as (H1 & _ & H3).
  specialize (IH (st (_handle_supply_update py_float py_round e fields c))).
  pose proof (supply_updates_after_completion cp_id rest
                (st (_handle_supply_update py_float py_round e fields c))) as Hafter.
  destruct (supply_updates _ _ rest _) as [c' evs]. cbn [snd] in *.
  rewrite completion_notices_app, length_app.
  destruct (completion_notices cp_id
              (effects (_handle_supply_update py_float py_round e fields c)))
    as [|n ns] eqn:Hn.
  - cbn. lia.
  - rewrite Hafter by (by apply H3). cbn in *. lia.
Qed.

End MeteringProperties.

(** ** The messages and the status loop of the engine *)

Section EngineProperties.
Import CP_STATES EVCPEngine.
Context (py_float : string → option float)
        (py_round : float → Z → float)
        (SUPPLY_UPDATE_INTERVAL : float).

Lemma end_session_coherent g : session_coherent (end_session g).
Proof.
  split; cbn; [|done]. split; [string_neq|done].
Qed.

Lemma authorize_coherent now fields g :
  session_coherent g →
  session_coherent (st (_handle_authorize py_float now fields g)).
Proof.
  intros Hg. unfold _handle_authorize.
  destruct (field fields 1); [|done]. destruct (field fields 3); [|done].
  destruct (py_float _); [|done]. case_bool_decide; [done|].
  split; cbn; split; done.
Qed.

Lemma end_supply_coherent now p :
  session_coherent (core p) →
  session_coherent (core (peer_st (_handle_end_supply py_round now p))).
Proof.
  intros Hg. unfold _handle_end_supply.
  destruct (current_session (core p)); [|done]. apply end_session_coherent.
Qed.

Lemma stop_supply_coherent g :
  session_coherent g → session_coherent (_handle_stop_supply g).
Proof.
  intros [H1 H2]. unfold _handle_stop_supply. case_bool_decide as Hs; [done|].
  split; cbn; [|done]. split; [string_neq|]. intros Hn. by apply H1 in Hn.
Qed.

Lemma resume_supply_coherent g :
  session_coherent g → session_coherent (_handle_resume_supply g).
Proof.
  intros [H1 H2]. unfold _handle_resume_supply. split; cbn; [|done].
  case_bool_decide as Hs; [|done].
  split; [string_neq|]. intros Hn. by apply H1 in Hn.
Qed.

Lemma status_loop_coherent p :
  session_coherent (core p) →
  session_coherent
    (core (peer_st (_status_loop py_round SUPPLY_UPDATE_INTERVAL p))).
Proof.
  intros Hg. unfold _status_loop.
  destruct (central_socket p) as [sock|]; [|done]. destruct (connected _); cbn [negb]; [|done].
  destruct (current_session (core p)) as [s|] eqn:Hs; [|done].
  case_bool_decide as Hst; [|done].
  destruct (tick_finishes _ s); cbn [peer_st set_core core].
  - apply end_session_coherent.
  - destruct Hg as [H1 H2]. rewrite Hs in H2. split; cbn; [|by rewrite H2].
    by rewrite Hst.
Qed.

(** X19: the engine holds a session and a driver exactly while it is
    SUPPLYING: every message from the central and every pass of the status
    loop keeps it so. *)
Theorem engine_supplies_exactly_while_it_holds_a_session
    (now : Z) (fields : list string) (p : Peer) :
  session_coherent (core p) →
  session_coherent (core (peer_st (_listen_central_loop py_float py_round now fields p)))
  ∧ session_coherent
      (core (peer_st (_status_loop py_round SUPPLY_UPDATE_INTERVAL p)))
  ∧ session_coherent (core (peer_st (_close_central_socket p))).
Proof.
  intros Hg. split; [|split; [by apply status_loop_coherent|done]].
  unfold _listen_central_loop. destruct fields as [|tag rest]; [done|].
  repeat case_bool_decide; cbn [peer_st set_core core];
    auto using end_supply_coherent, stop_supply_coherent, resume_supply_coherent.
  pose proof (authorize_coherent now (tag :: rest) (core p) Hg) as Ha.
  destruct (how _); cbn [peer_st set_core core _close_central_socket]; [done| |];
    destruct Ha as [H1 H2]; split; done.
Qed.

Lemma listen_stop_supply now rest p :
  _listen_central_loop py_float py_round now ("STOP_SUPPLY" :: rest) p
  = {| peer_st := set_core (_handle_stop_supply (core p)) p; peer_effects := [] |}.
Proof. reflexivity. Qed.

Lemma listen_resume_supply now rest p :
  _listen_central_loop py_float py_round now ("RESUME_SUPPLY" :: rest) p
  = {| peer_st := set_core (_handle_resume_supply (core p)) p; peer_effects := [] |}.
Proof. reflexivity. Qed.

Lemma listen_end_supply now rest p :
  _listen_central_loop py_float py_round now (MessageTypes.END_SUPPLY :: rest) p
  = _handle_end_supply py_round now p.
Proof. reflexivity. Qed.

Lemma listen_authorize now driver id ks rest kwh p :
  py_float ks = Some kwh →
  _listen_central_loop py_float py_round now
    (MessageTypes.AUTHORIZE :: driver :: id :: ks :: rest) p
  = if bool_decide (state (core p) ≠ ACTIVATED)
    then {| peer_st := set_core (core p) p; peer_effects := [] |}
    else {| peer_st := set_core (start_supply now driver kwh (core p)) p;
            peer_effects :=
              [PeerLog (Audit_log_charge "CP" (cp_id (core p)) driver "CHARGE_START"
                          (Some kwh) None)] |}.
Proof.
  intros Hk. unfold _listen_central_loop.
  rewrite bool_decide_eq_true_2 by done.
  unfold _handle_authorize. cbn [field nth_error]. rewrite Hk.
  by case_bool_decide.
Qed.

Lemma set_core_core p : set_core (core p) p = p.
Proof. by destruct p. Qed.

(** X20: STOP_SUPPLY takes an engine that is not supplying OUT_OF_ORDER, where
    it ignores every AUTHORIZE; after RESUME_SUPPLY the same AUTHORIZE starts
    a session. *)
Theorem stopped_engine_refuses_until_resumed
    (t1 t2 t3 t4 : Z) (rest1 rest3 rest : list string)
    (driver id ks : string) (kwh : float) (p : Peer) :
  state (core p) ≠ SUPPLYING → py_float ks = Some kwh →
  let authorize := MessageTypes.AUTHORIZE :: driver :: id :: ks :: rest in
  let stopped :=
    peer_st (_listen_central_loop py_float py_round t1 ("STOP_SUPPLY" :: rest1) p) in
  let refused := _listen_central_loop py_float py_round t2 authorize stopped in
  let resumed :=
    peer_st (_listen_central_loop py_float py_round t3 ("RESUME_SUPPLY" :: rest3)
               stopped) in
  let accepted := _listen_central_loop py_float py_round t4 authorize resumed in
  state (core stopped) = OUT_OF_ORDER
  ∧ peer_st refused = stopped ∧ peer_effects refused = []
  ∧ state (core resumed) = ACTIVATED
  ∧ core (peer_st accepted) = start_supply t4 driver kwh (core resumed)
  ∧ peer_effects accepted
    = [PeerLog (Audit_log_charge "CP" (cp_id (core p)) driver "CHARGE_START"
                  (Some kwh) None)].
Proof.
  intros Hs Hk authorize stopped refused resumed accepted.
  subst accepted refused resumed stopped authorize.
  rewrite listen_stop_supply, listen_resume_supply. cbn [peer_st].
  rewrite !(listen_authorize _ _ _ _ _ _ _ Hk). cbn [core set_core].
  assert (H2 : state (_handle_stop_supply (core p)) = OUT_OF_ORDER).
  { unfold _handle_stop_supply. by rewrite bool_decide_eq_false_2. }
  assert (H4 : state (_handle_resume_supply (_handle_stop_supply (core p))) = ACTIVATED).
  { cbn. rewrite H2. by rewrite bool_decide_eq_true_2 by string_neq. }
  assert (H5 : cp_id (_handle_resume_supply (_handle_stop_supply (core p)))
               = cp_id (core p)).
  { cbn. unfold _handle_stop_supply. by case_bool_decide. }
  rewrite H2, H4, H5.
  rewrite (bool_decide_eq_true_2 (OUT_OF_ORDER ≠ ACTIVATED)) by string_neq.
  rewrite (bool_decide_eq_false_2 (ACTIVATED ≠ ACTIVATED)) by (by intros []).
  cbn [peer_st peer_effects core set_core].
  by repeat split.
Qed.

(** X21: a STOP_SUPPLY received while supplying does not interrupt the session
    and is forgotten when it ends: END_SUPPLY, and the pass of the status loop
    that completes the energy, act exactly as if no stop had been asked, and
    leave the engine ACTIVATED. *)
Theorem stop_during_a_session_is_forgotten
    (t0 t1 : Z) (rest0 rest1 : list string) (p : Peer) (s : session) :
  state (core p) = SUPPLYING → current_session (core p) = Some s →
  let stopped :=
    peer_st (_listen_central_loop py_float py_round t0 ("STOP_SUPPLY" :: rest0) p) in
  state (core stopped) = SUPPLYING
  ∧ current_session (core stopped) = Some s
  ∧ current_driver (core stopped) = current_driver (core p)
  ∧ _listen_central_loop py_float py_round t1 (MessageTypes.END_SUPPLY :: rest1) stopped
    = _listen_central_loop py_float py_round t1 (MessageTypes.END_SUPPLY :: rest1) p
  ∧ state (core (peer_st (_listen_central_loop py_float py_round t1
                            (MessageTypes.END_SUPPLY :: rest1) stopped))) = ACTIVATED
  ∧ (tick_finishes SUPPLY_UPDATE_INTERVAL s = true →
     is_Some (central_socket p) → connected (core p) = true →
     _status_loop py_round SUPPLY_UPDATE_INTERVAL stopped
     = _status_loop py_round SUPPLY_UPDATE_INTERVAL p
     ∧ state (core (peer_st (_status_loop py_round SUPPLY_UPDATE_INTERVAL stopped)))
       = ACTIVATED).
Proof.
  intros Hs Hsess stopped. subst stopped.
  rewrite listen_stop_supply, !listen_end_supply. cbn [peer_st].
  assert (H2 : _handle_stop_supply (core p)
               = {| cp_id := cp_id (core p); price_per_kwh := price_per_kwh (core p);
                    state := SUPPLYING; current_driver := current_driver (core p);
                    current_session := Some s; charging_complete := true;
                    connected := connected (core p) |}).
  { unfold _handle_stop_supply. rewrite bool_decide_eq_true_2 by done.
    by rewrite Hs, Hsess. }
  rewrite H2.
  unfold _status_loop, _handle_end_supply, send_if_connected.
  cbn [core set_core central_socket symmetric_key cp_id price_per_kwh state
       current_driver current_session charging_complete connected].
  rewrite Hsess, Hs. rewrite (bool_decide_eq_true_2 (SUPPLYING = SUPPLYING)) by done.
  do 5 (split; [done|]).
  intros Hf [sock Hsock] Hc. rewrite Hsock, Hc, Hf. unfold end_session, set_core. cbn.
  rewrite ?Hc. split; reflexivity.
Qed.



End EngineProperties.

(** ** The further properties on concrete inputs *)

Section CentralRuns.

Import CP_STATES EVCentral.

Lemma message_changes_only_named_records_witness :
  let cp := sample_cp ACTIVATED None 0 0 in
  let c := update_cp "CP-2" cp (sample_central "CP-1" cp) in
  let fields := ["REQUEST_CHARGE"; "D-1"; "CP-1"; "10"] in
  let r := _handle_client float_of_int_string round_exact hash_tag sample_env
             fields 2%nat "10.0.0.2:5002" c in
  ("CP-2" ∉ fields)
  ∧ charging_points (st r) !! "CP-2" = Some cp
  ∧ state <$> (charging_points (st r) !! "CP-1") = Some SUPPLYING.
Proof.
  intros cp c fields r.
  assert (Hout : "CP-2" ∉ fields).
  { intros H. apply list_elem_of_In in H. cbn in H. intuition discriminate. }
  split; [exact Hout|]. split; [|reflexivity].
  exact (eq_trans
           (message_changes_only_named_records float_of_int_string round_exact
              hash_tag sample_env fields 2%nat "10.0.0.2:5002" c "CP-2" Hout)
           eq_refl).
Defined.

Lemma records_are_never_deleted_witness :
  let cp := sample_cp SUPPLYING (Some "D-1") 10 5 in
  let c := sample_central "CP-1" cp in
  let r := _handle_client float_of_int_string round_exact hash_tag sample_env
             ["FAULT"; "CP-1"] 1%nat "10.0.0.1:5001" c in
  charging_points c !! "CP-1" = Some cp
  ∧ ∃ cp', charging_points (st r) !! "CP-1" = Some cp'
           ∧ price_per_kwh cp' = 0.5%float ∧ location cp' = location cp.
Proof.
  intros cp c r.
  assert (Hcp : charging_points c !! "CP-1" = Some cp) by reflexivity.
  split; [exact Hcp|].
  destruct (records_are_never_deleted float_of_int_string round_exact hash_tag
              sample_env ["FAULT"; "CP-1"] 1%nat "10.0.0.1:5001" c "CP-1" cp Hcp)
    as ((cp' & Hcp' & Hkeep) & _).
  exists cp'. split; [exact Hcp'|]. apply Hkeep. discriminate.
Defined.

Lemma log_is_bounded_witness :
  let c := sample_central "CP-1" (sample_cp ACTIVATED None 0 0) in
  let r := _handle_client float_of_int_string round_exact hash_tag sample_env
             ["LOG"; "Monitor"; "door open"] 1%nat "10.0.0.1:5001" c in
  (length (logs c) ≤ 200)%nat
  ∧ length (logs (st r)) = 1%nat ∧ (length (logs (st r)) ≤ 200)%nat.
Proof.
  intros c r.
  assert (Hl : (length (logs c) ≤ 200)%nat) by (cbn; lia).
  split; [exact Hl|]. split; [reflexivity|].
  exact (proj1 (log_is_bounded float_of_int_string round_exact hash_tag sample_env
                  ["LOG"; "Monitor"; "door open"] 1%nat "10.0.0.1:5001" c Hl)).
Defined.

Lemma stuck_lock_freezes_the_central_witness :
  let c := sample_central "CP-1" (sample_cp ACTIVATED None 0 0) in
  let free := {| central := c; lock_stuck := false |} in
  let turn := _handle_client_guarded float_of_int_string round_exact hash_tag sample_env in
  let t1 := turn ["WEATHER_ALERT"; "CP-1"; "ALERT_COLD"] 8%nat "10.0.0.8:5008" free in
  let t2 := turn ["REQUEST_CHARGE"; "D-1"; "CP-1"; "10"] 2%nat "10.0.0.2:5002" t1.1 in
  let t3 := turn ["HEARTBEAT"; "CP-1"] 1%nat "10.0.0.1:5001" t1.1 in
  how t1.2 = Blocked ∧ lock_stuck t1.1 = true
  ∧ state <$> (charging_points (central t1.1) !! "CP-1") = Some "OUT_OF_ORDER"
  ∧ how t2.2 = Blocked ∧ effects t2.2 = [] ∧ central t2.1 = central t1.1
  ∧ how t3.2 = Returned ∧ central t3.1 = central t1.1.
Proof.
  intros c free turn t1 t2 t3.
  assert (Hstuck : lock_stuck t1.1 = true) by reflexivity.
  split; [reflexivity|]. split; [exact Hstuck|]. split; [reflexivity|].
  destruct (stuck_lock_freezes_the_central float_of_int_string round_exact hash_tag
              sample_env ["REQUEST_CHARGE"; "D-1"; "CP-1"; "10"] 2%nat "10.0.0.2:5002"
              t1.1) as (_ & _ & Hfrozen).
  destruct (Hfrozen Hstuck) as (_ & Hsame & Hblocks & Hnothing & _).
  assert (Hb : how t2.2 = Blocked) by (apply Hblocks; reflexivity).
  split; [exact Hb|]. split; [exact (Hnothing Hb)|]. split; [exact Hsame|].
  split; reflexivity.
Defined.

Lemma end_charge_only_by_current_driver_witness :
  let c := sample_central "CP-1" (sample_cp SUPPLYING (Some "D-1") 10 5) in
  let r := _handle_client float_of_int_string round_exact hash_tag sample_env
             ["END_CHARGE"; "D-2"; "CP-1"] 3%nat "10.0.0.3:5003" c in
  charging_points c !! "CP-1" ≫= current_driver ≠ Some "D-2"
  ∧ st r = c ∧ effects r = [].
Proof.
  intros c r.
  assert (Hd : charging_points c !! "CP-1" ≫= current_driver ≠ Some "D-2")
    by (intros H; vm_compute in H; discriminate H).
  split; [exact Hd|].
  destruct (end_charge_only_by_current_driver float_of_int_string round_exact hash_tag
              sample_env "END_CHARGE" "D-2" "CP-1" [] 3%nat "10.0.0.3:5003" c
              (or_introl eq_refl) Hd) as (Hst & Hev & _).
  exact (conj Hst Hev).
Defined.

Lemma end_charge_bills_accumulated_totals_witness :
  let cp := sample_cp SUPPLYING (Some "D-1") 10 5 in
  let c := sample_central "CP-1" cp in
  let r := _handle_end_charge sample_env ["END_CHARGE"; "D-1"; "CP-1"]
             2%nat "10.0.0.2:5002" c in
  charging_points c !! "CP-1" = Some cp
  ∧ current_driver cp = Some "D-1"
  ∧ billed (effects r) = [("D-1", 5%float)]
  ∧ head (sent_types (effects r)) = Some MessageTypes.END_SUPPLY.
Proof.
  intros cp c r.
  assert (Hcp : charging_points c !! "CP-1" = Some cp) by reflexivity.
  assert (Hd : current_driver cp = Some "D-1") by reflexivity.
  split; [exact Hcp|]. split; [exact Hd|].
  destruct (end_charge_bills_accumulated_totals sample_env sample_env
              "END_CHARGE" "END_CHARGE" "D-1" "CP-1" [] []
              2%nat 2%nat "10.0.0.2:5002" "10.0.0.2:5002" c cp Hcp Hd)
    as (_ & Hb & _ & Hstop & _).
  split; [exact Hb|]. apply Hstop. by eexists.
Defined.

Lemma fault_then_recovery_keeps_the_session_witness :
  let cp := sample_cp SUPPLYING (Some "D-1") 10 5 in
  let c := sample_central "CP-1" cp in
  let r1 := _handle_fault sample_env ["FAULT"; "CP-1"] "10.0.0.1:5001" c in
  let r2 := _handle_recovery sample_env ["RECOVERY"; "CP-1"] (st r1) in
  let r3 := _handle_charge_request float_of_int_string sample_env
              ["REQUEST_CHARGE"; "D-2"; "CP-1"; "10"] 3%nat "10.0.0.1:5001" (st r2) in
  charging_points c !! "CP-1" = Some cp
  ∧ float_of_int_string "10" = Some 10%float
  ∧ charging_points (st r2) !! "CP-1" = Some (set_state ACTIVATED cp)
  ∧ effects r3 = [Send 3%nat (build_message "DENY"
                                [VStr "D-2"; VStr "CP-1"; VStr "CP_ALREADY_IN_USE"])].
Proof.
  intros cp c r1 r2 r3.
  assert (Hcp : charging_points c !! "CP-1" = Some cp) by reflexivity.
  assert (H10 : float_of_int_string "10" = Some 10%float) by reflexivity.
  split; [exact Hcp|]. split; [exact H10|].
  destruct (fault_then_recovery_keeps_the_session float_of_int_string
              sample_env sample_env sample_env "FAULT" "RECOVERY" "REQUEST_CHARGE"
              "CP-1" "D-2" "10" [] [] [] 10 "10.0.0.1:5001" 3%nat c cp Hcp H10)
    as (_ & H2 & H3).
  split; [exact H2|]. apply H3. discriminate.
Defined.

Lemma driver_registration_resets_the_driver_witness :
  let cp := sample_cp SUPPLYING (Some "D-1") 10 5 in
  let c := sample_central "CP-1" cp in
  let r := _handle_register float_of_int_string hash_tag sample_env
             ["REGISTER"; "DRIVER"; "D-1"] 6%nat "10.0.0.6:5006" c in
  drivers c !! "D-1" = Some {| status := "CHARGING"; current_cp := Some "CP-1" |}
  ∧ drivers (st r) !! "D-1" = Some {| status := "IDLE"; current_cp := None |}
  ∧ entity_to_socket (st r) !! "D-1" = Some 6%nat
  ∧ charging_points (st r) !! "CP-1" = Some cp
  ∧ current_driver cp = Some "D-1".
Proof.
  intros cp c r.
  destruct (driver_registration_resets_the_driver float_of_int_string hash_tag
              sample_env "REGISTER" "D-1" [] 6%nat "10.0.0.6:5006" c)
    as (Hd & Hes & _ & _ & Hcp & _).
  split; [reflexivity|].
  split; [exact (eq_trans (f_equal (λ m, m !! "D-1") Hd) eq_refl)|].
  split; [exact (eq_trans (f_equal (λ m, m !! "D-1") Hes) eq_refl)|].
  split; [exact (eq_trans (f_equal (λ m, m !! "CP-1") Hcp) eq_refl)|reflexivity].
Defined.

Lemma force_stop_bills_accumulated_totals_witness :
  let cp := sample_cp SUPPLYING (Some "D-1") 10 5 in
  let c := sample_central "CP-1" cp in
  let r := force_stop_charge sample_env "CP-1" c in
  charging_points c !! "CP-1" = Some cp
  ∧ (∃ cp', charging_points (st r) !! "CP-1" = Some cp' ∧ session_cleared cp')
  ∧ billed (effects r) = [("D-1", 5%float)].
Proof.
  intros cp c r.
  assert (Hcp : charging_points c !! "CP-1" = Some cp) by reflexivity.
  split; [exact Hcp|].
  destruct (proj2 (force_stop_bills_accumulated_totals sample_env "CP-1" c)
              cp Hcp eq_refl) as (Hcps & Hb & _).
  split; [|exact Hb].
  exists (reset_cp cp).
  split; [exact (eq_trans (f_equal (λ m, m !! "CP-1") Hcps) eq_refl)|].
  repeat split.
Defined.

End CentralRuns.

Section RegistrationRuns.

Import CP_STATES EVCentral.

Lemma refused_registration_leaves_no_trace_witness :
  let c := sample_central "CP-1" (sample_cp ACTIVATED None 0 0) in
  let fields := ["REGISTER"; "CP"; "CP-3"; "40"; "3"; "1"; "cp_user"; "secret"] in
  let r := _handle_register float_of_int_string hash_tag sample_env fields
             4%nat "10.0.0.4:5004" c in
  (∀ reg, registry sample_env = Some reg →
          Registry.verify_cp hash_tag reg "CP-3" (field fields 6) (field fields 7)
          ≠ 200%Z)
  ∧ st r = c
  ∧ effects r = [Send 4%nat (build_message MessageTypes.DENY
                               [VStr "CP-3"; VStr "AUTH_FAILED"])].
Proof.
  intros c fields r.
  assert (Hv : ∀ reg, registry sample_env = Some reg →
                 Registry.verify_cp hash_tag reg "CP-3" (field fields 6) (field fields 7)
                 ≠ 200%Z).
  { intros reg Hreg. injection Hreg as <-. intros H. vm_compute in H. discriminate H. }
  split; [exact Hv|].
  destruct (refused_registration_leaves_no_trace float_of_int_string hash_tag
              sample_env "REGISTER" "CP-3" ["40"; "3"; "1"; "cp_user"; "secret"]
              4%nat "10.0.0.4:5004" c Hv) as (Hst & Hev & _).
  exact (conj Hst Hev).
Defined.

Lemma accepted_registration_resumes_the_session_witness :
  let cp := sample_cp DISCONNECTED (Some "D-1") 10 5 in
  let c := sample_central "CP-1" cp in
  let fields := ["REGISTER"; "CP"; "CP-1"; "40"; "3"; "1"; "cp_user"; "secret"] in
  let r := _handle_register float_of_int_string hash_tag sample_registry_env fields
             5%nat "10.0.0.5:5005" c in
  registry sample_registry_env = Some sample_registry
  ∧ Registry.verify_cp hash_tag sample_registry "CP-1" (Some "cp_user") (Some "secret")
    = 200%Z
  ∧ (∃ cp', charging_points (st r) !! "CP-1" = Some cp'
       ∧ current_driver cp' = Some "D-1" ∧ state cp' = SUPPLYING
       ∧ kwh_delivered cp' = 10%float)
  ∧ entity_to_socket (st r) !! "CP-1" = Some 5%nat.
Proof.
  intros cp c fields r.
  assert (Hreg : registry sample_registry_env = Some sample_registry) by reflexivity.
  assert (Hv : Registry.verify_cp hash_tag sample_registry "CP-1"
                 (Some "cp_user") (Some "secret") = 200%Z) by reflexivity.
  split; [exact Hreg|]. split; [exact Hv|].
  destruct (accepted_registration_resumes_the_session float_of_int_string hash_tag
              sample_registry_env sample_registry "REGISTER" "CP-1" "40" "3" "1"
              "cp_user" "secret" [] 5%nat "10.0.0.5:5005" c Hreg Hv)
    as ((cp' & Hcp' & Hd & _ & Hk & _ & Hs) & _ & Hsock & _).
  split; [|exact Hsock].
  exists cp'. split; [exact Hcp'|]. split; [exact Hd|]. split; [exact Hs|exact Hk].
Defined.

Lemma cleanup_of_unregistered_socket_witness :
  let c := sample_central "CP-1" (sample_cp ACTIVATED None 0 0) in
  let r := _cleanup_socket 9%nat "10.0.0.9:5009" c in
  socket_to_entity c !! 9%nat = None
  ∧ socket_to_type c !! 9%nat = None
  ∧ charging_points (st r) = charging_points c
  ∧ entity_to_socket (st r) = entity_to_socket c
  ∧ effects r = [Close 9%nat].
Proof.
  intros c r.
  assert (He : socket_to_entity c !! 9%nat = None) by reflexivity.
  assert (Ht : socket_to_type c !! 9%nat = None) by reflexivity.
  split; [exact He|]. split; [exact Ht|].
  destruct (cleanup_of_unregistered_socket 9%nat "10.0.0.9:5009" c He Ht)
    as ((Hcp & _ & _ & Hes & _) & _ & Hev & _).
  exact (conj Hcp (conj Hes Hev)).
Defined.

Lemma cleanup_of_superseded_socket_witness :
  let cp := sample_cp ACTIVATED None 0 0 in
  let c := sample_central_reconnected cp in
  let r := _cleanup_socket 1%nat "10.0.0.1:5001" c in
  socket_to_entity c !! 1%nat = Some "CP-1"
  ∧ socket_to_type c !! 1%nat = Some "CP"
  ∧ entity_to_socket c !! "CP-1" = Some 5%nat
  ∧ charging_points c !! "CP-1" = Some cp
  ∧ state cp ≠ SUPPLYING
  ∧ entity_to_socket (st r) = entity_to_socket c
  ∧ charging_points (st r) !! "CP-1" = Some (disconnected_cp cp)
  ∧ state <$> (charging_points (st r) !! "CP-1") = Some "DISCONNECTED".
Proof.
  intros cp c r.
  assert (He : socket_to_entity c !! 1%nat = Some "CP-1") by reflexivity.
  assert (Ht : socket_to_type c !! 1%nat = Some "CP") by reflexivity.
  assert (Hn : entity_to_socket c !! "CP-1" = Some 5%nat) by reflexivity.
  assert (Hcp : charging_points c !! "CP-1" = Some cp) by reflexivity.
  assert (Hs : state cp ≠ SUPPLYING) by (intros H; vm_compute in H; discriminate H).
  assert (Hne : "CP-1" ≠ "") by discriminate.
  assert (Hsock : 5%nat ≠ 1%nat) by discriminate.
  split; [exact He|]. split; [exact Ht|]. split; [exact Hn|]. split; [exact Hcp|].
  split; [exact Hs|].
  destruct (cleanup_of_superseded_socket 1%nat 5%nat "10.0.0.1:5001" "CP-1" c cp
              He Hne Ht Hn Hsock Hcp Hs) as (Hes & _ & Hrec).
  split; [exact Hes|]. split; [exact Hrec|].
  exact (eq_trans (f_equal (fmap state) Hrec) eq_refl).
Defined.

End RegistrationRuns.

Section PeerRuns.

Import CP_STATES EVCPEngine.

Lemma engine_supplies_exactly_while_it_holds_a_session_witness :
  let p := sample_peer (sample_engine ACTIVATED) in
  let r := _listen_central_loop float_of_int_string round_exact 1000%Z
             ["AUTHORIZE"; "D-1"; "CP-1"; "20"] p in
  session_coherent (core p)
  ∧ state (core (peer_st r)) = SUPPLYING
  ∧ session_coherent (core (peer_st r)).
Proof.
  intros p r.
  assert (Hp : session_coherent (core p)).
  { split; split; try reflexivity; intros H; vm_compute in H; try discriminate H.
    contradiction. }
  split; [exact Hp|]. split; [reflexivity|].
  exact (proj1 (engine_supplies_exactly_while_it_holds_a_session
                  float_of_int_string round_exact 1%float 1000%Z
                  ["AUTHORIZE"; "D-1"; "CP-1"; "20"] p Hp)).
Defined.

Lemma stopped_engine_refuses_until_resumed_witness :
  let p := sample_peer (sample_engine ACTIVATED) in
  let authorize := ["AUTHORIZE"; "D-1"; "CP-1"; "20"] in
  let stopped :=
    peer_st (_listen_central_loop float_of_int_string round_exact 1000%Z
               ["STOP_SUPPLY"; "CP-1"] p) in
  let refused :=
    _listen_central_loop float_of_int_string round_exact 1001%Z authorize stopped in
  let resumed :=
    peer_st (_listen_central_loop float_of_int_string round_exact 1002%Z
               ["RESUME_SUPPLY"; "CP-1"] stopped) in
  let accepted :=
    _listen_central_loop float_of_int_string round_exact 1003%Z authorize resumed in
  state (core p) ≠ SUPPLYING
  ∧ float_of_int_string "20" = Some 20%float
  ∧ state (core stopped) = OUT_OF_ORDER
  ∧ peer_st refused = stopped
  ∧ core (peer_st accepted) = start_supply 1003%Z "D-1" 20 (core resumed)
  ∧ state (core (peer_st accepted)) = "SUPPLYING"
  ∧ current_driver (core (peer_st accepted)) = Some "D-1"
  ∧ current_session (core (peer_st accepted))
    = Some {| start := 1003%Z; kwh_needed := 20%float; kwh_delivered := 0%float |}.
Proof.
  intros p authorize stopped refused resumed accepted.
  assert (Hs : state (core p) ≠ SUPPLYING) by (intros H; vm_compute in H; discriminate H).
  assert (H20 : float_of_int_string "20" = Some 20%float) by reflexivity.
  split; [exact Hs|]. split; [exact H20|].
  destruct (stopped_engine_refuses_until_resumed float_of_int_string round_exact
              1000%Z 1001%Z 1002%Z 1003%Z ["CP-1"] ["CP-1"] [] "D-1" "CP-1" "20" 20 p
              Hs H20) as (H1 & H2 & _ & _ & H5 & _).
  split; [exact H1|]. split; [exact H2|]. split; [exact H5|].
  split; [exact (eq_trans (f_equal state H5) eq_refl)|].
  split; [exact (eq_trans (f_equal current_driver H5) eq_refl)|].
  exact (eq_trans (f_equal current_session H5) eq_refl).
Defined.

Lemma stop_during_a_session_is_forgotten_witness :
  let p := sample_peer sample_supplying_engine in
  let s := {| start := 1000%Z; kwh_needed := 20%float; kwh_delivered := 0%float |} in
  let stopped :=
    peer_st (_listen_central_loop float_of_int_string round_exact 1005%Z
               ["STOP_SUPPLY"; "CP-1"] p) in
  state (core p) = SUPPLYING
  ∧ current_session (core p) = Some s
  ∧ tick_finishes 15%float s = true
  ∧ charging_complete (core stopped) = true
  ∧ current_session (core stopped) = Some s
  ∧ _status_loop round_exact 15%float stopped = _status_loop round_exact 15%float p
  ∧ state (core (peer_st (_status_loop round_exact 15%float stopped))) = ACTIVATED.
Proof.
  intros p s stopped.
  assert (Hs : state (core p) = SUPPLYING) by reflexivity.
  assert (Hsess : current_session (core p) = Some s) by reflexivity.
  assert (Hf : tick_finishes 15%float s = true) by reflexivity.
  split; [exact Hs|]. split; [exact Hsess|]. split; [exact Hf|]. split; [reflexivity|].
  destruct (stop_during_a_session_is_forgotten float_of_int_string round_exact 15%float
              1005%Z 1006%Z ["CP-1"] ["CP-1"] p s Hs Hsess)
    as (_ & H2 & _ & _ & _ & Hloop).
  split; [exact H2|].
  apply Hloop; [exact Hf|by eexists|reflexivity].
Defined.

End PeerRuns.
